(** * A shallow embedding of the MAR archive codec (mar.go)

    The Go package [mar] parses Mozilla ARchive files ([Unmarshal]) and
    re-serialises the part of an archive covered by its signatures
    ([MarshalForSignature]).  This file embeds both functions, together
    with the bounded-read helper [parse], and proves or refutes the
    properties the specification states about them.

    Conventions of the embedding:
    - a Go [[]byte] is a [list byte], the [len] elements it holds.  The
      buffer handed to [Unmarshal] comes with a second list, [spare]: the
      elements of its backing array from [len(input)] up to
      [cap(input)], which a slice expression [input[lo:hi]] can reach.
      The slices [MarshalForSignature] writes to come from [make] and
      have no spare capacity;
    - Go's [int] is the 64-bit signed integer of the usual targets.  Cursor
      arithmetic stays below [len(input) + 2^32] and is written on [Z]
      without wrap-around; the conversions [int(x)] of unsigned values are
      written out ([int_of_uint32], [int_of_uint64]);
    - [uint32] and [uint64] values are [Z] with the wrap-around written out
      ([wrap32], [wrap64]);
    - a Go [string] is a [string]; [string(bs)] is [string_of_list_byte];
    - [map[string]Entry] is a [gmap string Entry.t];
    - [Unmarshal] fills the caller's [*File] in place: it is a computation
      in a state monad over [File.t] that can stop with a returned error or
      with a run-time panic;
    - the diagnostic [fmt.Fprintf(os.Stderr, ...)] lines do not touch the
      parsed structure and are left out. *)

From Stdlib Require Import ZArith Lia List String Ascii.
From Stdlib Require Import Strings.Byte.
From stdpp Require Import gmap strings list.

Local Open Scope Z_scope.

(** ** Machine integers *)

Definition wrap32 (z : Z) : Z := z mod 2 ^ 32.
Definition wrap64 (z : Z) : Z := z mod 2 ^ 64.

(** [int(x)] for [x : uint32]: always representable. *)
Definition int_of_uint32 (x : Z) : Z := x.

(** [int(x)] for [x : uint64]: values from [2^63] on wrap to negatives. *)
Definition int_of_uint64 (x : Z) : Z :=
  if x <? 2 ^ 63 then x else x - 2 ^ 64.

(** Largest value of Go's [int]. *)
Definition MaxInt : Z := 2 ^ 63 - 1.

(** ** Byte slices *)

#[global] Instance byte_eq_decision : EqDecision byte := Byte.byte_eq_dec.

(** [len(s)] as a Go [int]. *)
Definition len {A} (s : list A) : Z := Z.of_nat (length s).

(** [s[lo:hi]], for bounds already known to be in range. *)
Definition slice {A} (s : list A) (lo hi : Z) : list A :=
  take (Z.to_nat (hi - lo)) (drop (Z.to_nat lo) s).

(** [s[lo:hi]] with Go's run-time check [0 <= lo <= hi <= cap(s)], for a
    slice [s] whose backing array holds the elements [spare] behind it:
    [cap(s) = len(s) + len(spare)], and the result can reach into
    [spare].  [None] is the "slice bounds out of range" panic. *)
Definition slice_checked {A} (s spare : list A) (lo hi : Z)
  : option (list A) :=
  if (hi <=? len s + len spare) && (lo <=? hi) && (0 <=? lo)
  then Some (slice (s ++ spare) lo hi) else None.

(** [copy(dst[lo:hi], src)] for a [dst] that comes from [make], so that
    [cap(dst) = len(dst)]: copies [min(hi - lo, len(src))] elements into
    [dst] from position [lo] on; [None] is the panic of the slice
    expression. *)
Definition copy_into {A} (dst : list A) (lo hi : Z) (src : list A)
  : option (list A) :=
  if (hi <=? len dst) && (lo <=? hi) && (0 <=? lo)
  then let n := Z.min (hi - lo) (len src) in
       Some (take (Z.to_nat lo) dst ++ take (Z.to_nat n) src
               ++ drop (Z.to_nat (lo + n)) dst)
  else None.

(** ** Big-endian integers ([encoding/binary], [binary.BigEndian]) *)

Definition byte_to_Z (b : byte) : Z := Z.of_N (Byte.to_N b).

Definition byte_of_Z (z : Z) : byte :=
  match Byte.of_N (Z.to_N (z mod 256)) with
  | Some b => b
  | None => x00
  end.

(** The unsigned integer a byte string denotes, most significant first. *)
Definition be_uint (bs : list byte) : Z :=
  fold_left (fun acc b => acc * 256 + byte_to_Z b) bs 0.

(** The [n] low bytes of [z], most significant first. *)
Fixpoint put_be (n : nat) (z : Z) : list byte :=
  match n with
  | O => []
  | S n' => put_be n' (z / 256) ++ [byte_of_Z z]
  end.

Definition put_uint32 (z : Z) : list byte := put_be 4 z.
Definition put_uint64 (z : Z) : list byte := put_be 8 z.

(** ** Constants of the format *)

Definition MarIDLen : Z := 4.
Definition OffsetToIndexLen : Z := 4.
Definition SignaturesHeaderLen : Z := 12.
Definition SignatureEntryHeaderLen : Z := 8.
Definition AdditionalSectionsHeaderLen : Z := 4.
Definition AdditionalSectionsEntryHeaderLen : Z := 8.
Definition IndexHeaderLen : Z := 4.
Definition IndexEntryHeaderLen : Z := 12.
Definition SigAlgRsaPkcs1Sha1 : Z := 1.
Definition SigAlgRsaPkcs1Sha384 : Z := 2.
Definition BlockIDProductInfo : Z := 1.

(** XZ's magic number, ["\xFD\x37\x7A\x58\x5A\x00"]. *)
Definition xz_magic : list byte := [xfd; x37; x7a; x58; x5a; x00].

(** ** The parsed structures

    One module per Go struct, so that fields keep their names.  The
    embedded header structs of [Signature], [AdditionalSection] and
    [IndexEntry] are flattened into their promoted fields. *)

Module SignaturesHeader.
Record t := mk { FileSize : Z; NumSignatures : Z }.
End SignaturesHeader.

Module signatureEntryHeader.
Record t := mk { AlgorithmID : Z; Size : Z }.
End signatureEntryHeader.

Module Signature.
Record t := mk {
  AlgorithmID : Z; Size : Z; Algorithm : string; Data : list byte }.
End Signature.

Module AdditionalSectionsHeader.
Record t := mk { NumAdditionalSections : Z }.
End AdditionalSectionsHeader.

Module additionalSectionEntryHeader.
Record t := mk { BlockSize : Z; BlockID : Z }.
End additionalSectionEntryHeader.

Module AdditionalSection.
Record t := mk { BlockSize : Z; BlockID : Z; Data : list byte }.
End AdditionalSection.

Module Entry.
Record t := mk { Data : list byte; IsCompressed : bool }.
End Entry.

Module IndexHeader.
Record t := mk { Size : Z }.
End IndexHeader.

Module indexEntryHeader.
Record t := mk { OffsetToContent : Z; Size : Z; Flags : Z }.
End indexEntryHeader.

Module IndexEntry.
Record t := mk {
  OffsetToContent : Z; Size : Z; Flags : Z; FileName : string }.
End IndexEntry.

Module File.
Record t := mk {
  MarID : string;
  OffsetToIndex : Z;
  ProductInformation : string;
  SignaturesHeader : SignaturesHeader.t;
  Signatures : list Signature.t;
  AdditionalSectionsHeader : AdditionalSectionsHeader.t;
  AdditionalSections : list AdditionalSection.t;
  IndexHeader : IndexHeader.t;
  Index : list IndexEntry.t;
  Content : gmap string Entry.t }.

(** The zero value of the struct, [File{}]. *)
Definition zero : t :=
  mk EmptyString 0 EmptyString (SignaturesHeader.mk 0 0) []
     (AdditionalSectionsHeader.mk 0) [] (IndexHeader.mk 0) [] ∅.

(** Field assignments [file.X = v]. *)
Definition set_MarID (v : string) (f : t) : t :=
  mk v (OffsetToIndex f) (ProductInformation f) (SignaturesHeader f)
     (Signatures f) (AdditionalSectionsHeader f) (AdditionalSections f)
     (IndexHeader f) (Index f) (Content f).
Definition set_OffsetToIndex (v : Z) (f : t) : t :=
  mk (MarID f) v (ProductInformation f) (SignaturesHeader f)
     (Signatures f) (AdditionalSectionsHeader f) (AdditionalSections f)
     (IndexHeader f) (Index f) (Content f).
Definition set_ProductInformation (v : string) (f : t) : t :=
  mk (MarID f) (OffsetToIndex f) v (SignaturesHeader f)
     (Signatures f) (AdditionalSectionsHeader f) (AdditionalSections f)
     (IndexHeader f) (Index f) (Content f).
Definition set_SignaturesHeader (v : SignaturesHeader.t) (f : t) : t :=
  mk (MarID f) (OffsetToIndex f) (ProductInformation f) v
     (Signatures f) (AdditionalSectionsHeader f) (AdditionalSections f)
     (IndexHeader f) (Index f) (Content f).
Definition set_Signatures (v : list Signature.t) (f : t) : t :=
  mk (MarID f) (OffsetToIndex f) (ProductInformation f) (SignaturesHeader f)
     v (AdditionalSectionsHeader f) (AdditionalSections f)
     (IndexHeader f) (Index f) (Content f).
Definition set_AdditionalSectionsHeader (v : AdditionalSectionsHeader.t)
  (f : t) : t :=
  mk (MarID f) (OffsetToIndex f) (ProductInformation f) (SignaturesHeader f)
     (Signatures f) v (AdditionalSections f)
     (IndexHeader f) (Index f) (Content f).
Definition set_AdditionalSections (v : list AdditionalSection.t)
  (f : t) : t :=
  mk (MarID f) (OffsetToIndex f) (ProductInformation f) (SignaturesHeader f)
     (Signatures f) (AdditionalSectionsHeader f) v
     (IndexHeader f) (Index f) (Content f).
Definition set_IndexHeader (v : IndexHeader.t) (f : t) : t :=
  mk (MarID f) (OffsetToIndex f) (ProductInformation f) (SignaturesHeader f)
     (Signatures f) (AdditionalSectionsHeader f) (AdditionalSections f)
     v (Index f) (Content f).
Definition set_Index (v : list IndexEntry.t) (f : t) : t :=
  mk (MarID f) (OffsetToIndex f) (ProductInformation f) (SignaturesHeader f)
     (Signatures f) (AdditionalSectionsHeader f) (AdditionalSections f)
     (IndexHeader f) v (Content f).
Definition set_Content (v : gmap string Entry.t) (f : t) : t :=
  mk (MarID f) (OffsetToIndex f) (ProductInformation f) (SignaturesHeader f)
     (Signatures f) (AdditionalSectionsHeader f) (AdditionalSections f)
     (IndexHeader f) (Index f) v.
End File.

(** ** Errors, panics and the monad of the two operations *)

(** The error of [parse]. *)
Inductive ParseError :=
| RefusingToRead.
  (* "refusing to read more bytes than present in input" *)

(** The errors [Unmarshal] returns, one constructor per message. *)
Inductive DecodeError :=
| ErrTooSmall
  (* "input is smaller than minimum MAR size and cannot be parsed" *)
| ErrParsingFailed (pos : Z) (e : ParseError)
  (* "parsing failed at position %d: %v" *)
| ErrMissingNull
  (* "malformed index is missing null terminator in file name" *)
| ErrDuplicate (name : string).
  (* "file named %q already exists in the archive, duplicates are not
      permitted" *)

(** The error [MarshalForSignature] returns. *)
Inductive EncodeError :=
| ErrIndexSize (got expected : Z).
  (* "marshalled index has size %d when size %d was expected" *)

(** Go's run-time panics that the two operations can raise. *)
Inductive PanicKind :=
| SliceBoundsOutOfRange
| MakeSliceLenOutOfRange.

(** How a call ends when it does not run to its last statement. *)
Inductive Abort (E : Type) :=
| Error (e : E)          (* [return err] *)
| Panic (p : PanicKind)  (* a run-time panic unwinds the call *)
| OutOfFuel.             (* the model's loop bound ran out *)
Arguments Error {E} e.
Arguments Panic {E} p.
Arguments OutOfFuel {E}.

(** A computation over the [File] behind the pointer: it ends with a
    value or an [Abort], and with the state the [File] is left in. *)
Definition M (E A : Type) : Type := File.t -> (A + Abort E) * File.t.

Definition ret {E A} (a : A) : M E A := fun f => (inl a, f).
Definition bind {E A B} (k : A -> M E B) (m : M E A) : M E B :=
  fun f => match m f with
           | (inl a, f') => k a f'
           | (inr x, f') => (inr x, f')
           end.
Definition abort {E A} (x : Abort E) : M E A := fun f => (inr x, f).
Definition get {E} : M E File.t := fun f => (inl f, f).
Definition modify {E} (g : File.t -> File.t) : M E unit :=
  fun f => (inl tt, g f).

(** The notations [x ← m; k] and [m;; k] of stdpp's monad classes. *)
#[global] Instance M_ret {E} : MRet (M E) := @ret E.
#[global] Instance M_bind {E} : MBind (M E) := @bind E.

(** [for _, x := range xs { body }] *)
Fixpoint for_each {E A} (xs : list A) (body : A -> M E unit) : M E unit :=
  match xs with
  | [] => ret tt
  | x :: xs' => body x;; for_each xs' body
  end.

(** A slice expression [s[lo:hi]] as a step of a computation; [s[lo:]]
    is [s[lo:len(s)]]. *)
Definition go_slice {E} (s spare : list byte) (lo hi : Z)
  : M E (list byte) :=
  match slice_checked s spare lo hi with
  | Some bs => ret bs
  | None => abort (Panic SliceBoundsOutOfRange)
  end.

(** ** The bounded read: [parse]

    [parse] refuses to read past the end of the input; otherwise
    [binary.Read] fills the destination from exactly [readLen] bytes.  In
    every call of this file the destination's encoded size is [readLen],
    so [binary.Read] itself never fails; the bytes read are returned and
    the caller's [read_*] function decodes them into the destination. *)
Definition parse (input : list byte) (startPos readLen : Z)
  : ParseError + list byte :=
  if len input <? startPos + readLen then inl RefusingToRead
  else inr (slice input startPos (startPos + readLen)).

(** A call of [parse] at [cursor] followed by
    [if err != nil { return fmt.Errorf("parsing failed at position %d: %v",
    cursor, err) }]. *)
Definition parse_at (input : list byte) (cursor readLen : Z)
  : M DecodeError (list byte) :=
  match parse input cursor readLen with
  | inl e => abort (Error (ErrParsingFailed cursor e))
  | inr bs => ret bs
  end.

(** [binary.Read] into the fixed-size destinations of [Unmarshal]. *)
Definition read_uint32 (bs : list byte) : Z := be_uint (slice bs 0 4).

Definition read_SignaturesHeader (bs : list byte) : SignaturesHeader.t :=
  SignaturesHeader.mk (be_uint (slice bs 0 8)) (be_uint (slice bs 8 12)).

Definition read_signatureEntryHeader (bs : list byte)
  : signatureEntryHeader.t :=
  signatureEntryHeader.mk (be_uint (slice bs 0 4)) (be_uint (slice bs 4 8)).

Definition read_AdditionalSectionsHeader (bs : list byte)
  : AdditionalSectionsHeader.t :=
  AdditionalSectionsHeader.mk (be_uint (slice bs 0 4)).

Definition read_additionalSectionEntryHeader (bs : list byte)
  : additionalSectionEntryHeader.t :=
  additionalSectionEntryHeader.mk
    (be_uint (slice bs 0 4)) (be_uint (slice bs 4 8)).

Definition read_IndexHeader (bs : list byte) : IndexHeader.t :=
  IndexHeader.mk (be_uint (slice bs 0 4)).

Definition read_indexEntryHeader (bs : list byte) : indexEntryHeader.t :=
  indexEntryHeader.mk
    (be_uint (slice bs 0 4)) (be_uint (slice bs 4 8))
    (be_uint (slice bs 8 12)).

(** ** Helpers from Go's [bytes] and [strings] packages *)

(** [bytes.Index(s, []byte{b})]: position of the first [b], or [-1]. *)
Fixpoint bytes_Index (s : list byte) (b : byte) : Z :=
  match s with
  | [] => -1
  | c :: s' =>
      if decide (c = b) then 0
      else let r := bytes_Index s' b in if r <? 0 then -1 else r + 1
  end.

(** [strings.Trim(s, "\x00")], on the bytes of the string. *)
Fixpoint trim_left_nul (s : list byte) : list byte :=
  match s with
  | c :: s' => if decide (c = x00) then trim_left_nul s' else s
  | [] => []
  end.

Definition strings_Trim_nul (s : list byte) : list byte :=
  rev (trim_left_nul (rev (trim_left_nul s))).

(** [strings.Replace(s, "\x00", " ", -1)], on the bytes of the string. *)
Definition strings_Replace_nul_space (s : list byte) : list byte :=
  map (fun c => if decide (c = x00) then x20 else c) s.

(** ** [Unmarshal] *)

(** The [switch sig.AlgorithmID] of the signature loop. *)
Definition algorithm_name (id : Z) : string :=
  if id =? SigAlgRsaPkcs1Sha1 then "RSA-PKCS1-SHA1"%string
  else if id =? SigAlgRsaPkcs1Sha384 then "RSA-PKCS1-SHA384"%string
  else "unknown"%string.

(** [for i = 0; i < file.SignaturesHeader.NumSignatures; i++ { ... }];
    the value is the cursor after the last signature. *)
Fixpoint parse_signatures (fuel : nat) (input : list byte) (i : Z)
  (cursor : Z) : M DecodeError Z :=
  match fuel with
  | O => abort OutOfFuel
  | S fuel' =>
      file ← get;
      if i <? SignaturesHeader.NumSignatures (File.SignaturesHeader file)
      then
        bs ← parse_at input cursor SignatureEntryHeaderLen;
        let sigEntryHeader := read_signatureEntryHeader bs in
        let cursor := cursor + SignatureEntryHeaderLen in
        let AlgorithmID := signatureEntryHeader.AlgorithmID sigEntryHeader in
        let Size := signatureEntryHeader.Size sigEntryHeader in
        let Algorithm := algorithm_name AlgorithmID in
        Data ← parse_at input cursor (int_of_uint32 Size);
        let cursor := cursor + int_of_uint32 Size in
        let sig := Signature.mk AlgorithmID Size Algorithm Data in
        modify (fun f => File.set_Signatures (File.Signatures f ++ [sig]) f);;
        parse_signatures fuel' input (wrap32 (i + 1)) cursor
      else ret cursor
  end.

(** The [switch ash.BlockID] of the additional-sections loop. *)
Definition store_block (BlockID : Z) (Data : list byte) : M DecodeError unit :=
  if BlockID =? BlockIDProductInfo
  then modify (File.set_ProductInformation
                 (string_of_list_byte
                    (strings_Replace_nul_space (strings_Trim_nul Data))))
  else ret tt.

(** [for i = 0; i < file.AdditionalSectionsHeader.NumAdditionalSections;
    i++ { ... }]; the value is the cursor after the last section. *)
Fixpoint parse_sections (fuel : nat) (input : list byte) (i : Z)
  (cursor : Z) : M DecodeError Z :=
  match fuel with
  | O => abort OutOfFuel
  | S fuel' =>
      file ← get;
      if i <? AdditionalSectionsHeader.NumAdditionalSections
                (File.AdditionalSectionsHeader file)
      then
        bs ← parse_at input cursor AdditionalSectionsEntryHeaderLen;
        let ash := read_additionalSectionEntryHeader bs in
        let cursor := cursor + AdditionalSectionsEntryHeaderLen in
        let BlockID := additionalSectionEntryHeader.BlockID ash in
        let BlockSize := additionalSectionEntryHeader.BlockSize ash in
        let dataSize := wrap32 (BlockSize - AdditionalSectionsEntryHeaderLen) in
        Data ← parse_at input cursor (int_of_uint32 dataSize);
        let cursor := cursor + int_of_uint32 dataSize in
        store_block BlockID Data;;
        let as_ := AdditionalSection.mk BlockSize BlockID Data in
        modify (fun f => File.set_AdditionalSections
                           (File.AdditionalSections f ++ [as_]) f);;
        parse_sections fuel' input (wrap32 (i + 1)) cursor
      else ret cursor
  end.

(** [for i = 0; ; i++ { if cursor >= int(file.SignaturesHeader.FileSize)
    { break } ... }] *)
Fixpoint parse_index (fuel : nat) (input spare : list byte) (cursor : Z)
  : M DecodeError unit :=
  match fuel with
  | O => abort OutOfFuel
  | S fuel' =>
      file ← get;
      if int_of_uint64 (SignaturesHeader.FileSize (File.SignaturesHeader file))
           <=? cursor
      then ret tt
      else
        bs ← parse_at input cursor IndexEntryHeaderLen;
        let idxEntryHeader := read_indexEntryHeader bs in
        let cursor := cursor + IndexEntryHeaderLen in
        rest ← go_slice input spare cursor (len input);
        let endNamePos := bytes_Index rest x00 in
        if endNamePos <? 0 then abort (Error ErrMissingNull)
        else
          name ← go_slice input spare cursor (cursor + endNamePos);
          let idxEntry :=
            IndexEntry.mk (indexEntryHeader.OffsetToContent idxEntryHeader)
                          (indexEntryHeader.Size idxEntryHeader)
                          (indexEntryHeader.Flags idxEntryHeader)
                          (string_of_list_byte name) in
          let cursor := cursor + (endNamePos + 1) in
          modify (fun f => File.set_Index (File.Index f ++ [idxEntry]) f);;
          parse_index fuel' input spare cursor
  end.

(** The test on XZ's magic number:
    [len(entry.Data) > 6 && bytes.Equal(entry.Data[0:6], magic)]. *)
Definition is_xz (Data : list byte) : bool :=
  (6 <? len Data) && bool_decide (slice Data 0 6 = xz_magic).

(** The body of [for _, idxEntry := range file.Index { ... }]. *)
Definition load_entry (input spare : list byte) (idxEntry : IndexEntry.t)
  : M DecodeError unit :=
  let lo := IndexEntry.OffsetToContent idxEntry in
  let hi := wrap32 (IndexEntry.OffsetToContent idxEntry
                    + IndexEntry.Size idxEntry) in
  Data ← go_slice input spare lo hi;
  let entry := Entry.mk Data (is_xz Data) in
  file ← get;
  match File.Content file !! IndexEntry.FileName idxEntry with
  | Some _ => abort (Error (ErrDuplicate (IndexEntry.FileName idxEntry)))
  | None =>
      modify (fun f => File.set_Content
                (<[IndexEntry.FileName idxEntry := entry]> (File.Content f)) f)
  end.

(** [file.Content = make(map[string]Entry)] and the loop over
    [file.Index]. *)
Definition load_content (input spare : list byte) : M DecodeError unit :=
  modify (File.set_Content ∅);;
  file ← get;
  for_each (File.Index file) (load_entry input spare).

(** Everything [Unmarshal] does before it fills [file.Content]. *)
Definition parse_structure (input spare : list byte)
  : M DecodeError unit :=
  if len input <? MarIDLen + OffsetToIndexLen + SignaturesHeaderLen
                  + AdditionalSectionsHeaderLen + IndexHeaderLen
  then abort (Error ErrTooSmall)
  else
    let fuel := S (length input) in
    let cursor := 0 in
    (* Parse the MAR ID *)
    marid ← parse_at input cursor MarIDLen;
    let cursor := cursor + MarIDLen in
    modify (File.set_MarID (string_of_list_byte marid));;
    (* Parse the offset to the index *)
    bs ← parse_at input cursor OffsetToIndexLen;
    modify (File.set_OffsetToIndex (read_uint32 bs));;
    let cursor := cursor + OffsetToIndexLen in
    (* Parse the Signature header *)
    bs ← parse_at input cursor SignaturesHeaderLen;
    modify (File.set_SignaturesHeader (read_SignaturesHeader bs));;
    let cursor := cursor + SignaturesHeaderLen in
    (* Parse each signature and append them to the File *)
    cursor ← parse_signatures fuel input 0 cursor;
    (* Parse the additional sections header *)
    bs ← parse_at input cursor AdditionalSectionsHeaderLen;
    modify (File.set_AdditionalSectionsHeader
              (read_AdditionalSectionsHeader bs));;
    let cursor := cursor + AdditionalSectionsHeaderLen in
    (* Parse each additional section and append them to the File *)
    _ ← parse_sections fuel input 0 cursor;
    (* Parse the index before parsing the content *)
    file ← get;
    let cursor := int_of_uint32 (File.OffsetToIndex file) in
    bs ← parse_at input cursor IndexHeaderLen;
    modify (File.set_IndexHeader (read_IndexHeader bs));;
    let cursor := cursor + IndexHeaderLen in
    parse_index fuel input spare cursor.

(** [func Unmarshal(input []byte, file *File) error], for an [input]
    whose backing array holds [spare] behind it. *)
Definition Unmarshal (input spare : list byte) : M DecodeError unit :=
  parse_structure input spare;;
  load_content input spare.

(** The decoder of the specification: [Unmarshal] into a fresh [File], on
    a buffer that is all of its backing array ([cap(input) =
    len(input)]). *)
Definition decode (input : list byte) : (unit + Abort DecodeError) * File.t :=
  Unmarshal input [] File.zero.

(** ** [MarshalForSignature] *)

(** [var sigDataSize uint32; for _, sig := range file.Signatures
    { sigDataSize += sig.Size }] *)
Definition sigDataSize_of (sigs : list Signature.t) : Z :=
  fold_left (fun acc sig => wrap32 (acc + Signature.Size sig)) sigs 0.

(** [make([]byte, n)] for [n : uint64]: a zeroed slice, or the panic
    "makeslice: len out of range" when [n] does not fit Go's [int]. *)
Definition make_bytes {E} (n : Z) : M E (list byte) :=
  if (n <? 0) || (MaxInt <? n) then abort (Panic MakeSliceLenOutOfRange)
  else ret (replicate (Z.to_nat n) x00).

(** [copy(dst[lo:hi], src)] as a step of a computation. *)
Definition go_copy {E} (dst : list byte) (lo hi : Z) (src : list byte)
  : M E (list byte) :=
  match copy_into dst lo hi src with
  | Some dst' => ret dst'
  | None => abort (Panic SliceBoundsOutOfRange)
  end.

(** What the first staging buffer [buf] holds after its [binary.Write]s:
    MAR ID, offset to index, signatures header, the header of each
    signature, additional sections header, each additional section. *)
Definition marshal_signature (sig : Signature.t) : list byte :=
  put_uint32 (Signature.AlgorithmID sig) ++ put_uint32 (Signature.Size sig).

Definition marshal_section (as_ : AdditionalSection.t) : list byte :=
  put_uint32 (AdditionalSection.BlockSize as_)
  ++ put_uint32 (AdditionalSection.BlockID as_)
  ++ AdditionalSection.Data as_.

Definition marshal_head (file : File.t) : list byte :=
  list_byte_of_string (File.MarID file)
  ++ put_uint32 (File.OffsetToIndex file)
  ++ (put_uint64 (SignaturesHeader.FileSize (File.SignaturesHeader file))
      ++ put_uint32 (SignaturesHeader.NumSignatures
                       (File.SignaturesHeader file)))
  ++ concat (map marshal_signature (File.Signatures file))
  ++ put_uint32 (AdditionalSectionsHeader.NumAdditionalSections
                   (File.AdditionalSectionsHeader file))
  ++ concat (map marshal_section (File.AdditionalSections file)).

(** What one turn of [for _, idx := range file.Index] appends to
    [idxBuf]. *)
Definition marshal_index_entry (idx : IndexEntry.t) : list byte :=
  put_uint32 (IndexEntry.OffsetToContent idx)
  ++ put_uint32 (IndexEntry.Size idx)
  ++ put_uint32 (IndexEntry.Flags idx)
  ++ list_byte_of_string (IndexEntry.FileName idx)
  ++ [x00].

(** [file.Content[name].Data]: the zero [Entry] for a missing key. *)
Definition content_data (content : gmap string Entry.t) (name : string)
  : list byte :=
  match content !! name with
  | Some e => Entry.Data e
  | None => []
  end.

(** [for _, idx := range file.Index { ... }]: every turn extends [idxBuf]
    and copies the entry's content into [output], shifted left by
    [sigDataSize]. *)
Fixpoint marshal_entries (index : list IndexEntry.t) (sigDataSize : Z)
  (idxBuf output : list byte) : M EncodeError (list byte * list byte) :=
  match index with
  | [] => ret (idxBuf, output)
  | idx :: index' =>
      let idxBuf := idxBuf ++ marshal_index_entry idx in
      file ← get;
      output ← go_copy output
        (wrap32 (IndexEntry.OffsetToContent idx - sigDataSize))
        (wrap32 (IndexEntry.OffsetToContent idx + IndexEntry.Size idx
                 - sigDataSize))
        (content_data (File.Content file) (IndexEntry.FileName idx));
      marshal_entries index' sigDataSize idxBuf output
  end.

(** [func (file *File) MarshalForSignature() ([]byte, error)] *)
Definition MarshalForSignature : M EncodeError (list byte) :=
  file ← get;
  let sigDataSize := sigDataSize_of (File.Signatures file) in
  output ← make_bytes
    (wrap64 (SignaturesHeader.FileSize (File.SignaturesHeader file)
             - sigDataSize));
  file ← get;
  let buf := marshal_head file in
  (* insert the first section at the beginning of the file *)
  output ← go_copy output 0 (len buf) buf;
  (* we need to marshal the content according to the index *)
  file ← get;
  let idxBuf := put_uint32 (IndexHeader.Size (File.IndexHeader file)) in
  '(idxBuf, output) ← marshal_entries (File.Index file) sigDataSize
                         idxBuf output;
  file ← get;
  if decide (wrap32 (len idxBuf)
             = wrap32 (IndexHeader.Size (File.IndexHeader file)
                       + IndexHeaderLen))
  then
    (* append the index to the end of the output *)
    output ← go_copy output
      (wrap32 (File.OffsetToIndex file - sigDataSize))
      (wrap32 (File.OffsetToIndex file + wrap32 (len idxBuf) - sigDataSize))
      idxBuf;
    ret output
  else abort (Error (ErrIndexSize (len idxBuf)
                       (IndexHeader.Size (File.IndexHeader file)))).

(** The signable-bytes encoder of the specification: the value
    [MarshalForSignature] returns on [file]. *)
Definition signable_bytes (file : File.t) : list byte + Abort EncodeError :=
  fst (MarshalForSignature file).

(** * Auxiliary definitions for the statements *)

(** ** Weakest preconditions for the monad

    [wp m Q f]: running [m] from the state [f] ends in an outcome and a
    state that satisfy [Q]. *)

Definition wp {E A} (m : M E A) (Q : A + Abort E -> File.t -> Prop)
  (f : File.t) : Prop :=
  Q (fst (m f)) (snd (m f)).


(** The fields [Unmarshal] reads from the first 20 bytes of the input. *)
Definition head_of (f : File.t) : string * Z * SignaturesHeader.t :=
  (File.MarID f, File.OffsetToIndex f, File.SignaturesHeader f).

(** The value those fields take when they are parsed from [input]. *)
Definition head_from (input : list byte) : string * Z * SignaturesHeader.t :=
  (string_of_list_byte (slice input 0 4),
   read_uint32 (slice input 4 8),
   read_SignaturesHeader (slice input 8 20)).

(** The outcomes of the part of [Unmarshal] that reads through [parse]:
    a value, or one of the errors of that part. *)
Definition checked_outcome {A} (r : A + Abort DecodeError) : Prop :=
  match r with
  | inl _ => True
  | inr (Error (ErrParsingFailed _ _)) => True
  | inr (Error ErrMissingNull) => True
  | inr _ => False
  end.

(** The outcomes of the loop that fills [file.Content]. *)
Definition content_outcome {A} (r : A + Abort DecodeError) : Prop :=
  match r with
  | inl _ => True
  | inr (Error (ErrDuplicate _)) => True
  | inr (Panic SliceBoundsOutOfRange) => True
  | inr _ => False
  end.

(** ** Concrete archives *)

(** One index entry ["a"] whose content offset 100 and content size
    [0xFFFFFFFF] reach far beyond the 42 bytes of the buffer. *)
Definition out_of_range_content_input : list byte :=
  list_byte_of_string "MAR1" ++ put_uint32 24       (* offset to index *)
  ++ put_uint64 42 ++ put_uint32 0                  (* file size, signatures *)
  ++ put_uint32 0                                   (* additional sections *)
  ++ put_uint32 14                                  (* index size *)
  ++ put_uint32 100 ++ put_uint32 4294967295 ++ put_uint32 0
  ++ list_byte_of_string "a" ++ [x00].

(** The same archive with content offset 24 and content size 100. *)
Definition past_the_end_content_input : list byte :=
  list_byte_of_string "MAR1" ++ put_uint32 24
  ++ put_uint64 42 ++ put_uint32 0
  ++ put_uint32 0
  ++ put_uint32 14
  ++ put_uint32 24 ++ put_uint32 100 ++ put_uint32 0
  ++ list_byte_of_string "a" ++ [x00].

(** One signature of 4 bytes, and one index entry ["a"] whose content is
    the 4 bytes at offset 0: less than the total signature data size. *)
Definition content_before_signatures_input : list byte :=
  list_byte_of_string "MAR1" ++ put_uint32 36
  ++ put_uint64 54 ++ put_uint32 1
  ++ put_uint32 1 ++ put_uint32 4 ++ list_byte_of_string "ssss"
  ++ put_uint32 0
  ++ put_uint32 14
  ++ put_uint32 0 ++ put_uint32 4 ++ put_uint32 0
  ++ list_byte_of_string "a" ++ [x00].

(** One index entry ["a"] whose content is exactly XZ's magic number. *)
Definition xz_magic_only_input : list byte :=
  list_byte_of_string "MAR1" ++ put_uint32 30
  ++ put_uint64 48 ++ put_uint32 0
  ++ put_uint32 0
  ++ xz_magic
  ++ put_uint32 14
  ++ put_uint32 24 ++ put_uint32 6 ++ put_uint32 0
  ++ list_byte_of_string "a" ++ [x00].

(** The same archive with one more content byte after the magic number. *)
Definition xz_magic_plus_one_input : list byte :=
  list_byte_of_string "MAR1" ++ put_uint32 31
  ++ put_uint64 49 ++ put_uint32 0
  ++ put_uint32 0
  ++ xz_magic ++ [x01]
  ++ put_uint32 14
  ++ put_uint32 24 ++ put_uint32 7 ++ put_uint32 0
  ++ list_byte_of_string "a" ++ [x00].

(** An archive of 28 bytes that records a file size of [2^63] and holds
    an empty index at offset 24. *)
Definition huge_file_size_input : list byte :=
  list_byte_of_string "MAR1" ++ put_uint32 24
  ++ put_uint64 (2 ^ 63) ++ put_uint32 0
  ++ put_uint32 0
  ++ put_uint32 0.

(** An archive of 28 bytes that announces one (empty) signature and ends
    before the additional sections header. *)
Definition cut_after_signature_input : list byte :=
  list_byte_of_string "MAR1" ++ put_uint32 24
  ++ put_uint64 28 ++ put_uint32 1
  ++ put_uint32 0 ++ put_uint32 0.

(** ** The layout of the signature entries *)

(** The data size declared by the signature entry whose header starts at
    position [p]. *)
Definition sig_size_at (input : list byte) (p : Z) : Z :=
  signatureEntryHeader.Size
    (read_signatureEntryHeader (slice input p (p + SignatureEntryHeaderLen))).

(** The position of the header of the [k]-th signature entry after the
    one at [c], each entry being its 8-byte header and the data bytes it
    declares. *)
Fixpoint sig_entry_pos (input : list byte) (c : Z) (k : nat) : Z :=
  match k with
  | O => c
  | S k' =>
      sig_entry_pos input
        (c + SignatureEntryHeaderLen + sig_size_at input c) k'
  end.

(** Where the first signature entry starts: after the MAR ID, the offset
    to the index and the signatures header. *)
Definition first_sig_pos : Z :=
  MarIDLen + OffsetToIndexLen + SignaturesHeaderLen.

(** The number of signatures the input announces. *)
Definition num_signatures_of (input : list byte) : Z :=
  SignaturesHeader.NumSignatures (read_SignaturesHeader (slice input 8 20)).

(** An archive that announces two signatures: the first, of 2 bytes, is
    complete; the second declares 16 bytes of data and the buffer ends
    after 4 of them. *)
Definition cut_in_signature_data_input : list byte :=
  list_byte_of_string "MAR1" ++ put_uint32 64
  ++ put_uint64 64 ++ put_uint32 2
  ++ put_uint32 1 ++ put_uint32 2 ++ list_byte_of_string "ab"
  ++ put_uint32 2 ++ put_uint32 16 ++ list_byte_of_string "cdef".

(** ** Index entries and their content *)

(** The content of an index entry lies inside the buffer. *)
Definition content_in_range (input : list byte) (e : IndexEntry.t) : bool :=
  (0 <=? IndexEntry.OffsetToContent e)
  && (0 <=? IndexEntry.Size e)
  && (IndexEntry.OffsetToContent e + IndexEntry.Size e <=? len input)
  && (IndexEntry.OffsetToContent e + IndexEntry.Size e <? 2 ^ 32).

(** The content entry [load_entry] makes of an index entry: the bytes
    from its content offset to its content offset plus size, on 32 bits,
    of [input], which stands for the buffer or for its backing array. *)
Definition entry_of (input : list byte) (e : IndexEntry.t) : Entry.t :=
  let Data := slice input (IndexEntry.OffsetToContent e)
                (wrap32 (IndexEntry.OffsetToContent e + IndexEntry.Size e)) in
  Entry.mk Data (is_xz Data).

(** The first entry of an index that has the name [n]. *)
Fixpoint first_named (index : list IndexEntry.t) (n : string)
  : option IndexEntry.t :=
  match index with
  | [] => None
  | e :: index' =>
      if decide (IndexEntry.FileName e = n) then Some e
      else first_named index' n
  end.

(** Two index entries, ["a"] over the bytes ["ab"] and ["a"] again over
    the bytes ["cd"]. *)
Definition duplicate_name_input : list byte :=
  list_byte_of_string "MAR1" ++ put_uint32 28
  ++ put_uint64 60 ++ put_uint32 0
  ++ put_uint32 0
  ++ list_byte_of_string "abcd"
  ++ put_uint32 28
  ++ put_uint32 24 ++ put_uint32 2 ++ put_uint32 0
  ++ list_byte_of_string "a" ++ [x00]
  ++ put_uint32 26 ++ put_uint32 2 ++ put_uint32 0
  ++ list_byte_of_string "a" ++ [x00].

(** The same archive with the second ["a"] at content offset 100 and of
    content size [0xFFFFFFFF]: on 32 bits, offset plus size is 99. *)
Definition duplicate_name_out_of_range_input : list byte :=
  list_byte_of_string "MAR1" ++ put_uint32 28
  ++ put_uint64 60 ++ put_uint32 0
  ++ put_uint32 0
  ++ list_byte_of_string "abcd"
  ++ put_uint32 28
  ++ put_uint32 24 ++ put_uint32 2 ++ put_uint32 0
  ++ list_byte_of_string "a" ++ [x00]
  ++ put_uint32 100 ++ put_uint32 4294967295 ++ put_uint32 0
  ++ list_byte_of_string "a" ++ [x00].

(** ** Comparing two runs of [Unmarshal] *)

(** Two [File]s that differ at most in the MAR ID, in the index header
    and in the bytes and flags of their content entries. *)
Definition same_shape (f1 f2 : File.t) : Prop :=
  File.OffsetToIndex f1 = File.OffsetToIndex f2
  /\ File.ProductInformation f1 = File.ProductInformation f2
  /\ File.SignaturesHeader f1 = File.SignaturesHeader f2
  /\ File.Signatures f1 = File.Signatures f2
  /\ File.AdditionalSectionsHeader f1 = File.AdditionalSectionsHeader f2
  /\ File.AdditionalSections f1 = File.AdditionalSections f2
  /\ File.Index f1 = File.Index f2
  /\ dom (File.Content f1) = dom (File.Content f2).

(** Two runs end alike: in [File]s of the same shape, and with related
    values, the same error or the same panic. *)
Definition ends_alike {E A} (R : A -> A -> Prop)
  (x y : (A + Abort E) * File.t) : Prop :=
  same_shape (snd x) (snd y)
  /\ match fst x, fst y with
     | inl a, inl b => R a b
     | inr u, inr v => u = v
     | _, _ => False
     end.

(** ** Archives of more than 4 GiB *)

(** The first 32 bytes of an archive with one additional section whose
    block size field is 0. *)
Definition zero_block_size_head : list byte :=
  list_byte_of_string "MAR1" ++ put_uint32 32       (* offset to index *)
  ++ put_uint64 0 ++ put_uint32 0                   (* file size, signatures *)
  ++ put_uint32 1                                   (* additional sections *)
  ++ put_uint32 0 ++ put_uint32 0.                  (* block size, block id *)

(** That archive, followed by [2^32 - 8] zero bytes. *)
Definition zero_block_size_input : list byte :=
  zero_block_size_head ++ replicate (Z.to_nat (2 ^ 32 - 8)) x00.

(** The sum of the data sizes of the signatures, as a number. *)
Definition sum_sizes (sigs : list Signature.t) : Z :=
  fold_right (fun sig acc => Signature.Size sig + acc) 0 sigs.

(** The first 28 bytes of an archive with two signatures, the first of
    [2^32 - 1] data bytes; the recorded file size is 40 and the index is
    at offset 36. *)
Definition two_signatures_head : list byte :=
  list_byte_of_string "MAR1" ++ put_uint32 36       (* offset to index *)
  ++ put_uint64 40 ++ put_uint32 2                  (* file size, signatures *)
  ++ put_uint32 1 ++ put_uint32 4294967295.         (* algorithm, size *)

(** What follows the data of the first signature: the second signature,
    of one data byte, and the additional sections header. *)
Definition two_signatures_tail : list byte :=
  put_uint32 1 ++ put_uint32 1 ++ [x00]             (* algorithm, size, data *)
  ++ put_uint32 0.                                  (* additional sections *)

(** That archive, the data of the first signature being zero bytes; the
    index header at offset 36 lies inside them, followed by no entry. *)
Definition two_signatures_input : list byte :=
  two_signatures_head ++ replicate (Z.to_nat (2 ^ 32 - 1)) x00
  ++ two_signatures_tail.

(** The [File] that archive decodes to, for any data [t] of the first
    signature. *)
Definition two_signatures_file (t : list byte) : File.t :=
  File.mk "MAR1" 36 "" (SignaturesHeader.mk 40 2)
    [Signature.mk 1 4294967295 "RSA-PKCS1-SHA1" t;
     Signature.mk 1 1 "RSA-PKCS1-SHA1" [x00]]
    (AdditionalSectionsHeader.mk 0) [] (IndexHeader.mk 0) [] ∅.

(** * Definitions for further properties of the codec *)

(** ** What a decoded archive says about the bytes it was read from *)

(** A signature as it lies in the file: its 8-byte header, then its
    data. *)
Definition signature_bytes (sig : Signature.t) : list byte :=
  marshal_signature sig ++ Signature.Data sig.

(** The bytes [MarshalForSignature] stages for the index: the index
    header, then every index entry with its zero-terminated name. *)
Definition index_bytes (file : File.t) : list byte :=
  put_uint32 (IndexHeader.Size (File.IndexHeader file))
  ++ concat (map marshal_index_entry (File.Index file)).

(** A signature as the signature loop of [Unmarshal] builds it. *)
Definition signature_parsed (sig : Signature.t) : Prop :=
  0 <= Signature.AlgorithmID sig < 2 ^ 32
  /\ 0 <= Signature.Size sig < 2 ^ 32
  /\ len (Signature.Data sig) = Signature.Size sig
  /\ Signature.Algorithm sig = algorithm_name (Signature.AlgorithmID sig).

(** An additional section as the sections loop of [Unmarshal] builds
    it. *)
Definition section_parsed (as_ : AdditionalSection.t) : Prop :=
  0 <= AdditionalSection.BlockSize as_ < 2 ^ 32
  /\ 0 <= AdditionalSection.BlockID as_ < 2 ^ 32
  /\ len (AdditionalSection.Data as_)
     = wrap32 (AdditionalSection.BlockSize as_
               - AdditionalSectionsEntryHeaderLen).

(** An index entry as the index loop of [Unmarshal] builds it. *)
Definition index_entry_parsed (e : IndexEntry.t) : Prop :=
  0 <= IndexEntry.OffsetToContent e < 2 ^ 32
  /\ 0 <= IndexEntry.Size e < 2 ^ 32
  /\ 0 <= IndexEntry.Flags e < 2 ^ 32
  /\ x00 ∉ list_byte_of_string (IndexEntry.FileName e).

(** The product information string a block of data gives. *)
Definition product_information_of (Data : list byte) : string :=
  string_of_list_byte (strings_Replace_nul_space (strings_Trim_nul Data)).

(** The product information after a run of additional sections: that of
    the last section with the product information block id, or the one
    there was before. *)
Definition last_product_information (secs : list AdditionalSection.t)
  (before : string) : string :=
  fold_left
    (fun pi as_ =>
       if AdditionalSection.BlockID as_ =? BlockIDProductInfo
       then product_information_of (AdditionalSection.Data as_)
       else pi)
    secs before.

(** Two buffers agree wherever the first is not zero. *)
Definition zero_or_same (out input : list byte) : Prop :=
  forall (i : nat) (b : byte),
    out !! i = Some b -> b = x00 \/ input !! i = Some b.

(** What a normal end of the part of [Unmarshal] before the content loop
    says about the [File] [f'] it leaves, the [File] [f] it started from
    and the buffer: the header fields are read from the first 20 bytes;
    the signatures, the additional sections and the index entries
    appended are the ones the headers announce and the buffer holds, at
    the positions [20 .. c1], [c1 + 4 .. c2] and
    [OffsetToIndex + 4 .. c3]. *)
Definition structure_parsed (input : list byte) (f f' : File.t)
  (sigs : list Signature.t) (secs : list AdditionalSection.t)
  (entries : list IndexEntry.t) (c1 c2 c3 : Z) : Prop :=
  28 <= len input
  /\ head_of f' = head_from input
  /\ (File.Signatures f' = File.Signatures f ++ sigs
      /\ Z.of_nat (length sigs)
         = SignaturesHeader.NumSignatures (File.SignaturesHeader f')
      /\ Forall signature_parsed sigs
      /\ 20 <= c1
      /\ slice input 20 c1 = concat (map signature_bytes sigs))
  /\ (c1 + 4 <= len input
      /\ File.AdditionalSectionsHeader f'
         = read_AdditionalSectionsHeader (slice input c1 (c1 + 4))
      /\ File.AdditionalSections f' = File.AdditionalSections f ++ secs
      /\ Z.of_nat (length secs)
         = AdditionalSectionsHeader.NumAdditionalSections
             (File.AdditionalSectionsHeader f')
      /\ Forall section_parsed secs
      /\ c1 + 4 <= c2 <= len input
      /\ slice input (c1 + 4) c2 = concat (map marshal_section secs)
      /\ File.ProductInformation f'
         = last_product_information secs (File.ProductInformation f))
  /\ (File.OffsetToIndex f' + 4 <= len input
      /\ File.IndexHeader f'
         = read_IndexHeader
             (slice input (File.OffsetToIndex f')
                (File.OffsetToIndex f' + 4))
      /\ File.Index f' = File.Index f ++ entries
      /\ Forall index_entry_parsed entries
      /\ File.OffsetToIndex f' + 4 <= c3 <= len input
      /\ int_of_uint64
           (SignaturesHeader.FileSize (File.SignaturesHeader f')) <= c3
      /\ slice input (File.OffsetToIndex f' + 4) c3
         = concat (map marshal_index_entry entries)).

(** ** More concrete archives *)

(** An archive of 90 bytes: one signature of 3 bytes, one product
    information section of 5 data bytes, the files ["f1"] (5 bytes at
    48) and ["f2"] (3 bytes at 53), and the index at 56. *)
Definition sample_input : list byte :=
  list_byte_of_string "MAR1" ++ put_uint32 56       (* offset to index *)
  ++ put_uint64 90 ++ put_uint32 1                  (* file size, signatures *)
  ++ put_uint32 2 ++ put_uint32 3 ++ list_byte_of_string "sig"
  ++ put_uint32 1                                   (* additional sections *)
  ++ put_uint32 13 ++ put_uint32 1                  (* block size, block id *)
  ++ [x00] ++ list_byte_of_string "a" ++ [x00]
  ++ list_byte_of_string "b" ++ [x00]
  ++ list_byte_of_string "hello" ++ list_byte_of_string "wor"
  ++ put_uint32 30                                  (* index size *)
  ++ put_uint32 48 ++ put_uint32 5 ++ put_uint32 420
  ++ list_byte_of_string "f1" ++ [x00]
  ++ put_uint32 53 ++ put_uint32 3 ++ put_uint32 384
  ++ list_byte_of_string "f2" ++ [x00].

(** The same archive without the signature: 79 bytes, the files at 37
    and 42, the index at 45. *)
Definition unsigned_sample_input : list byte :=
  list_byte_of_string "MAR1" ++ put_uint32 45
  ++ put_uint64 79 ++ put_uint32 0
  ++ put_uint32 1
  ++ put_uint32 13 ++ put_uint32 1
  ++ [x00] ++ list_byte_of_string "a" ++ [x00]
  ++ list_byte_of_string "b" ++ [x00]
  ++ list_byte_of_string "hello" ++ list_byte_of_string "wor"
  ++ put_uint32 30
  ++ put_uint32 37 ++ put_uint32 5 ++ put_uint32 420
  ++ list_byte_of_string "f1" ++ [x00]
  ++ put_uint32 42 ++ put_uint32 3 ++ put_uint32 384
  ++ list_byte_of_string "f2" ++ [x00].

(** The bytes of an archive before its content: the MAR ID, the offset
    to the index, the signatures header, the signatures with their data,
    the additional sections header and the additional sections.
    [marshal_head] stages the same bytes without the data of the
    signatures. *)
Definition head_bytes (file : File.t) : list byte :=
  list_byte_of_string (File.MarID file)
  ++ put_uint32 (File.OffsetToIndex file)
  ++ (put_uint64 (SignaturesHeader.FileSize (File.SignaturesHeader file))
      ++ put_uint32 (SignaturesHeader.NumSignatures
                       (File.SignaturesHeader file)))
  ++ concat (map signature_bytes (File.Signatures file))
  ++ put_uint32 (AdditionalSectionsHeader.NumAdditionalSections
                   (File.AdditionalSectionsHeader file))
  ++ concat (map marshal_section (File.AdditionalSections file)).

(** An archive of 42 bytes whose only index entry has the name ["ab"]
    without the zero byte behind it. *)
Definition unterminated_name_input : list byte :=
  list_byte_of_string "MAR1" ++ put_uint32 24
  ++ put_uint64 42 ++ put_uint32 0
  ++ put_uint32 0
  ++ put_uint32 14
  ++ put_uint32 0 ++ put_uint32 0 ++ put_uint32 420
  ++ list_byte_of_string "ab".

(** An archive of 28 bytes whose offset to the index, 100, lies beyond
    the buffer. *)
Definition index_beyond_input : list byte :=
  list_byte_of_string "MAR1" ++ put_uint32 100
  ++ put_uint64 28 ++ put_uint32 0
  ++ put_uint32 0
  ++ put_uint32 0 ++ put_uint32 0.

(** An archive of 39 bytes with one signature of 3 bytes that records the
    file size 0. *)
Definition zero_file_size_input : list byte :=
  list_byte_of_string "MAR1" ++ put_uint32 35
  ++ put_uint64 0 ++ put_uint32 1
  ++ put_uint32 2 ++ put_uint32 3 ++ list_byte_of_string "sig"
  ++ put_uint32 0
  ++ put_uint32 0.

(** * Reasoning principles *)

(** ** Slices and lengths *)

Lemma len_nonneg {A} (s : list A) : 0 <= len s.
Proof. unfold len. lia. Qed.

Lemma len_app {A} (s t : list A) : len (s ++ t) = len s + len t.
Proof. unfold len. rewrite length_app. lia. Qed.

Lemma len_slice {A} (s : list A) (lo hi : Z) :
  0 <= lo -> lo <= hi -> hi <= len s -> len (slice s lo hi) = hi - lo.
Proof.
  unfold len, slice. intros Hlo Hle Hhi.
  rewrite length_take, length_drop. lia.
Qed.

Lemma slice_app_l {A} (s t : list A) (lo hi : Z) :
  0 <= lo -> hi <= len s -> slice (s ++ t) lo hi = slice s lo hi.
Proof.
  unfold len, slice. intros Hlo Hhi.
  destruct (Z_le_gt_dec hi lo) as [Hle | Hgt].
  - replace (Z.to_nat (hi - lo)) with O by lia. reflexivity.
  - rewrite drop_app_le by lia. rewrite take_app_le; [reflexivity |].
    rewrite length_drop. lia.
Qed.

Lemma slice_app_r {A} (s t : list A) (lo hi : Z) :
  len s <= lo -> slice (s ++ t) lo hi = slice t (lo - len s) (hi - len s).
Proof.
  unfold len, slice. intros Hlo.
  rewrite drop_app_ge by lia.
  f_equal; [lia |]. f_equal. lia.
Qed.

Lemma slice_all {A} (s : list A) (hi : Z) :
  hi = len s -> slice s 0 hi = s.
Proof.
  unfold len, slice. intros ->. rewrite drop_0. apply take_ge. lia.
Qed.

(** A slice expression within the capacity gives the elements of the
    backing array; one within the length does not reach the spare
    elements. *)
Lemma slice_checked_cap {A} (s spare : list A) (lo hi : Z) :
  0 <= lo -> lo <= hi -> hi <= len s + len spare ->
  slice_checked s spare lo hi = Some (slice (s ++ spare) lo hi).
Proof.
  intros Hlo Hle Hhi. unfold slice_checked.
  destruct (Z.leb_spec hi (len s + len spare)); [| lia].
  destruct (Z.leb_spec lo hi); [| lia].
  destruct (Z.leb_spec 0 lo); [| lia]. reflexivity.
Qed.

Lemma slice_checked_Some {A} (s spare : list A) (lo hi : Z) :
  0 <= lo -> lo <= hi -> hi <= len s ->
  slice_checked s spare lo hi = Some (slice s lo hi).
Proof.
  intros Hlo Hle Hhi. pose proof (len_nonneg spare).
  rewrite slice_checked_cap by lia. rewrite slice_app_l by lia.
  reflexivity.
Qed.

Lemma slice_checked_None {A} (s spare : list A) (lo hi : Z) :
  len s + len spare < hi \/ hi < lo \/ lo < 0 ->
  slice_checked s spare lo hi = None.
Proof.
  intros H. unfold slice_checked.
  destruct (Z.leb_spec hi (len s + len spare)); [| reflexivity].
  destruct (Z.leb_spec lo hi); [| reflexivity].
  destruct (Z.leb_spec 0 lo); [lia | reflexivity].
Qed.

Lemma slice_checked_inv {A} (s spare bs : list A) (lo hi : Z) :
  slice_checked s spare lo hi = Some bs ->
  0 <= lo /\ lo <= hi /\ hi <= len s + len spare
  /\ bs = slice (s ++ spare) lo hi.
Proof.
  unfold slice_checked.
  destruct (Z.leb_spec hi (len s + len spare)); [| discriminate].
  destruct (Z.leb_spec lo hi); [| discriminate].
  destruct (Z.leb_spec 0 lo); [| discriminate].
  cbn [andb]. intros [= <-]. auto.
Qed.

(** ** Big-endian integers are in range *)

Lemma byte_to_Z_range (b : byte) : 0 <= byte_to_Z b < 256.
Proof.
  unfold byte_to_Z. pose proof (Byte.to_N_bounded b). lia.
Qed.

Lemma be_uint_fold_range (bs : list byte) (acc : Z) :
  0 <= acc ->
  0 <= fold_left (fun a b => a * 256 + byte_to_Z b) bs acc
    < (acc + 1) * 256 ^ len bs.
Proof.
  revert acc. induction bs as [| b bs IH]; intros acc Hacc.
  - unfold len. cbn. lia.
  - cbn [fold_left]. pose proof (byte_to_Z_range b) as Hb.
    specialize (IH (acc * 256 + byte_to_Z b) ltac:(lia)).
    replace (len (b :: bs)) with (1 + len bs) by (unfold len; cbn; lia).
    rewrite Z.pow_add_r by (pose proof (len_nonneg bs); lia).
    change (256 ^ 1) with 256.
    pose proof (Z.pow_pos_nonneg 256 (len bs) ltac:(lia) (len_nonneg bs)).
    split; [lia |]. eapply Z.lt_le_trans; [apply IH |]. nia.
Qed.

Lemma be_uint_range (bs : list byte) : 0 <= be_uint bs < 256 ^ len bs.
Proof.
  unfold be_uint. pose proof (be_uint_fold_range bs 0 ltac:(lia)). lia.
Qed.

Lemma len_slice_le {A} (s : list A) (lo hi : Z) :
  lo <= hi -> len (slice s lo hi) <= hi - lo.
Proof.
  unfold len, slice. intros Hle. rewrite length_take. lia.
Qed.

Lemma be_uint_slice_range (bs : list byte) (lo hi : Z) :
  lo <= hi -> 0 <= be_uint (slice bs lo hi) < 256 ^ (hi - lo).
Proof.
  intros Hle. pose proof (be_uint_range (slice bs lo hi)) as H.
  pose proof (len_slice_le bs lo hi Hle).
  pose proof (len_nonneg (slice bs lo hi)).
  split; [lia |]. eapply Z.lt_le_trans; [apply H |].
  apply Z.pow_le_mono_r; lia.
Qed.

(** ** Rules of the weakest precondition *)

Lemma wp_ret {E A} (a : A) (Q : A + Abort E -> File.t -> Prop) f :
  Q (inl a) f -> wp (mret a) Q f.
Proof. exact (fun H => H). Qed.

Lemma wp_abort {E A} (x : Abort E) (Q : A + Abort E -> File.t -> Prop) f :
  Q (inr x) f -> wp (abort x) Q f.
Proof. exact (fun H => H). Qed.

Lemma wp_get {E} (Q : File.t + Abort E -> File.t -> Prop) f :
  Q (inl f) f -> wp get Q f.
Proof. exact (fun H => H). Qed.

Lemma wp_modify {E} (g : File.t -> File.t)
  (Q : unit + Abort E -> File.t -> Prop) f :
  Q (inl tt) (g f) -> wp (modify g) Q f.
Proof. exact (fun H => H). Qed.

Lemma wp_bind {E A B} (m : M E A) (k : A -> M E B)
  (Q : B + Abort E -> File.t -> Prop) f :
  wp m (fun r f' => match r with
                    | inl a => wp (k a) Q f'
                    | inr x => Q (inr x) f'
                    end) f ->
  wp (m ≫= k) Q f.
Proof.
  unfold wp, mbind, M_bind, bind.
  destruct (m f) as [[a | x] f']; cbn; exact (fun H => H).
Qed.

Lemma wp_mono {E A} (m : M E A) (Q Q' : A + Abort E -> File.t -> Prop) f :
  wp m Q f -> (forall r f', Q r f' -> Q' r f') -> wp m Q' f.
Proof. unfold wp. intros H HQ. apply HQ, H. Qed.

Lemma wp_parse_at (input : list byte) (cursor readLen : Z)
  (Q : list byte + Abort DecodeError -> File.t -> Prop) f :
  (len input < cursor + readLen ->
   Q (inr (Error (ErrParsingFailed cursor RefusingToRead))) f) ->
  (cursor + readLen <= len input ->
   Q (inl (slice input cursor (cursor + readLen))) f) ->
  wp (parse_at input cursor readLen) Q f.
Proof.
  intros Hfail Hok. unfold wp, parse_at, parse.
  destruct (Z.ltb_spec (len input) (cursor + readLen)); cbn; auto.
Qed.

Lemma wp_go_slice {E} (s spare : list byte) (lo hi : Z)
  (Q : list byte + Abort E -> File.t -> Prop) f :
  (slice_checked s spare lo hi = None ->
   Q (inr (Panic SliceBoundsOutOfRange)) f) ->
  (slice_checked s spare lo hi = Some (slice (s ++ spare) lo hi) ->
   Q (inl (slice (s ++ spare) lo hi)) f) ->
  wp (go_slice s spare lo hi) Q f.
Proof.
  intros Hp Hok. unfold wp, go_slice.
  destruct (slice_checked s spare lo hi) as [bs |] eqn:Hs; cbn; auto.
  assert (bs = slice (s ++ spare) lo hi) as ->
    by apply (slice_checked_inv _ _ _ _ _ Hs).
  auto.
Qed.

(** The same for a slice expression that stays within the length. *)
Lemma wp_go_slice_len {E} (s spare : list byte) (lo hi : Z)
  (Q : list byte + Abort E -> File.t -> Prop) f :
  0 <= lo -> lo <= hi -> hi <= len s ->
  Q (inl (slice s lo hi)) f ->
  wp (go_slice s spare lo hi) Q f.
Proof.
  intros Hlo Hle Hhi HQ. unfold wp, go_slice.
  rewrite slice_checked_Some by lia. exact HQ.
Qed.

(** One step of symbolic execution. *)
Ltac wp_step :=
  lazymatch goal with
  | |- wp (_ ≫= _) _ _ => apply wp_bind
  | |- wp (mret _) _ _ => apply wp_ret
  | |- wp (ret _) _ _ => apply wp_ret
  | |- wp (abort _) _ _ => apply wp_abort
  | |- wp get _ _ => apply wp_get
  | |- wp (modify _) _ _ => apply wp_modify
  | |- wp (parse_at _ _ _) _ _ => apply wp_parse_at; intros ?
  | |- wp (go_slice _ _ _ _) _ _ => apply wp_go_slice; intros ?
  | |- wp (if ?c then _ else _) _ _ => destruct c eqn:?
  end.

Lemma wp_eq {E A} (m : M E A) (f : File.t) (v : (A + Abort E) * File.t) :
  wp m (fun r f' => (r, f') = v) f -> m f = v.
Proof. unfold wp. destruct (m f). exact (fun H => H). Qed.

Lemma wp_make_bytes {E} (n : Z) (Q : list byte + Abort E -> File.t -> Prop)
  f :
  (n < 0 \/ MaxInt < n -> Q (inr (Panic MakeSliceLenOutOfRange)) f) ->
  (0 <= n <= MaxInt -> Q (inl (replicate (Z.to_nat n) x00)) f) ->
  wp (make_bytes n) Q f.
Proof.
  intros Hp Hok. unfold wp, make_bytes.
  destruct (Z.ltb_spec n 0); cbn; [apply Hp; lia |].
  destruct (Z.ltb_spec MaxInt n); cbn; [apply Hp; lia | apply Hok; lia].
Qed.

Lemma wp_go_copy {E} (dst : list byte) (lo hi : Z) (src : list byte)
  (Q : list byte + Abort E -> File.t -> Prop) f :
  (copy_into dst lo hi src = None ->
   Q (inr (Panic SliceBoundsOutOfRange)) f) ->
  (forall dst', copy_into dst lo hi src = Some dst' -> Q (inl dst') f) ->
  wp (go_copy dst lo hi src) Q f.
Proof.
  intros Hp Hok. unfold wp, go_copy.
  destruct (copy_into dst lo hi src) as [dst' |]; cbn; auto.
Qed.

(** ** Symbolic runs *)

(** Tools to run the decoder on buffers with a long, unknown part. *)

Lemma parse_signatures_unfold (fuel : nat) (input : list byte) (i c : Z) :
  (0 < fuel)%nat ->
  parse_signatures fuel input i c
  = parse_signatures (S (Nat.pred fuel)) input i c.
Proof. intros H. replace (S (Nat.pred fuel)) with fuel by lia. reflexivity. Qed.

Lemma parse_sections_unfold (fuel : nat) (input : list byte) (i c : Z) :
  (0 < fuel)%nat ->
  parse_sections fuel input i c
  = parse_sections (S (Nat.pred fuel)) input i c.
Proof. intros H. replace (S (Nat.pred fuel)) with fuel by lia. reflexivity. Qed.

Lemma parse_index_unfold (fuel : nat) (input spare : list byte) (c : Z) :
  (0 < fuel)%nat ->
  parse_index fuel input spare c
  = parse_index (S (Nat.pred fuel)) input spare c.
Proof. intros H. replace (S (Nat.pred fuel)) with fuel by lia. reflexivity. Qed.

(** Projections and assignments of [File] fields, and nothing else. *)
Ltac file_norm :=
  cbn [File.set_MarID File.set_OffsetToIndex File.set_ProductInformation
       File.set_SignaturesHeader File.set_Signatures
       File.set_AdditionalSectionsHeader File.set_AdditionalSections
       File.set_IndexHeader File.set_Index File.set_Content
       File.MarID File.OffsetToIndex File.ProductInformation
       File.SignaturesHeader File.Signatures File.AdditionalSectionsHeader
       File.AdditionalSections File.IndexHeader File.Index File.Content].

(** Replaces [t] by its value. *)
Ltac eval_term t := let v := eval vm_compute in t in change t with v.

(** Evaluates the reads from the known prefix [head] of the buffer. *)
Ltac eval_reads head :=
  repeat match goal with
    | |- context [slice head ?lo ?hi] => eval_term (slice head lo hi)
    end;
  repeat match goal with
    | |- context [read_uint32 ?bs] =>
        lazymatch bs with _ :: _ => eval_term (read_uint32 bs) end
    | |- context [read_SignaturesHeader ?bs] =>
        lazymatch bs with _ :: _ => eval_term (read_SignaturesHeader bs) end
    | |- context [read_signatureEntryHeader ?bs] =>
        lazymatch bs with _ :: _ =>
          eval_term (read_signatureEntryHeader bs) end
    | |- context [read_AdditionalSectionsHeader ?bs] =>
        lazymatch bs with _ :: _ =>
          eval_term (read_AdditionalSectionsHeader bs) end
    | |- context [read_additionalSectionEntryHeader ?bs] =>
        lazymatch bs with _ :: _ =>
          eval_term (read_additionalSectionEntryHeader bs) end
    | |- context [string_of_list_byte ?bs] =>
        lazymatch bs with _ :: _ => eval_term (string_of_list_byte bs) end
    end.

(** ** The loops of [Unmarshal] keep the header fields, never run out of
    fuel and never panic *)

Lemma parse_signatures_spec (input : list byte) (fuel : nat) :
  forall i c f,
    (1 <= fuel)%nat -> len input - c < Z.of_nat fuel -> 0 <= c ->
    wp (parse_signatures fuel input i c)
       (fun r f' => head_of f' = head_of f /\ checked_outcome r
                    /\ match r with inl c' => c <= c' | inr _ => True end) f.
Proof.
  induction fuel as [| fuel IH]; intros i c f Hfuel Hlen Hc; [lia |].
  cbn [parse_signatures].
  wp_step. wp_step. wp_step; [| wp_step; cbn; auto with lia].
  wp_step. wp_step; [cbn; auto |].
  wp_step. wp_step; [cbn; auto |].
  wp_step. wp_step.
  pose proof (be_uint_slice_range
                (slice input c (c + SignatureEntryHeaderLen)) 4 8 ltac:(lia)).
  unfold SignatureEntryHeaderLen, int_of_uint32 in *. cbn [read_signatureEntryHeader signatureEntryHeader.Size] in *.
  eapply wp_mono; [apply IH; try lia |].
  intros r f' (Hh & Hr & Hc'). split; [exact Hh |]. split; [exact Hr |].
  destruct r; [lia | exact I].
Qed.

Lemma store_block_spec (BlockID : Z) (Data : list byte)
  (Q : unit + Abort DecodeError -> File.t -> Prop) f :
  (forall f', head_of f' = head_of f
              /\ File.Signatures f' = File.Signatures f
              /\ File.AdditionalSectionsHeader f' = File.AdditionalSectionsHeader f
              /\ File.AdditionalSections f' = File.AdditionalSections f
              /\ File.IndexHeader f' = File.IndexHeader f
              /\ File.Index f' = File.Index f
              /\ File.Content f' = File.Content f
              -> Q (inl tt) f') ->
  wp (store_block BlockID Data) Q f.
Proof.
  intros HQ. unfold store_block.
  destruct (BlockID =? BlockIDProductInfo); wp_step; apply HQ; cbn; auto 10.
Qed.

Lemma parse_sections_spec (input : list byte) (fuel : nat) :
  forall i c f,
    (1 <= fuel)%nat -> len input - c < Z.of_nat fuel -> 0 <= c ->
    wp (parse_sections fuel input i c)
       (fun r f' => head_of f' = head_of f /\ checked_outcome r
                    /\ match r with inl c' => c <= c' | inr _ => True end) f.
Proof.
  induction fuel as [| fuel IH]; intros i c f Hfuel Hlen Hc; [lia |].
  cbn [parse_sections].
  wp_step. wp_step. wp_step; [| wp_step; cbn; auto with lia].
  wp_step. wp_step; [cbn; auto |].
  wp_step. wp_step; [cbn; auto |].
  wp_step. apply store_block_spec. intros f' (Hh & _).
  wp_step. wp_step.
  pose proof (Z.mod_pos_bound
    (additionalSectionEntryHeader.BlockSize
       (read_additionalSectionEntryHeader
          (slice input c (c + AdditionalSectionsEntryHeaderLen)))
     - AdditionalSectionsEntryHeaderLen) (2 ^ 32) ltac:(lia)) as Hw.
  unfold AdditionalSectionsEntryHeaderLen, int_of_uint32, wrap32 in *.
  eapply wp_mono; [apply IH; try lia |].
  intros r f'' (Hh' & Hr & Hc'). split; [| split; [exact Hr |]].
  - rewrite Hh'. exact Hh.
  - destruct r; [lia | exact I].
Qed.

Lemma bytes_Index_range (s : list byte) (b : byte) :
  bytes_Index s b = -1 \/ 0 <= bytes_Index s b < len s.
Proof.
  induction s as [| c s IH]; [left; reflexivity |].
  cbn [bytes_Index]. replace (len (c :: s)) with (1 + len s)
    by (unfold len; cbn; lia).
  pose proof (len_nonneg s).
  destruct (decide (c = b)); [right; lia |].
  destruct (Z.ltb_spec (bytes_Index s b) 0); [left; reflexivity |].
  right. lia.
Qed.

Lemma parse_index_spec (input spare : list byte) (fuel : nat) :
  forall c f,
    (1 <= fuel)%nat -> len input - c < Z.of_nat fuel -> 0 <= c ->
    wp (parse_index fuel input spare c)
       (fun r f' => head_of f' = head_of f /\ checked_outcome r) f.
Proof.
  induction fuel as [| fuel IH]; intros c f Hfuel Hlen Hc; [lia |].
  cbn [parse_index].
  wp_step. wp_step. wp_step; [wp_step; cbn; auto |].
  wp_step. wp_step; [cbn; auto |].
  unfold IndexEntryHeaderLen in *.
  wp_step. apply wp_go_slice_len; [lia | lia | lia |].
  assert (len (slice input (c + 12) (len input)) = len input - (c + 12))
    as Hlen_rest by (apply len_slice; lia).
  pose proof (bytes_Index_range (slice input (c + 12) (len input)) x00)
    as Hidx.
  destruct (Z.ltb_spec (bytes_Index (slice input (c + 12) (len input)) x00) 0)
    as [Hneg | Hpos]; [wp_step; cbn; auto |].
  wp_step. apply wp_go_slice_len; [lia | lia | lia |].
  wp_step. wp_step.
  eapply wp_mono; [apply IH; try lia |].
  intros r f' (Hh & Hr). split; [exact Hh | exact Hr].
Qed.

(** What the part of [Unmarshal] before the content loop can do: refuse a
    short input and leave the [File] alone, or fill the header fields and
    then end with a value or with one of the errors of [parse] and of the
    name scan. *)
Lemma parse_structure_spec (input spare : list byte) (f : File.t) :
  wp (parse_structure input spare)
     (fun r f' =>
        (r = inr (Error ErrTooSmall) /\ f' = f /\ len input < 28)
        \/ (checked_outcome r /\ head_of f' = head_from input
            /\ 28 <= len input)) f.
Proof.
  unfold parse_structure, MarIDLen, OffsetToIndexLen, SignaturesHeaderLen,
    AdditionalSectionsHeaderLen, IndexHeaderLen.
  change (4 + 4 + 12 + 4 + 4) with 28.
  destruct (Z.ltb_spec (len input) 28) as [Hshort | Hlong].
  { wp_step. left. auto. }
  wp_step. wp_step; [lia |]. wp_step. wp_step.
  wp_step. wp_step; [lia |]. wp_step. wp_step.
  wp_step. wp_step; [lia |]. wp_step. wp_step.
  wp_step.
  eapply wp_mono;
    [apply parse_signatures_spec; [lia | unfold len; lia | lia] |].
  cbn beta. intros r1 f1 (Hh1 & Hr1 & Hc1).
  assert (head_of f1 = head_from input) as Hhead1 by exact Hh1.
  clear Hh1. destruct r1 as [c1 | x]; [| right; auto with lia].
  wp_step. wp_step; [right; auto with lia |].
  wp_step. wp_step. wp_step.
  eapply wp_mono;
    [apply parse_sections_spec; [lia | unfold len; lia | lia] |].
  cbn beta. intros r2 f2 (Hh2 & Hr2 & Hc2).
  assert (head_of f2 = head_from input) as Hhead
    by (rewrite Hh2; exact Hhead1).
  clear Hh2. destruct r2 as [c2 | x]; [| right; auto with lia].
  assert (0 <= File.OffsetToIndex f2) as Hoff.
  { unfold head_of, head_from in Hhead. injection Hhead as _ -> _.
    apply (be_uint_slice_range (slice input 4 8) 0 4). lia. }
  wp_step. wp_step. unfold int_of_uint32.
  wp_step. wp_step; [right; cbn; auto with lia |].
  wp_step. wp_step.
  eapply wp_mono;
    [apply parse_index_spec; [lia | unfold len; lia | lia] |].
  cbn beta. intros r f3 (Hh3 & Hr3). right.
  split; [exact Hr3 |]. split; [| lia]. rewrite Hh3. exact Hhead.
Qed.

Lemma for_each_load_entry_spec (input spare : list byte)
  (idx : list IndexEntry.t) :
  forall f,
    wp (for_each idx (load_entry input spare))
       (fun r f' => content_outcome r /\ head_of f' = head_of f) f.
Proof.
  induction idx as [| e idx IH]; intros f; cbn [for_each].
  { wp_step. cbn. auto. }
  wp_step. unfold load_entry.
  wp_step. wp_step; [cbn; auto |].
  wp_step. wp_step.
  destruct (File.Content f !! IndexEntry.FileName e); [wp_step; cbn; auto |].
  wp_step. eapply wp_mono; [apply IH |].
  cbn beta. intros r f' (Hr & Hh). auto.
Qed.

Lemma load_content_spec (input spare : list byte) (f : File.t) :
  wp (load_content input spare)
     (fun r f' => content_outcome r /\ head_of f' = head_of f) f.
Proof.
  unfold load_content. wp_step. wp_step. wp_step. wp_step.
  eapply wp_mono; [apply for_each_load_entry_spec |].
  cbn beta. intros r f' (Hr & Hh). auto.
Qed.

(** The outcomes of [Unmarshal]. *)
Lemma Unmarshal_spec (input spare : list byte) (f : File.t) :
  wp (Unmarshal input spare)
     (fun r f' =>
        (r = inr (Error ErrTooSmall) /\ f' = f /\ len input < 28)
        \/ ((checked_outcome r \/ content_outcome r)
            /\ head_of f' = head_from input /\ 28 <= len input)) f.
Proof.
  unfold Unmarshal. wp_step.
  eapply wp_mono; [apply parse_structure_spec |].
  cbn beta. intros r f1 [(-> & -> & Hlen) | (Hr & Hh & Hlen)]; [left; auto |].
  destruct r as [[] | x]; [| right; auto].
  eapply wp_mono; [apply load_content_spec |].
  cbn beta. intros r f2 (Hr2 & Hh2). right.
  split; [right; exact Hr2 |]. split; [| exact Hlen]. rewrite Hh2. exact Hh.
Qed.

(** [Unmarshal] is total: the fuel of its loops never runs out. *)
Lemma Unmarshal_total (input spare : list byte) (f : File.t) :
  fst (Unmarshal input spare f) <> inr OutOfFuel.
Proof.
  pose proof (Unmarshal_spec input spare f) as H. unfold wp in H.
  destruct H as [(-> & _) | ([Hr | Hr] & _)]; [discriminate | |];
    intros Heq; rewrite Heq in Hr; exact Hr.
Qed.

Lemma slice_checked_len {A} (s spare : list A) (lo hi : Z) :
  hi <= len s -> slice_checked s spare lo hi = slice_checked s [] lo hi.
Proof.
  intros Hhi. pose proof (len_nonneg spare).
  destruct (Z_le_gt_dec 0 lo) as [Hlo | Hlo];
    [| rewrite !slice_checked_None by lia; reflexivity].
  destruct (Z_le_gt_dec lo hi) as [Hle | Hle];
    [| rewrite !slice_checked_None by lia; reflexivity].
  rewrite !slice_checked_Some by lia. reflexivity.
Qed.

(** The part of [Unmarshal] before the content loop never reaches the
    spare capacity of the buffer: its slice expressions stay within the
    length. *)
Lemma parse_index_spare (input spare : list byte) (fuel : nat) :
  forall c f,
    parse_index fuel input spare c f = parse_index fuel input [] c f.
Proof.
  induction fuel as [| fuel IH]; intros c f; [reflexivity |].
  cbn [parse_index]. unfold mbind, M_bind, bind, get. cbv beta iota.
  destruct (_ <=? c); [reflexivity |].
  destruct (parse_at input c IndexEntryHeaderLen f) as [[bs | x] f1];
    [| reflexivity].
  unfold go_slice.
  rewrite (slice_checked_len input spare _ (len input)) by lia.
  destruct (slice_checked input [] (c + IndexEntryHeaderLen) (len input))
    as [rest |] eqn:Hrest; [| reflexivity].
  cbv beta iota delta [ret].
  apply slice_checked_inv in Hrest as (Hlo & Hle & _ & ->).
  rewrite app_nil_r.
  pose proof (bytes_Index_range
                (slice input (c + IndexEntryHeaderLen) (len input)) x00)
    as Hidx.
  rewrite len_slice in Hidx by lia.
  destruct (Z.ltb_spec
              (bytes_Index
                 (slice input (c + IndexEntryHeaderLen) (len input)) x00) 0)
    as [Hneg | Hpos]; [reflexivity |].
  rewrite (slice_checked_len input spare) by lia.
  destruct (slice_checked input [] _ _) as [name |]; [| reflexivity].
  cbv beta iota delta [ret modify]. apply IH.
Qed.

Lemma parse_structure_spare (input spare : list byte) (f : File.t) :
  parse_structure input spare f = parse_structure input [] f.
Proof.
  unfold parse_structure. destruct (_ <? _); [reflexivity |].
  unfold mbind, M_bind, bind. cbv beta iota.
  repeat (match goal with
          | |- context [match ?m ?g with _ => _ end] =>
              lazymatch m with
              | parse_index _ _ _ _ => fail
              | _ => destruct (m g) as [[? | ?] ?]; [| reflexivity]
              end
          end; cbv beta iota).
  apply parse_index_spare.
Qed.

(** * The properties of the specification *)

(** ** C1: reads and copies outside the buffer *)

(** The reads that go through [parse] are checked: the part of
    [Unmarshal] before the content loop never panics. *)
Lemma parse_structure_never_panics (input spare : list byte) (f : File.t)
  (p : PanicKind) :
  fst (parse_structure input spare f) <> inr (Panic p).
Proof.
  pose proof (parse_structure_spec input spare f) as H. unfold wp in H.
  destruct H as [(-> & _) | (Hr & _)]; [discriminate |].
  intros Heq. rewrite Heq in Hr. exact Hr.
Qed.

(** The slice expression of the content loop is not: an entry whose
    end, computed on 32 bits, lies beyond the capacity of the buffer or
    before its own start makes [load_entry] panic. *)
Lemma load_entry_out_of_range (input spare : list byte) (e : IndexEntry.t)
  (f : File.t) :
  len input + len spare
  < wrap32 (IndexEntry.OffsetToContent e + IndexEntry.Size e)
  \/ wrap32 (IndexEntry.OffsetToContent e + IndexEntry.Size e)
     < IndexEntry.OffsetToContent e ->
  load_entry input spare e f = (inr (Panic SliceBoundsOutOfRange), f).
Proof.
  intros H. unfold load_entry, go_slice.
  rewrite slice_checked_None by lia. reflexivity.
Qed.

(** C1 fails on the code.  Decoding an archive whose index entry has a
    content offset plus content size beyond the buffer does not return an
    error: the slice expression [input[off:off+size]] panics.  Encoding
    the decoded archive whose content offset is smaller than the total
    signature data size does not return an error either: the slice
    expression [output[off-sigDataSize:...]] panics. *)
Theorem out_of_range_copies_panic :
  fst (decode out_of_range_content_input) = inr (Panic SliceBoundsOutOfRange)
  /\ fst (decode past_the_end_content_input)
     = inr (Panic SliceBoundsOutOfRange)
  /\ fst (decode content_before_signatures_input) = inl tt
  /\ signable_bytes (snd (decode content_before_signatures_input))
     = inr (Panic SliceBoundsOutOfRange).
Proof. vm_compute. auto. Qed.

(** ** C2: the compressed flag *)

Lemma is_xz_iff (Data : list byte) :
  is_xz Data = true <-> 6 < len Data /\ slice Data 0 6 = xz_magic.
Proof.
  unfold is_xz. rewrite andb_true_iff, Z.ltb_lt, bool_decide_eq_true.
  reflexivity.
Qed.

(** The flag of every entry of a decoded archive is the result of the
    test [is_xz] on its data. *)
Lemma for_each_load_entry_flags (input spare : list byte)
  (idx : list IndexEntry.t) :
  forall f,
    (forall name e, File.Content f !! name = Some e ->
                    Entry.IsCompressed e = is_xz (Entry.Data e)) ->
    wp (for_each idx (load_entry input spare))
       (fun _ f' => forall name e, File.Content f' !! name = Some e ->
                                   Entry.IsCompressed e = is_xz (Entry.Data e))
       f.
Proof.
  induction idx as [| x idx IH]; intros f Hinv; cbn [for_each].
  { wp_step. exact Hinv. }
  wp_step. unfold load_entry.
  wp_step. wp_step; [exact Hinv |].
  wp_step. wp_step.
  destruct (File.Content f !! IndexEntry.FileName x) eqn:Hlook;
    [wp_step; exact Hinv |].
  wp_step. apply IH. cbn [File.Content File.set_Content].
  intros name e Hget.
  destruct (decide (IndexEntry.FileName x = name)) as [Heq | Hne].
  - rewrite Heq, lookup_insert_eq in Hget. injection Hget as <-. reflexivity.
  - rewrite lookup_insert_ne in Hget by exact Hne. eapply Hinv, Hget.
Qed.

(** [Unmarshal] starts the content map afresh, so whenever it gets past
    the structure of the archive, the flags of [file.Content] are those
    of the test. *)
Lemma Unmarshal_flags (input spare : list byte) (f f' : File.t) :
  Unmarshal input spare f = (inl tt, f') ->
  forall name e, File.Content f' !! name = Some e ->
                 Entry.IsCompressed e = is_xz (Entry.Data e).
Proof.
  unfold Unmarshal, mbind, M_bind, bind.
  destruct (parse_structure input spare f) as [[[] | x] f1]; [| discriminate].
  intros Hrun.
  assert (wp (load_content input spare)
            (fun _ f' => forall name e, File.Content f' !! name = Some e ->
                         Entry.IsCompressed e = is_xz (Entry.Data e)) f1)
    as H.
  { unfold load_content. wp_step. wp_step. wp_step. wp_step.
    apply for_each_load_entry_flags. cbn. intros name e Hget.
    rewrite lookup_empty in Hget. discriminate. }
  unfold wp in H. rewrite Hrun in H. exact H.
Qed.

(** C2 fails on the code.  The archive whose only entry holds exactly the
    6 bytes of XZ's magic number decodes, and the entry is not flagged
    as compressed: the test asks for more than 6 bytes.  With one more
    byte of content the entry is flagged. *)
Theorem xz_magic_only_not_flagged :
  fst (decode xz_magic_only_input) = inl tt
  /\ File.Content (snd (decode xz_magic_only_input)) !! "a"%string
     = Some (Entry.mk xz_magic false)
  /\ File.Content (snd (decode xz_magic_plus_one_input)) !! "a"%string
     = Some (Entry.mk (xz_magic ++ [x01]) true).
Proof. vm_compute. auto. Qed.

(** ** C3: a block size below 8 *)

Lemma zero_block_size_decodes (tail : list byte) :
  len tail = 2 ^ 32 - 8 ->
  decode (zero_block_size_head ++ tail)
  = (inl tt,
     File.mk "MAR1" 32 "" (SignaturesHeader.mk 0 0) []
       (AdditionalSectionsHeader.mk 1) [AdditionalSection.mk 0 0 tail]
       (read_IndexHeader (slice tail 0 4)) [] ∅).
Proof.
  intros Htail. change (2 ^ 32 - 8) with 4294967288 in Htail.
  set (input := zero_block_size_head ++ tail).
  assert (len input = 4294967320) as Hlen.
  { unfold input. rewrite len_app, Htail. reflexivity. }
  assert (forall lo hi, 0 <= lo -> hi <= 32 ->
            slice input lo hi = slice zero_block_size_head lo hi) as Hhead.
  { intros lo hi Hlo Hhi. apply slice_app_l; [exact Hlo |].
    change (len zero_block_size_head) with 32. exact Hhi. }
  assert (forall lo hi, 32 <= lo ->
            slice input lo hi = slice tail (lo - 32) (hi - 32)) as Htl.
  { intros lo hi Hlo. unfold input. rewrite slice_app_r; [reflexivity |].
    change (len zero_block_size_head) with 32. exact Hlo. }
  assert (0 < length input)%nat as Hfuel by (unfold len in Hlen; lia).
  enough (wp (Unmarshal input [])
            (fun r f' =>
               (r, f')
               = (inl tt,
                  File.mk "MAR1" 32 "" (SignaturesHeader.mk 0 0) []
                    (AdditionalSectionsHeader.mk 1)
                    [AdditionalSection.mk 0 0 tail]
                    (read_IndexHeader (slice tail 0 4)) [] ∅)) File.zero)
    as H.
  { unfold wp in H. unfold decode. rewrite <- H.
    destruct (Unmarshal input [] File.zero); reflexivity. }
  unfold Unmarshal, parse_structure, File.zero.
  unfold MarIDLen, OffsetToIndexLen, SignaturesHeaderLen,
    SignatureEntryHeaderLen, AdditionalSectionsHeaderLen,
    AdditionalSectionsEntryHeaderLen, IndexHeaderLen, IndexEntryHeaderLen.
  change (4 + 4 + 12 + 4 + 4) with 28. wp_step.
  destruct (Z.ltb_spec (len input) 28) as [Hshort | _]; [lia |].
  (* the MAR ID, the offset to the index, the signatures header *)
  wp_step. wp_step; [lia |]. wp_step. wp_step.
  wp_step. wp_step; [lia |]. wp_step. wp_step.
  wp_step. wp_step; [lia |]. wp_step. wp_step.
  rewrite !Hhead by lia. eval_reads zero_block_size_head. file_norm.
  (* no signature *)
  wp_step. cbn [parse_signatures]. unfold SignatureEntryHeaderLen.
  wp_step. wp_step. file_norm.
  cbn [SignaturesHeader.NumSignatures]. change (0 <? 0) with false.
  cbv iota. wp_step.
  (* the additional sections header *)
  wp_step. wp_step; [lia |]. wp_step. wp_step.
  rewrite !Hhead by lia. eval_reads zero_block_size_head. file_norm.
  (* one additional section, of block size 0 *)
  wp_step. cbn [parse_sections]. unfold AdditionalSectionsEntryHeaderLen.
  wp_step. wp_step. file_norm.
  cbn [AdditionalSectionsHeader.NumAdditionalSections].
  change (0 <? 1) with true. cbv iota.
  wp_step. wp_step; [lia |].
  rewrite !Hhead by lia. eval_reads zero_block_size_head.
  cbn [additionalSectionEntryHeader.BlockSize
       additionalSectionEntryHeader.BlockID].
  change (int_of_uint32 (wrap32 (0 - 8))) with 4294967288.
  wp_step. wp_step; [lia |].
  rewrite (Htl (0 + 4 + 4 + 12 + 4 + 8)) by lia.
  change (0 + 4 + 4 + 12 + 4 + 8 - 32) with 0.
  change (0 + 4 + 4 + 12 + 4 + 8 + 4294967288 - 32) with 4294967288.
  rewrite (slice_all tail 4294967288) by (symmetry; exact Htail).
  wp_step. unfold store_block. change (0 =? BlockIDProductInfo) with false.
  cbv iota. wp_step. wp_step. wp_step. file_norm.
  rewrite parse_sections_unfold by exact Hfuel.
  cbn [parse_sections]. unfold AdditionalSectionsEntryHeaderLen.
  wp_step. wp_step. file_norm.
  cbn [AdditionalSectionsHeader.NumAdditionalSections].
  change (wrap32 (0 + 1) <? 1) with false. cbv iota. wp_step.
  (* the index header, inside the section's data, and an empty index *)
  wp_step. wp_step. file_norm. change (int_of_uint32 32) with 32.
  wp_step. wp_step; [lia |]. wp_step. wp_step. file_norm.
  rewrite (Htl 32) by lia. change (32 - 32) with 0.
  change (32 + 4 - 32) with 4.
  cbn [parse_index]. unfold IndexEntryHeaderLen. wp_step. wp_step. file_norm.
  cbn [SignaturesHeader.FileSize].
  change (int_of_uint64 0 <=? 32 + 4) with true. cbv iota. wp_step.
  (* no content *)
  unfold load_content. wp_step. wp_step. wp_step. wp_step. file_norm.
  cbn [for_each]. wp_step. reflexivity.
Qed.

(** In a buffer of less than [2^32 - 8] bytes, a section whose block size
    is below 8 is refused by the bounded read, at the position of the
    section's data: the data size [BlockSize - 8] has wrapped around to at
    least [2^32 - 8]. *)
Lemma parse_sections_small_block (fuel : nat) (input : list byte) (i c : Z)
  (f : File.t) :
  i < AdditionalSectionsHeader.NumAdditionalSections
        (File.AdditionalSectionsHeader f) ->
  0 <= c ->
  c + AdditionalSectionsEntryHeaderLen <= len input ->
  additionalSectionEntryHeader.BlockSize
    (read_additionalSectionEntryHeader
       (slice input c (c + AdditionalSectionsEntryHeaderLen))) < 8 ->
  len input < 2 ^ 32 - 8 ->
  parse_sections (S fuel) input i c f
  = (inr (Error (ErrParsingFailed (c + AdditionalSectionsEntryHeaderLen)
                   RefusingToRead)), f).
Proof.
  intros Hi Hc Hhdr Hsmall Hlen.
  pose proof (be_uint_slice_range
    (slice input c (c + AdditionalSectionsEntryHeaderLen)) 0 4 ltac:(lia))
    as Hsize.
  apply wp_eq. cbn [parse_sections].
  unfold AdditionalSectionsEntryHeaderLen, int_of_uint32, wrap32 in *.
  cbn [read_additionalSectionEntryHeader
       additionalSectionEntryHeader.BlockSize] in *.
  wp_step. wp_step.
  destruct (Z.ltb_spec i (AdditionalSectionsHeader.NumAdditionalSections
                            (File.AdditionalSectionsHeader f))); [| lia].
  wp_step. wp_step; [lia |].
  set (bs := be_uint (slice (slice input c (c + 8)) 0 4)) in *.
  assert ((bs - 8) mod 2 ^ 32 = bs - 8 + 2 ^ 32) as Hwrap.
  { symmetry. apply Z.mod_unique with (q := -1); lia. }
  wp_step. rewrite Hwrap. wp_step; [reflexivity | lia].
Qed.

(** C3 fails on the code: there is no test of the block size.  The
    archive of [2^32 + 24] bytes whose only additional section has block
    size 0 decodes; the data size [0 - 8] wraps around to [2^32 - 8], and
    the section is stored with that many data bytes. *)
Theorem zero_block_size_accepted :
  fst (decode zero_block_size_input) = inl tt
  /\ File.AdditionalSections (snd (decode zero_block_size_input))
     = [AdditionalSection.mk 0 0 (replicate (Z.to_nat (2 ^ 32 - 8)) x00)]
  /\ wrap32 (0 - AdditionalSectionsEntryHeaderLen) = 2 ^ 32 - 8.
Proof.
  unfold zero_block_size_input.
  rewrite zero_block_size_decodes.
  - cbn [fst snd File.AdditionalSections]. auto.
  - unfold len. rewrite length_replicate. apply Z2Nat.id.
    vm_compute. discriminate.
Qed.

(** ** C4: what an error leaves in the caller's [File] *)

(** C4, as stated, fails: on the 28-byte archive that is cut after its
    signature, [Unmarshal] into the zero [File] returns an error and
    leaves the MAR ID parsed from the input in the caller's [File]; the
    [File] is not what it was before the call. *)
Lemma Unmarshal_error_keeps_partial_fields :
  ~ (forall input spare f e f',
       Unmarshal input spare f = (inr (Error e), f') -> f' = f).
Proof.
  intros H.
  specialize (H cut_after_signature_input [] File.zero
                (ErrParsingFailed 28 RefusingToRead)
                (snd (decode cut_after_signature_input))
                ltac:(vm_compute; reflexivity)).
  apply (f_equal File.MarID) in H. vm_compute in H. discriminate H.
Qed.

(** C4, amended: when [Unmarshal] returns an error, either the input was
    refused as too small and the caller's [File] is unchanged, or the MAR
    ID, the offset to the index and the signatures header of the caller's
    [File] hold the values parsed from the first 20 bytes of the input;
    a [File] that had the empty MAR ID of a fresh [File] before the call
    has then changed. *)
Theorem Unmarshal_error_state (input spare : list byte) (f f' : File.t)
  (e : DecodeError) :
  Unmarshal input spare f = (inr (Error e), f') ->
  (e = ErrTooSmall /\ f' = f /\ len input < 28)
  \/ (e <> ErrTooSmall /\ 28 <= len input
      /\ File.MarID f' = string_of_list_byte (slice input 0 4)
      /\ File.OffsetToIndex f' = read_uint32 (slice input 4 8)
      /\ File.SignaturesHeader f' = read_SignaturesHeader (slice input 8 20)
      /\ (File.MarID f = File.MarID File.zero -> f' <> f)).
Proof.
  intros Hrun. pose proof (Unmarshal_spec input spare f) as H.
  unfold wp in H. rewrite Hrun in H. cbn [fst snd] in H.
  destruct H as [(He & Hf & Hlen) | (Hr & Hh & Hlen)].
  - left. injection He as ->. auto.
  - right. unfold head_of, head_from in Hh. injection Hh as H1 H2 H3.
    split; [intros ->; destruct Hr as [Hr | Hr]; exact Hr |].
    repeat split; try assumption.
    intros Hfresh ->. rewrite Hfresh in H1.
    apply (f_equal list_byte_of_string) in H1.
    rewrite list_byte_of_string_of_list_byte in H1.
    pose proof (len_slice input 0 4 ltac:(lia) ltac:(lia) ltac:(lia)) as H4.
    rewrite <- H1 in H4. discriminate H4.
Qed.

Lemma Unmarshal_error_state_witness :
  Unmarshal cut_after_signature_input [] File.zero
    = (inr (Error (ErrParsingFailed 28 RefusingToRead)),
       snd (decode cut_after_signature_input))
  /\ File.MarID (snd (decode cut_after_signature_input)) = "MAR1"%string.
Proof.
  assert (Unmarshal cut_after_signature_input [] File.zero
          = (inr (Error (ErrParsingFailed 28 RefusingToRead)),
             snd (decode cut_after_signature_input))) as Hrun
    by (vm_compute; reflexivity).
  split; [exact Hrun |].
  destruct (Unmarshal_error_state _ _ _ _ _ Hrun)
    as [(He & _) | (_ & _ & Hid & _)]; [discriminate He |].
  rewrite Hid. vm_compute. reflexivity.
Defined.

(** ** C5: the length of the signable bytes *)

Lemma two_signatures_decodes (t : list byte) :
  len t = 2 ^ 32 - 1 ->
  slice t 8 12 = [x00; x00; x00; x00] ->
  decode (two_signatures_head ++ t ++ two_signatures_tail)
  = (inl tt, two_signatures_file t).
Proof.
  intros Ht Hidx. change (2 ^ 32 - 1) with 4294967295 in Ht.
  set (input := two_signatures_head ++ t ++ two_signatures_tail).
  assert (len input = 4294967336) as Hlen.
  { unfold input. rewrite !len_app, Ht. reflexivity. }
  assert (forall lo hi, 0 <= lo -> hi <= 28 ->
            slice input lo hi = slice two_signatures_head lo hi) as Hhead.
  { intros lo hi Hlo Hhi. apply slice_app_l; [exact Hlo |].
    change (len two_signatures_head) with 28. exact Hhi. }
  assert (forall lo hi, 28 <= lo -> hi <= 4294967323 ->
            slice input lo hi = slice t (lo - 28) (hi - 28)) as Hmid.
  { intros lo hi Hlo Hhi. unfold input. rewrite slice_app_r;
      change (len two_signatures_head) with 28; [| exact Hlo].
    apply slice_app_l; lia. }
  assert (forall lo hi, 4294967323 <= lo ->
            slice input lo hi
            = slice two_signatures_tail (lo - 4294967323)
                (hi - 4294967323)) as Htl.
  { intros lo hi Hlo. unfold input. rewrite slice_app_r;
      change (len two_signatures_head) with 28; [| lia].
    rewrite slice_app_r by lia. rewrite Ht. f_equal; lia. }
  assert (2 < length input)%nat as Hfuel by (unfold len in Hlen; lia).
  unfold decode. apply wp_eq.
  unfold Unmarshal, parse_structure, File.zero, two_signatures_file.
  unfold MarIDLen, OffsetToIndexLen, SignaturesHeaderLen,
    AdditionalSectionsHeaderLen, IndexHeaderLen.
  change (4 + 4 + 12 + 4 + 4) with 28. wp_step.
  destruct (Z.ltb_spec (len input) 28) as [Hshort | _]; [lia |].
  (* the MAR ID, the offset to the index, the signatures header *)
  wp_step. wp_step; [lia |]. wp_step. wp_step.
  wp_step. wp_step; [lia |]. wp_step. wp_step.
  wp_step. wp_step; [lia |]. wp_step. wp_step.
  rewrite !Hhead by lia. eval_reads two_signatures_head. file_norm.
  (* the first signature: its data is [t] *)
  wp_step. cbn [parse_signatures]. unfold SignatureEntryHeaderLen.
  wp_step. wp_step. file_norm. cbn [SignaturesHeader.NumSignatures].
  change (0 <? 2) with true. cbv iota.
  wp_step. wp_step; [lia |].
  rewrite !Hhead by lia. eval_reads two_signatures_head.
  cbn [signatureEntryHeader.AlgorithmID signatureEntryHeader.Size].
  change (int_of_uint32 4294967295) with 4294967295.
  change (algorithm_name 1) with "RSA-PKCS1-SHA1"%string.
  wp_step. wp_step; [lia |].
  rewrite (Hmid (0 + 4 + 4 + 12 + 8)) by lia.
  change (0 + 4 + 4 + 12 + 8 - 28) with 0.
  change (0 + 4 + 4 + 12 + 8 + 4294967295 - 28) with 4294967295.
  rewrite (slice_all t 4294967295) by (symmetry; exact Ht).
  wp_step. wp_step. file_norm.
  (* the second signature, after it *)
  change (wrap32 (0 + 1)) with 1.
  change (0 + 4 + 4 + 12 + 8 + 4294967295) with 4294967323.
  rewrite parse_signatures_unfold by lia.
  cbn [parse_signatures]. unfold SignatureEntryHeaderLen.
  wp_step. wp_step. file_norm. cbn [SignaturesHeader.NumSignatures].
  change (1 <? 2) with true. cbv iota.
  wp_step. wp_step; [lia |].
  rewrite !Htl by lia. eval_reads two_signatures_tail.
  cbn [signatureEntryHeader.AlgorithmID signatureEntryHeader.Size].
  change (int_of_uint32 1) with 1.
  change (algorithm_name 1) with "RSA-PKCS1-SHA1"%string.
  wp_step. wp_step; [lia |].
  rewrite !Htl by lia. eval_reads two_signatures_tail.
  wp_step. wp_step. file_norm. cbn [app].
  change (wrap32 (1 + 1)) with 2.
  change (4294967323 + 8 + 1) with 4294967332.
  rewrite parse_signatures_unfold by lia.
  cbn [parse_signatures]. unfold SignatureEntryHeaderLen.
  wp_step. wp_step. file_norm. cbn [SignaturesHeader.NumSignatures].
  change (2 <? 2) with false. cbv iota. wp_step.
  (* the additional sections header: no section *)
  wp_step. wp_step; [lia |]. wp_step. wp_step.
  rewrite !Htl by lia. eval_reads two_signatures_tail. file_norm.
  wp_step. cbn [parse_sections]. unfold AdditionalSectionsEntryHeaderLen.
  wp_step. wp_step. file_norm.
  cbn [AdditionalSectionsHeader.NumAdditionalSections].
  change (0 <? 0) with false. cbv iota. wp_step.
  (* the index header, inside the first signature, and an empty index *)
  wp_step. wp_step. file_norm. change (int_of_uint32 36) with 36.
  wp_step. wp_step; [lia |]. wp_step. wp_step. file_norm.
  rewrite (Hmid 36) by lia. change (36 - 28) with 8.
  change (36 + 4 - 28) with 12. rewrite Hidx.
  change (read_IndexHeader [x00; x00; x00; x00]) with (IndexHeader.mk 0).
  cbn [parse_index]. unfold IndexEntryHeaderLen. wp_step. wp_step. file_norm.
  cbn [SignaturesHeader.FileSize].
  change (int_of_uint64 40 <=? 36 + 4) with true. cbv iota. wp_step.
  (* no content *)
  unfold load_content. wp_step. wp_step. wp_step. wp_step. file_norm.
  cbn [for_each]. wp_step. reflexivity.
Qed.

(** The signable bytes of that [File]: 40 bytes, as many as the recorded
    file size, because the sum of the two sizes is 0 on 32 bits. *)
Lemma two_signatures_encodes (t : list byte) :
  sigDataSize_of (File.Signatures (two_signatures_file t)) = 0
  /\ sum_sizes (File.Signatures (two_signatures_file t)) = 2 ^ 32
  /\ exists out,
       signable_bytes (two_signatures_file t) = inl out /\ len out = 40.
Proof.
  split; [reflexivity |]. split; [reflexivity |].
  eexists. split; [vm_compute; reflexivity | reflexivity].
Qed.

(** *** The length of the output *)

Lemma copy_into_length {A} (dst : list A) (lo hi : Z) (src dst' : list A) :
  copy_into dst lo hi src = Some dst' -> len dst' = len dst.
Proof.
  unfold copy_into.
  destruct (Z.leb_spec hi (len dst)); [| discriminate].
  destruct (Z.leb_spec lo hi); [| discriminate].
  destruct (Z.leb_spec 0 lo); [| discriminate].
  cbn [andb]. intros [= <-]. pose proof (len_nonneg src).
  unfold len in *. rewrite !length_app, !length_take, length_drop. lia.
Qed.

Lemma marshal_entries_length (sigDataSize : Z) (index : list IndexEntry.t) :
  forall idxBuf output f,
    wp (marshal_entries index sigDataSize idxBuf output)
       (fun r _ => match r with
                   | inl (_, output') => len output' = len output
                   | inr _ => True
                   end) f.
Proof.
  induction index as [| idx index IH]; intros idxBuf output f;
    cbn [marshal_entries].
  { wp_step. reflexivity. }
  wp_step. wp_step. wp_step.
  apply wp_go_copy; [exact (fun _ => I) |]. intros output' Hcopy.
  apply copy_into_length in Hcopy. rewrite <- Hcopy. apply IH.
Qed.

(** Whenever [MarshalForSignature] returns bytes, there are as many as
    [make] was asked for: the recorded file size minus [sigDataSize], on
    64 bits. *)
Lemma signable_bytes_length (file : File.t) (out : list byte) :
  signable_bytes file = inl out ->
  len out
  = wrap64 (SignaturesHeader.FileSize (File.SignaturesHeader file)
            - sigDataSize_of (File.Signatures file))
  /\ len out <= MaxInt.
Proof.
  set (n := wrap64 (SignaturesHeader.FileSize (File.SignaturesHeader file)
                    - sigDataSize_of (File.Signatures file))).
  enough (wp MarshalForSignature
            (fun r _ => forall o, r = inl o ->
                                  len o = n /\ len o <= MaxInt) file)
    as H by (intros Hout; exact (H out Hout)).
  unfold MarshalForSignature. fold n.
  wp_step. wp_step. wp_step.
  apply wp_make_bytes; [discriminate |]. intros Hn.
  assert (len (replicate (Z.to_nat n) x00) = n) as Hlen0
    by (unfold len; rewrite length_replicate; lia).
  wp_step. wp_step. wp_step.
  apply wp_go_copy; [discriminate |]. intros output1 Hcopy1.
  apply copy_into_length in Hcopy1.
  wp_step. wp_step. wp_step.
  eapply wp_mono; [apply marshal_entries_length |].
  cbn beta. intros [[idxBuf output2] | x] f' Hlen2; [| discriminate].
  wp_step. wp_step.
  destruct (decide _); [| wp_step; discriminate].
  wp_step. apply wp_go_copy; [discriminate |]. intros output3 Hcopy3.
  apply copy_into_length in Hcopy3.
  wp_step. intros o [= <-]. subst n. split; lia.
Qed.

(** *** The signatures of a decoded archive *)

Lemma sum_sizes_cons (sig : Signature.t) (sigs : list Signature.t) :
  sum_sizes (sig :: sigs) = Signature.Size sig + sum_sizes sigs.
Proof. reflexivity. Qed.

Lemma sum_sizes_nonneg (sigs : list Signature.t) :
  Forall (fun sig => 0 <= Signature.Size sig) sigs -> 0 <= sum_sizes sigs.
Proof.
  induction 1 as [| sig sigs Hsig _ IH]; [reflexivity |].
  rewrite sum_sizes_cons. lia.
Qed.

Lemma sigDataSize_of_no_wrap (sigs : list Signature.t) :
  Forall (fun sig => 0 <= Signature.Size sig) sigs ->
  sum_sizes sigs < 2 ^ 32 ->
  sigDataSize_of sigs = sum_sizes sigs.
Proof.
  unfold sigDataSize_of. intros Hpos Hsum.
  enough (forall acc, 0 <= acc -> acc + sum_sizes sigs < 2 ^ 32 ->
            fold_left (fun a sig => wrap32 (a + Signature.Size sig)) sigs acc
            = acc + sum_sizes sigs) as H
    by (rewrite (H 0); lia).
  clear Hsum.
  induction Hpos as [| sig sigs Hsig Hpos IH]; intros acc Hacc Hsum.
  { cbn [fold_left]. change (sum_sizes []) with 0. lia. }
  pose proof (sum_sizes_nonneg sigs Hpos) as Hnn.
  rewrite sum_sizes_cons in *. cbn [fold_left].
  unfold wrap32 at 2. rewrite Z.mod_small by lia.
  rewrite IH by lia. lia.
Qed.

(** The signature loop appends signatures of non-negative sizes, and
    moves the cursor past all their data without leaving the buffer. *)
Lemma parse_signatures_sizes (input : list byte) (fuel : nat) :
  forall i c f,
    0 <= c ->
    wp (parse_signatures fuel input i c)
       (fun r f' =>
          exists sigs,
            File.Signatures f' = File.Signatures f ++ sigs
            /\ Forall (fun sig => 0 <= Signature.Size sig) sigs
            /\ match r with
               | inl c' => c + sum_sizes sigs <= c'
                           /\ (c <= len input -> c' <= len input)
               | inr _ => True
               end) f.
Proof.
  induction fuel as [| fuel IH]; intros i c f Hc; cbn [parse_signatures].
  { wp_step. exists []. rewrite app_nil_r. auto. }
  wp_step. wp_step.
  wp_step; [| wp_step; exists []; rewrite app_nil_r; cbn; auto with lia].
  wp_step. wp_step; [exists []; rewrite app_nil_r; auto |].
  wp_step. wp_step; [exists []; rewrite app_nil_r; auto |].
  wp_step. wp_step.
  pose proof (be_uint_slice_range
                (slice input c (c + SignatureEntryHeaderLen)) 4 8 ltac:(lia))
    as Hsize.
  unfold SignatureEntryHeaderLen, int_of_uint32 in *.
  cbn [read_signatureEntryHeader signatureEntryHeader.Size] in *.
  eapply wp_mono; [apply IH; lia |].
  cbn beta. intros r f' (sigs & Hsigs & Hpos & Hr).
  eexists (_ :: sigs). split; [| split].
  - rewrite Hsigs. cbn [File.Signatures File.set_Signatures].
    rewrite <- app_assoc. reflexivity.
  - constructor; [cbn [Signature.Size]; lia | exact Hpos].
  - destruct r as [c' |]; [| exact I].
    rewrite sum_sizes_cons. cbn [Signature.Size]. lia.
Qed.

Lemma parse_sections_keeps_signatures (input : list byte) (fuel : nat) :
  forall i c f,
    wp (parse_sections fuel input i c)
       (fun _ f' => File.Signatures f' = File.Signatures f) f.
Proof.
  induction fuel as [| fuel IH]; intros i c f; cbn [parse_sections].
  { wp_step. reflexivity. }
  wp_step. wp_step. wp_step; [| wp_step; reflexivity].
  wp_step. wp_step; [reflexivity |].
  wp_step. wp_step; [reflexivity |].
  wp_step. apply store_block_spec. intros f' (_ & Hs & _).
  wp_step. wp_step.
  eapply wp_mono; [apply IH |]. cbn beta. intros _ f'' ->. exact Hs.
Qed.

Lemma parse_index_keeps_signatures (input spare : list byte) (fuel : nat) :
  forall c f,
    wp (parse_index fuel input spare c)
       (fun _ f' => File.Signatures f' = File.Signatures f) f.
Proof.
  induction fuel as [| fuel IH]; intros c f; cbn [parse_index].
  { wp_step. reflexivity. }
  wp_step. wp_step. wp_step; [wp_step; reflexivity |].
  wp_step. wp_step; [reflexivity |].
  wp_step. wp_step; [reflexivity |].
  wp_step; [wp_step; reflexivity |].
  wp_step. wp_step; [reflexivity |].
  wp_step. wp_step.
  eapply wp_mono; [apply IH |]. cbn beta. intros _ f' ->. reflexivity.
Qed.

Lemma load_content_keeps_signatures (input spare : list byte) (f : File.t) :
  wp (load_content input spare)
     (fun _ f' => File.Signatures f' = File.Signatures f) f.
Proof.
  unfold load_content. wp_step. wp_step. wp_step. wp_step.
  cbn [File.Index File.set_Content].
  change (File.Signatures f) with (File.Signatures (File.set_Content ∅ f)).
  generalize (File.set_Content ∅ f). generalize (File.Index f).
  intros index. induction index as [| e index IH]; intros g; cbn [for_each].
  { wp_step. reflexivity. }
  wp_step. unfold load_entry. wp_step. wp_step; [reflexivity |].
  wp_step. wp_step.
  destruct (File.Content g !! IndexEntry.FileName e);
    [wp_step; reflexivity |].
  wp_step. eapply wp_mono; [apply IH |]. cbn beta. intros _ f' ->.
  reflexivity.
Qed.

(** The signatures [Unmarshal] appends have non-negative sizes whose sum
    is below the length of the buffer. *)
Lemma Unmarshal_signature_sizes (input spare : list byte) (f : File.t) :
  wp (Unmarshal input spare)
     (fun r f' =>
        r = inl tt ->
        exists sigs,
          File.Signatures f' = File.Signatures f ++ sigs
          /\ Forall (fun sig => 0 <= Signature.Size sig) sigs
          /\ sum_sizes sigs < len input) f.
Proof.
  unfold Unmarshal, parse_structure, MarIDLen, OffsetToIndexLen,
    SignaturesHeaderLen, AdditionalSectionsHeaderLen, IndexHeaderLen.
  change (4 + 4 + 12 + 4 + 4) with 28. wp_step.
  destruct (Z.ltb_spec (len input) 28) as [Hshort | Hlong];
    [wp_step; discriminate |].
  wp_step. wp_step; [lia |]. wp_step. wp_step.
  wp_step. wp_step; [lia |]. wp_step. wp_step.
  wp_step. wp_step; [lia |]. wp_step. wp_step.
  wp_step.
  eapply wp_mono; [apply parse_signatures_sizes; lia |].
  cbn beta. intros [c1 | x] f1 (sigs & Hsigs & Hpos & Hc1); [| discriminate].
  cbn [File.Signatures File.set_SignaturesHeader File.set_OffsetToIndex
       File.set_MarID] in Hsigs.
  assert (sum_sizes sigs < len input) as Hsum by lia.
  wp_step. wp_step; [discriminate |]. wp_step. wp_step. wp_step.
  eapply wp_mono; [apply parse_sections_keeps_signatures |].
  cbn beta. intros [c2 | x] f2 Hf2; [| discriminate].
  cbn [File.Signatures File.set_AdditionalSectionsHeader] in Hf2.
  wp_step. wp_step. wp_step. wp_step; [discriminate |]. wp_step. wp_step.
  eapply wp_mono; [apply parse_index_keeps_signatures |].
  cbn beta. intros [[] | x] f3 Hf3; [| discriminate].
  cbn [File.Signatures File.set_IndexHeader] in Hf3.
  eapply wp_mono; [apply load_content_keeps_signatures |].
  cbn beta. intros r f4 Hf4 _.
  exists sigs. rewrite Hf4, Hf3, Hf2, Hsigs. auto.
Qed.

(** For every archive decoded from a buffer of less than 4 GiB, the
    signable bytes, when there are any, are as many as the recorded file
    size minus the sum of the sizes of the signatures. *)
Lemma signable_bytes_length_below_4GiB (input : list byte) (A : File.t)
  (out : list byte) :
  decode input = (inl tt, A) ->
  len input < 2 ^ 32 ->
  signable_bytes A = inl out ->
  len out = SignaturesHeader.FileSize (File.SignaturesHeader A)
            - sum_sizes (File.Signatures A).
Proof.
  intros Hdec Hlen Hout. unfold decode in Hdec.
  pose proof (Unmarshal_signature_sizes input [] File.zero) as Hsizes.
  pose proof (Unmarshal_spec input [] File.zero) as Hspec.
  unfold wp in Hsizes, Hspec. rewrite Hdec in Hsizes, Hspec.
  cbn [fst snd] in Hsizes, Hspec.
  destruct (Hsizes eq_refl) as (sigs & Hsigs & Hpos & Hsum).
  cbn [File.Signatures File.zero app] in Hsigs. rewrite Hsigs in *.
  destruct Hspec as [(Hr & _) | (_ & Hh & _)]; [discriminate |].
  assert (0 <= SignaturesHeader.FileSize (File.SignaturesHeader A) < 2 ^ 64)
    as Hsize.
  { unfold head_of, head_from in Hh. injection Hh as _ _ ->.
    apply (be_uint_slice_range (slice input 8 20) 0 8). lia. }
  pose proof (sum_sizes_nonneg sigs Hpos) as Hnn.
  destruct (signable_bytes_length A out Hout) as (Hn & Hmax).
  rewrite Hsigs in Hn.
  rewrite sigDataSize_of_no_wrap in Hn by (assumption || lia).
  rewrite Hn in *. unfold wrap64, MaxInt in *.
  set (F := SignaturesHeader.FileSize (File.SignaturesHeader A)) in *.
  destruct (Z_lt_le_dec F (sum_sizes sigs)) as [Hlt | Hge].
  - assert ((F - sum_sizes sigs) mod 2 ^ 64 = F - sum_sizes sigs + 2 ^ 64)
      as Hw by (symmetry; apply Z.mod_unique with (q := -1); lia).
    lia.
  - apply Z.mod_small. lia.
Qed.

(** C5 fails on the code for archives of 4 GiB and more: [sigDataSize]
    is summed on 32 bits.  The archive of [2^32 + 40] bytes with two
    signatures of [2^32 - 1] bytes and of 1 byte decodes; its signable
    bytes are 40 bytes long, as many as the recorded file size, while the
    sizes of its signatures add up to [2^32]. *)
Theorem signable_bytes_length_wraps :
  fst (decode two_signatures_input) = inl tt
  /\ SignaturesHeader.FileSize
       (File.SignaturesHeader (snd (decode two_signatures_input))) = 40
  /\ sum_sizes (File.Signatures (snd (decode two_signatures_input))) = 2 ^ 32
  /\ exists out,
       signable_bytes (snd (decode two_signatures_input)) = inl out
       /\ len out = 40.
Proof.
  unfold two_signatures_input.
  rewrite two_signatures_decodes.
  - cbn [fst snd]. split; [reflexivity |]. split; [reflexivity |].
    apply two_signatures_encodes.
  - unfold len. rewrite length_replicate. apply Z2Nat.id.
    vm_compute. discriminate.
  - unfold slice. rewrite drop_replicate, take_replicate.
    replace (Z.to_nat (12 - 8) `min` (Z.to_nat (2 ^ 32 - 1) - Z.to_nat 8))%nat
      with 4%nat by lia.
    reflexivity.
Qed.

(** ** C6: the end of the index loop *)

Lemma int_of_uint64_small (x : Z) : x < 2 ^ 63 -> int_of_uint64 x = x.
Proof.
  intros H. unfold int_of_uint64.
  destruct (Z.ltb_spec x (2 ^ 63)); [reflexivity | lia].
Qed.

Lemma int_of_uint64_large (x : Z) :
  2 ^ 63 <= x < 2 ^ 64 -> int_of_uint64 x < 0.
Proof.
  intros H. unfold int_of_uint64.
  destruct (Z.ltb_spec x (2 ^ 63)); lia.
Qed.

(** The loop stops, with the index it has, as soon as the cursor is not
    below [int(FileSize)]. *)
Lemma parse_index_stops (input spare : list byte) (fuel : nat) (c : Z)
  (f : File.t) :
  int_of_uint64 (SignaturesHeader.FileSize (File.SignaturesHeader f)) <= c ->
  parse_index (S fuel) input spare c f = (inl tt, f).
Proof.
  intros H. cbn [parse_index].
  unfold mbind, M_bind, bind, get. cbn.
  destruct (Z.leb_spec
    (int_of_uint64 (SignaturesHeader.FileSize (File.SignaturesHeader f))) c);
    [reflexivity | lia].
Qed.

(** Below [int(FileSize)] it reads one more entry header and name: it
    fails, or goes on with one more entry in the index. *)
Lemma parse_index_continues (input spare : list byte) (fuel : nat) (c : Z)
  (f : File.t) :
  c < int_of_uint64 (SignaturesHeader.FileSize (File.SignaturesHeader f)) ->
  0 <= c ->
  (exists e, parse_index (S fuel) input spare c f = (inr (Error e), f))
  \/ (exists entry c',
        c + IndexEntryHeaderLen < c'
        /\ parse_index (S fuel) input spare c f
           = parse_index fuel input spare c'
               (File.set_Index (File.Index f ++ [entry]) f)).
Proof.
  intros H Hc. cbn [parse_index].
  unfold mbind, M_bind, bind, get, parse_at, parse, go_slice. cbn.
  destruct (Z.leb_spec
    (int_of_uint64 (SignaturesHeader.FileSize (File.SignaturesHeader f))) c);
    [lia |].
  unfold IndexEntryHeaderLen.
  destruct (Z.ltb_spec (len input) (c + 12)); [left; eauto |].
  rewrite slice_checked_Some by lia. cbn.
  pose proof (bytes_Index_range (slice input (c + 12) (len input)) x00)
    as Hidx.
  rewrite len_slice in Hidx by lia.
  destruct (Z.ltb_spec (bytes_Index (slice input (c + 12) (len input)) x00) 0);
    [left; eauto |].
  rewrite slice_checked_Some by lia. cbn.
  right. eexists _, _. split; [| reflexivity]. lia.
Qed.

(** C6 fails on the code for recorded file sizes from [2^63] on.  The
    28-byte archive that records a file size of [2^63] decodes with an
    empty index: the cursor, 28 after the index header, is strictly below
    the recorded file size, yet no entry is read, because the loop
    compares the cursor with [int(FileSize)], which is negative. *)
Theorem index_loop_stops_below_huge_file_size :
  fst (decode huge_file_size_input) = inl tt
  /\ File.Index (snd (decode huge_file_size_input)) = []
  /\ File.OffsetToIndex (snd (decode huge_file_size_input)) + IndexHeaderLen
     < SignaturesHeader.FileSize
         (File.SignaturesHeader (snd (decode huge_file_size_input)))
  /\ int_of_uint64
       (SignaturesHeader.FileSize
          (File.SignaturesHeader (snd (decode huge_file_size_input)))) < 0.
Proof. vm_compute. auto. Qed.

(** ** C7: duplicate file names *)

Lemma first_named_app (a b : list IndexEntry.t) (n : string) :
  first_named (a ++ b) n
  = match first_named a n with
    | Some e => Some e
    | None => first_named b n
    end.
Proof.
  induction a as [| e a IH]; cbn; [reflexivity |].
  destruct (decide (IndexEntry.FileName e = n)); [reflexivity | exact IH].
Qed.

Lemma first_named_Some (index : list IndexEntry.t) (n : string)
  (e : IndexEntry.t) :
  first_named index n = Some e -> IndexEntry.FileName e = n /\ e ∈ index.
Proof.
  induction index as [| x index IH]; cbn; [discriminate |].
  destruct (decide (IndexEntry.FileName x = n)) as [Heq | Hne].
  - intros [= <-]. split; [exact Heq | left].
  - intros H. destruct (IH H) as (Hn & Hin). split; [exact Hn | right; exact Hin].
Qed.

Lemma first_named_None (index : list IndexEntry.t) (n : string) :
  first_named index n = None <-> n ∉ IndexEntry.FileName <$> index.
Proof.
  induction index as [| x index IH]; cbn.
  - split; [intros _; apply not_elem_of_nil | reflexivity].
  - rewrite not_elem_of_cons.
    destruct (decide (IndexEntry.FileName x = n)) as [Heq | Hne].
    + split; [discriminate | intros (Hne & _); congruence].
    + rewrite IH. split; [intros H; split; [congruence | exact H] | tauto].
Qed.

(** The slice expression of the content loop succeeds on an entry whose
    content lies inside the buffer, and does not reach the spare
    capacity. *)
Lemma content_in_range_slice (input spare : list byte) (e : IndexEntry.t) :
  content_in_range input e = true ->
  slice_checked input spare (IndexEntry.OffsetToContent e)
    (wrap32 (IndexEntry.OffsetToContent e + IndexEntry.Size e))
  = Some (slice input (IndexEntry.OffsetToContent e)
            (wrap32 (IndexEntry.OffsetToContent e + IndexEntry.Size e))).
Proof.
  unfold content_in_range. rewrite !andb_true_iff, !Z.leb_le, Z.ltb_lt.
  intros (((Hoff & Hsize) & Hend) & Hwrap).
  unfold wrap32. rewrite Z.mod_small by lia.
  apply slice_checked_Some; lia.
Qed.

Lemma entry_of_in_range (input spare : list byte) (e : IndexEntry.t) :
  content_in_range input e = true ->
  entry_of (input ++ spare) e = entry_of input e.
Proof.
  unfold content_in_range. rewrite !andb_true_iff, !Z.leb_le, Z.ltb_lt.
  intros (((Hoff & Hsize) & Hend) & Hwrap).
  unfold entry_of, wrap32. rewrite Z.mod_small by lia.
  rewrite slice_app_l by lia. reflexivity.
Qed.

(** The content loop over the entries [rest], started with a content map
    that holds the first entry of each name among the entries [pre]
    already seen.  It ends normally only if no name of [rest] repeats or
    was seen before.  When it stops at a name that was seen before, the
    content map still holds, for every name, the first entry seen.  It
    panics only at an entry whose content is out of range. *)
Lemma for_each_load_entry_names (input spare : list byte)
  (rest : list IndexEntry.t) :
  forall pre f,
    (forall n, File.Content f !! n
               = entry_of (input ++ spare) <$> first_named pre n) ->
    wp (for_each rest (load_entry input spare))
       (fun r f' =>
          match r with
          | inl _ =>
              NoDup (IndexEntry.FileName <$> rest)
              /\ forall e, e ∈ rest ->
                           first_named pre (IndexEntry.FileName e) = None
          | inr (Error (ErrDuplicate name)) =>
              exists a,
                is_Some (first_named (pre ++ a) name)
                /\ (exists b, rest = a ++ b)
                /\ forall n, File.Content f' !! n
                             = entry_of (input ++ spare)
                                 <$> first_named (pre ++ a) n
          | inr (Panic SliceBoundsOutOfRange) =>
              exists e, e ∈ rest /\ content_in_range input e = false
          | inr _ => False
          end) f.
Proof.
  induction rest as [| e rest IH]; intros pre f Hinv; cbn [for_each].
  { wp_step. split; [constructor |]. intros e He.
    apply elem_of_nil in He. destruct He. }
  wp_step. unfold load_entry.
  wp_step. wp_step.
  { exists e. split; [left |].
    destruct (content_in_range input e) eqn:He; [| reflexivity].
    apply (content_in_range_slice input spare) in He. congruence. }
  wp_step. wp_step. fold (entry_of (input ++ spare) e).
  destruct (File.Content f !! IndexEntry.FileName e) as [old |] eqn:Hlook.
  - wp_step. exists []. rewrite app_nil_r.
    split; [| split; [exists (e :: rest); reflexivity | exact Hinv]].
    rewrite Hinv in Hlook.
    destruct (first_named pre (IndexEntry.FileName e)); [eauto | discriminate].
  - assert (first_named pre (IndexEntry.FileName e) = None) as Hfresh.
    { rewrite Hinv in Hlook.
      destruct (first_named pre (IndexEntry.FileName e));
        [discriminate | reflexivity]. }
    wp_step.
    eapply wp_mono; [apply (IH (pre ++ [e])) |].
    + intros n. cbn [File.Content File.set_Content].
      rewrite first_named_app. cbn [first_named].
      destruct (decide (IndexEntry.FileName e = n)) as [<- | Hne].
      * rewrite lookup_insert_eq, Hfresh. reflexivity.
      * rewrite lookup_insert_ne by exact Hne. rewrite Hinv.
        destruct (first_named pre n); reflexivity.
    + cbn beta.
      intros [[] | [[ | | | name] | [ | ] | ]] f'; try exact (fun H => H).
      * intros (Hnodup & Hnew). split.
        -- cbn [fmap list_fmap]. constructor; [| exact Hnodup].
           intros Hin. apply list_elem_of_fmap in Hin as (e' & Hname & He').
           specialize (Hnew e' He'). rewrite first_named_app, <- Hname in Hnew.
           rewrite Hfresh in Hnew. cbn in Hnew.
           destruct (decide _); [discriminate | congruence].
        -- intros e' He'. apply elem_of_cons in He' as [-> | He'];
             [exact Hfresh |].
           specialize (Hnew e' He'). rewrite first_named_app in Hnew.
           destruct (first_named pre (IndexEntry.FileName e'));
             [discriminate | reflexivity].
      * intros (a & Hseen & (b & ->) & Hmap). exists (e :: a).
        replace (pre ++ e :: a) with ((pre ++ [e]) ++ a)
          by (rewrite <- app_assoc; reflexivity).
        split; [exact Hseen |]. split; [exists b; reflexivity | exact Hmap].
      * intros (e' & He' & Hout). exists e'. split; [right; exact He' | exact Hout].
Qed.

(** What [Unmarshal] does once the structure of the input has parsed into
    an index in which two entries have the same file name: it never
    returns normally.  It returns the duplicate-name error, with a content
    map that holds the first entry of every name, or it panics at an entry
    whose content is out of range. *)
Lemma Unmarshal_duplicate_name (input spare : list byte) (f f1 : File.t)
  (i j : nat) (ei ej : IndexEntry.t) :
  parse_structure input spare f = (inl tt, f1) ->
  (i < j)%nat ->
  File.Index f1 !! i = Some ei ->
  File.Index f1 !! j = Some ej ->
  IndexEntry.FileName ei = IndexEntry.FileName ej ->
  (exists name f',
     Unmarshal input spare f = (inr (Error (ErrDuplicate name)), f')
     /\ (exists e, first_named (File.Index f1) name = Some e
                   /\ File.Content f' !! name
                      = Some (entry_of (input ++ spare) e))
     /\ forall n x, File.Content f' !! n = Some x ->
                    exists e, first_named (File.Index f1) n = Some e
                              /\ x = entry_of (input ++ spare) e)
  \/ (exists e f',
        Unmarshal input spare f = (inr (Panic SliceBoundsOutOfRange), f')
        /\ e ∈ File.Index f1 /\ content_in_range input e = false).
Proof.
  intros Hparse Hij Hi Hj Hname.
  assert (~ NoDup (IndexEntry.FileName <$> File.Index f1)) as Hdup.
  { intros Hnodup.
    assert (i = j); [| lia].
    eapply (NoDup_lookup _ i j (IndexEntry.FileName ei) Hnodup);
      rewrite list_lookup_fmap; [rewrite Hi | rewrite Hj, Hname]; reflexivity. }
  unfold Unmarshal, mbind, M_bind, bind. rewrite Hparse.
  pose proof (for_each_load_entry_names input spare (File.Index f1) []
                (File.set_Content ∅ f1)) as H.
  unfold wp in H. unfold load_content, mbind, M_bind, bind, modify, get.
  cbn [File.Index File.set_Content] in *.
  destruct (for_each (File.Index f1) (load_entry input spare)
              (File.set_Content ∅ f1)) as [r f'].
  cbn [fst snd] in H.
  specialize (H ltac:(intros n; cbn; apply lookup_empty)).
  destruct r as [[] | [[ | | | name] | [ | ] | ]]; try (exfalso; exact H).
  { destruct H as (Hnodup & _). contradiction. }
  - left. destruct H as (a & Hseen & (b & Hsplit) & Hmap). cbn [app] in *.
    assert (forall n e, first_named a n = Some e ->
                        first_named (File.Index f1) n = Some e) as Hfirst.
    { intros n e He. rewrite Hsplit, first_named_app, He. reflexivity. }
    exists name, f'. split; [reflexivity |]. split.
    + destruct Hseen as (e & He). exists e.
      split; [apply Hfirst, He |]. rewrite Hmap, He. reflexivity.
    + intros n x Hx. rewrite Hmap in Hx.
      destruct (first_named a n) as [e |] eqn:He; [| discriminate].
      injection Hx as <-. exists e. split; [apply Hfirst, He | reflexivity].
  - right. destruct H as (e & He & Hout). exists e, f'. auto.
Qed.

(** Where the content of every entry lies inside the buffer, the code
    does what C7 asks for: when the structure of the input parses into
    an index in which two entries have the same file name, [Unmarshal]
    returns the duplicate-name error ("file named ... already exists in
    the archive, duplicates are not permitted") for a name whose first
    entry is in the content map; and every name of the content map holds
    the bytes of the first index entry of that name: no later entry was
    written over it. *)
Theorem duplicate_name_rejected (input spare : list byte) (f f1 : File.t)
  (i j : nat) (ei ej : IndexEntry.t) :
  parse_structure input spare f = (inl tt, f1) ->
  forallb (content_in_range input) (File.Index f1) = true ->
  (i < j)%nat ->
  File.Index f1 !! i = Some ei ->
  File.Index f1 !! j = Some ej ->
  IndexEntry.FileName ei = IndexEntry.FileName ej ->
  exists name f',
    Unmarshal input spare f = (inr (Error (ErrDuplicate name)), f')
    /\ (exists e, first_named (File.Index f1) name = Some e
                  /\ File.Content f' !! name = Some (entry_of input e))
    /\ forall n x, File.Content f' !! n = Some x ->
                   exists e, first_named (File.Index f1) n = Some e
                             /\ x = entry_of input e.
Proof.
  intros Hparse Hrange Hij Hi Hj Hname.
  rewrite forallb_forall in Hrange.
  assert (Hin : forall n e, first_named (File.Index f1) n = Some e ->
                            entry_of (input ++ spare) e = entry_of input e).
  { intros n e He. apply first_named_Some in He as (_ & He).
    apply entry_of_in_range, Hrange, list_elem_of_In, He. }
  destruct (Unmarshal_duplicate_name input spare f f1 i j ei ej
              Hparse Hij Hi Hj Hname)
    as [(name & f' & Hrun & (e & He & Hget) & Hall)
       | (e & f' & _ & He & Hout)].
  - exists name, f'. split; [exact Hrun |]. split.
    + exists e. split; [exact He |]. rewrite Hget, (Hin name e He).
      reflexivity.
    + intros n x Hx. destruct (Hall n x Hx) as (e' & He' & ->).
      exists e'. split; [exact He' | apply (Hin n e' He')].
  - apply list_elem_of_In in He. rewrite (Hrange e He) in Hout.
    discriminate.
Qed.

Lemma duplicate_name_rejected_witness :
  exists f',
    Unmarshal duplicate_name_input [] File.zero
    = (inr (Error (ErrDuplicate "a")), f')
    /\ File.Content f' !! "a"%string
       = Some (Entry.mk (list_byte_of_string "ab") false).
Proof.
  destruct (duplicate_name_rejected duplicate_name_input [] File.zero
              (snd (parse_structure duplicate_name_input [] File.zero))
              0 1
              (IndexEntry.mk 24 2 0 "a") (IndexEntry.mk 26 2 0 "a")
              ltac:(vm_compute; reflexivity)
              ltac:(vm_compute; reflexivity)
              ltac:(lia)
              ltac:(vm_compute; reflexivity)
              ltac:(vm_compute; reflexivity)
              ltac:(reflexivity))
    as (name & f' & Hrun & _).
  exists f'.
  assert (Unmarshal duplicate_name_input [] File.zero
          = (inr (Error (ErrDuplicate "a")),
             snd (Unmarshal duplicate_name_input [] File.zero))) as Hval
    by (vm_compute; reflexivity).
  rewrite Hrun in Hval. cbn [snd] in Hval. injection Hval as Hn.
  split; [rewrite Hrun, Hn; reflexivity |].
  apply (f_equal snd) in Hrun. cbn [snd] in Hrun. rewrite <- Hrun.
  vm_compute. reflexivity.
Defined.

(** C7 fails on the code.  In the archive whose index names ["a"] twice,
    the second time with a content offset of 100 and a content size of
    [0xFFFFFFFF], [Unmarshal] does not return the duplicate-name error:
    the loop slices the content of an entry before it tests its name, and
    the slice expression [input[100:99]] panics, whatever the capacity
    of the buffer.  This is the unchecked slice expression of C1. *)
Theorem duplicate_name_out_of_range_panics (spare : list byte) :
  fst (Unmarshal duplicate_name_out_of_range_input spare File.zero)
  = inr (Panic SliceBoundsOutOfRange)
  /\ File.Index
       (snd (Unmarshal duplicate_name_out_of_range_input spare File.zero))
     = [IndexEntry.mk 24 2 0 "a"; IndexEntry.mk 100 4294967295 0 "a"].
Proof.
  enough (exists f',
            Unmarshal duplicate_name_out_of_range_input spare File.zero
            = (inr (Panic SliceBoundsOutOfRange), f')
            /\ File.Index f'
               = [IndexEntry.mk 24 2 0 "a";
                  IndexEntry.mk 100 4294967295 0 "a"])
    as (f' & -> & Hindex) by (split; [reflexivity | exact Hindex]).
  unfold Unmarshal, mbind, M_bind, bind.
  rewrite parse_structure_spare.
  destruct (parse_structure duplicate_name_out_of_range_input [] File.zero)
    as [r f1] eqn:Hparse.
  vm_compute in Hparse. injection Hparse as <- <-.
  unfold load_content, mbind, M_bind, bind, modify, get.
  cbn [File.Index File.set_Content for_each].
  unfold mbind, M_bind, bind.
  unfold load_entry at 1. unfold mbind, M_bind, bind, go_slice, get.
  rewrite slice_checked_Some by (vm_compute; discriminate).
  cbv beta iota delta [ret].
  cbn [File.Content File.set_Content IndexEntry.FileName].
  rewrite lookup_empty. cbv beta iota delta [modify].
  rewrite load_entry_out_of_range by (right; vm_compute; reflexivity).
  eexists. split; reflexivity.
Qed.

(** ** C8: a signature cut short *)

Lemma sig_size_at_range (input : list byte) (p : Z) :
  0 <= sig_size_at input p < 2 ^ 32.
Proof.
  unfold sig_size_at, read_signatureEntryHeader. cbn.
  apply (be_uint_slice_range _ 4 8). lia.
Qed.

Lemma sig_entry_pos_ge (input : list byte) (k : nat) :
  forall c, c <= sig_entry_pos input c k.
Proof.
  induction k as [| k IH]; intros c; cbn [sig_entry_pos]; [lia |].
  pose proof (sig_size_at_range input c).
  specialize (IH (c + SignatureEntryHeaderLen + sig_size_at input c)).
  unfold SignatureEntryHeaderLen in *. lia.
Qed.

(** The signature loop, started at entry [i] and position [c], reads the
    [k] complete entries before the one that is cut short, and stops at
    the data of that one with the error of [parse]. *)
Lemma parse_signatures_truncated (input : list byte) (k : nat) :
  forall fuel i c f,
    (1 <= fuel)%nat -> len input - c < Z.of_nat fuel -> 0 <= c -> 0 <= i ->
    i + Z.of_nat k
      < SignaturesHeader.NumSignatures (File.SignaturesHeader f) < 2 ^ 32 ->
    sig_entry_pos input c k + SignatureEntryHeaderLen <= len input ->
    len input < sig_entry_pos input c k + SignatureEntryHeaderLen
                + sig_size_at input (sig_entry_pos input c k) ->
    wp (parse_signatures fuel input i c)
       (fun r f' =>
          r = inr (Error (ErrParsingFailed
                            (sig_entry_pos input c k + SignatureEntryHeaderLen)
                            RefusingToRead))
          /\ head_of f' = head_of f
          /\ exists sigs,
               File.Signatures f' = File.Signatures f ++ sigs
               /\ length sigs = k
               /\ Forall (fun s => len (Signature.Data s) = Signature.Size s)
                         sigs) f.
Proof.
  induction k as [| k IH]; intros fuel i c f Hfuel Hlen Hc Hi Hnum Hhdr Hcut;
    (destruct fuel as [| fuel]; [lia |]); cbn [sig_entry_pos] in *;
    cbn [parse_signatures].
  - wp_step. wp_step.
    destruct (Z.ltb_spec i
      (SignaturesHeader.NumSignatures (File.SignaturesHeader f))); [| lia].
    wp_step. wp_step; [lia |].
    wp_step. fold (sig_size_at input c). unfold int_of_uint32.
    wp_step; [| lia].
    split; [reflexivity |]. split; [reflexivity |].
    exists []. rewrite app_nil_r. auto.
  - pose proof (sig_size_at_range input c) as Hsize.
    pose proof (sig_entry_pos_ge input k
                  (c + SignatureEntryHeaderLen + sig_size_at input c)) as Hge.
    unfold SignatureEntryHeaderLen in *.
    wp_step. wp_step.
    destruct (Z.ltb_spec i
      (SignaturesHeader.NumSignatures (File.SignaturesHeader f))); [| lia].
    wp_step. wp_step; [lia |].
    wp_step. fold SignatureEntryHeaderLen. fold (sig_size_at input c).
    unfold int_of_uint32, SignatureEntryHeaderLen.
    wp_step; [lia |].
    wp_step. wp_step.
    replace (wrap32 (i + 1)) with (i + 1)
      by (unfold wrap32; rewrite Z.mod_small; lia).
    eapply wp_mono;
      [apply IH;
       first [lia | cbn [File.SignaturesHeader File.set_Signatures]; lia] |].
    cbn beta. intros r f' (Hr & Hh & sigs & Hsigs & Hk & Hall).
    split; [exact Hr |]. split; [exact Hh |].
    eexists (_ :: sigs). split; [| split; [cbn; rewrite Hk; reflexivity |]].
    + rewrite Hsigs. cbn. rewrite <- app_assoc. reflexivity.
    + constructor; [| exact Hall]. clear IH.
      unfold sig_size_at, read_signatureEntryHeader, SignatureEntryHeaderLen
        in *.
      cbn [signatureEntryHeader.Size Signature.Data Signature.Size] in *.
      rewrite len_slice by lia. lia.
Qed.

(** C8: when the data size declared by a signature entry exceeds the
    bytes that remain in the buffer, [Unmarshal] returns the error of the
    bounded read at the position of that entry's data ("parsing failed at
    position ...: refusing to read more bytes than present in input").  It
    does not panic, and the signatures it has appended to the [File] are
    the complete entries before that one, each with as many data bytes as
    it declares. *)
Theorem truncated_signature_rejected (input spare : list byte) (f : File.t)
  (k : nat) :
  Z.of_nat k < num_signatures_of input ->
  sig_entry_pos input first_sig_pos k + SignatureEntryHeaderLen
    <= len input ->
  len input < sig_entry_pos input first_sig_pos k + SignatureEntryHeaderLen
              + sig_size_at input (sig_entry_pos input first_sig_pos k) ->
  exists f',
    Unmarshal input spare f
    = (inr (Error (ErrParsingFailed
                     (sig_entry_pos input first_sig_pos k
                      + SignatureEntryHeaderLen) RefusingToRead)), f')
    /\ exists sigs,
         File.Signatures f' = File.Signatures f ++ sigs
         /\ length sigs = k
         /\ Forall (fun s => len (Signature.Data s) = Signature.Size s) sigs.
Proof.
  intros Hnum Hhdr Hcut.
  pose proof (sig_entry_pos_ge input k first_sig_pos) as Hge.
  unfold first_sig_pos, MarIDLen, OffsetToIndexLen, SignaturesHeaderLen,
    SignatureEntryHeaderLen in *.
  change (4 + 4 + 12) with 20 in *.
  assert (wp (Unmarshal input spare)
            (fun r f' =>
               r = inr (Error (ErrParsingFailed
                                 (sig_entry_pos input 20 k + 8)
                                 RefusingToRead))
               /\ exists sigs,
                    File.Signatures f' = File.Signatures f ++ sigs
                    /\ length sigs = k
                    /\ Forall (fun s => len (Signature.Data s)
                                        = Signature.Size s) sigs) f) as H.
  { unfold Unmarshal, parse_structure, MarIDLen, OffsetToIndexLen,
      SignaturesHeaderLen, AdditionalSectionsHeaderLen, IndexHeaderLen.
    change (4 + 4 + 12 + 4 + 4) with 28.
    wp_step.
    destruct (Z.ltb_spec (len input) 28) as [Hshort | Hlong]; [lia |].
    wp_step. wp_step; [lia |]. wp_step. wp_step.
    wp_step. wp_step; [lia |]. wp_step. wp_step.
    wp_step. wp_step; [lia |]. wp_step. wp_step.
    wp_step.
    change (0 + 4 + 4 + 12) with 20. change (0 + 4 + 4) with 8.
    eapply wp_mono; [apply (parse_signatures_truncated input k) |].
    - lia.
    - unfold len. lia.
    - lia.
    - lia.
    - cbn [File.SignaturesHeader File.set_SignaturesHeader].
      fold (num_signatures_of input).
      pose proof (be_uint_slice_range (slice input 8 20) 8 12 ltac:(lia))
        as Hrange.
      change (256 ^ (12 - 8)) with (2 ^ 32) in Hrange.
      change (be_uint (slice (slice input 8 20) 8 12))
        with (num_signatures_of input) in Hrange.
      lia.
    - exact Hhdr.
    - exact Hcut.
    - cbn beta. intros r f' (-> & _ & Hsigs). split; [reflexivity |].
      exact Hsigs. }
  unfold wp in H. destruct (Unmarshal input spare f) as [r f'].
  cbn [fst snd] in H. destruct H as (-> & Hsigs).
  exists f'. split; [reflexivity | exact Hsigs].
Qed.

Lemma truncated_signature_rejected_witness :
  exists f',
    Unmarshal cut_in_signature_data_input [] File.zero
    = (inr (Error (ErrParsingFailed 38 RefusingToRead)), f')
    /\ File.Signatures f'
       = [Signature.mk 1 2 "RSA-PKCS1-SHA1" (list_byte_of_string "ab")].
Proof.
  destruct (truncated_signature_rejected cut_in_signature_data_input []
              File.zero 1
              ltac:(vm_compute; reflexivity)
              ltac:(vm_compute; discriminate)
              ltac:(vm_compute; reflexivity))
    as (f' & Hrun & _).
  exists f'. split; [exact Hrun |].
  apply (f_equal snd) in Hrun. cbn [snd] in Hrun. rewrite <- Hrun.
  vm_compute. reflexivity.
Defined.

(** ** C9: [MarshalForSignature] only reads its [File] *)

Lemma marshal_entries_keeps_file (sigDataSize : Z)
  (index : list IndexEntry.t) :
  forall idxBuf output f,
    wp (marshal_entries index sigDataSize idxBuf output)
       (fun _ f' => f' = f) f.
Proof.
  induction index as [| idx index IH]; intros idxBuf output f;
    cbn [marshal_entries].
  { wp_step. reflexivity. }
  wp_step. wp_step. wp_step.
  apply wp_go_copy; [reflexivity |]. intros output' _. apply IH.
Qed.

Lemma MarshalForSignature_keeps_file (file : File.t) :
  snd (MarshalForSignature file) = file.
Proof.
  change (wp MarshalForSignature (fun _ f' => f' = file) file).
  unfold MarshalForSignature.
  wp_step. wp_step. wp_step.
  apply wp_make_bytes; [reflexivity |]. intros _.
  wp_step. wp_step. wp_step.
  apply wp_go_copy; [reflexivity |]. intros output1 _.
  wp_step. wp_step. wp_step.
  eapply wp_mono; [apply marshal_entries_keeps_file |].
  cbn beta. intros [[idxBuf output2] | x] f' ->; [| reflexivity].
  wp_step. wp_step.
  destruct (decide _); [| wp_step; reflexivity].
  wp_step. apply wp_go_copy; [reflexivity |]. intros output3 _.
  wp_step. reflexivity.
Qed.

(** C9: [MarshalForSignature] leaves every field of its [File] as it
    was, and a second run on the [File] the first run leaves behind ends
    as the first one did: with the same bytes, the same error or the same
    panic. *)
Theorem MarshalForSignature_pure (file : File.t) :
  snd (MarshalForSignature file) = file
  /\ fst (MarshalForSignature (snd (MarshalForSignature file)))
     = fst (MarshalForSignature file)
  /\ snd (MarshalForSignature (snd (MarshalForSignature file))) = file.
Proof.
  rewrite !MarshalForSignature_keeps_file. auto.
Qed.

(** ** C10: the MAR ID is not validated *)

Lemma same_shape_refl (f : File.t) : same_shape f f.
Proof. unfold same_shape. auto 10. Qed.

Lemma ends_alike_bind {E A B} (R : A -> A -> Prop) (S : B -> B -> Prop)
  (m1 m2 : M E A) (k1 k2 : A -> M E B) (f1 f2 : File.t) :
  ends_alike R (m1 f1) (m2 f2) ->
  (forall a1 a2 g1 g2, R a1 a2 -> same_shape g1 g2 ->
                       ends_alike S (k1 a1 g1) (k2 a2 g2)) ->
  ends_alike S ((m1 ≫= k1) f1) ((m2 ≫= k2) f2).
Proof.
  unfold mbind, M_bind, bind. intros (Hs & Hr) Hk.
  destruct (m1 f1) as [[a1 | x1] g1], (m2 f2) as [[a2 | x2] g2];
    cbn [fst snd] in *; try contradiction.
  - apply Hk; assumption.
  - split; assumption.
Qed.

Lemma ends_alike_ret {E A} (R : A -> A -> Prop) (a1 a2 : A) (f1 f2 : File.t) :
  R a1 a2 -> same_shape f1 f2 ->
  ends_alike R ((mret a1 : M E A) f1) ((mret a2 : M E A) f2).
Proof. intros Hr Hs. split; assumption. Qed.

Lemma ends_alike_abort {E A} (R : A -> A -> Prop) (x : Abort E)
  (f1 f2 : File.t) :
  same_shape f1 f2 -> ends_alike R (abort x f1) (abort x f2).
Proof. intros Hs. split; [exact Hs | reflexivity]. Qed.

Lemma ends_alike_get {E} (f1 f2 : File.t) :
  same_shape f1 f2 -> ends_alike (E := E) same_shape (get f1) (get f2).
Proof. intros Hs. split; exact Hs. Qed.

Lemma ends_alike_get_inv {E} (J : File.t -> Prop) (f1 f2 : File.t) :
  same_shape f1 f2 -> J f1 ->
  ends_alike (E := E) (fun a1 a2 => same_shape a1 a2 /\ J a1)
    (get f1) (get f2).
Proof. intros Hs HJ. split; [exact Hs | split; [exact Hs | exact HJ]]. Qed.

Lemma ends_alike_modify {E} (g1 g2 : File.t -> File.t) (f1 f2 : File.t) :
  same_shape (g1 f1) (g2 f2) ->
  ends_alike (E := E) (fun _ _ => True) (modify g1 f1) (modify g2 f2).
Proof. intros Hs. split; [exact Hs | exact I]. Qed.

Lemma ends_alike_mono {E A} (R R' : A -> A -> Prop)
  (x y : (A + Abort E) * File.t) :
  ends_alike R x y -> (forall a b, R a b -> R' a b) -> ends_alike R' x y.
Proof.
  intros (Hs & Hr) HR. split; [exact Hs |].
  destruct (fst x), (fst y); auto.
Qed.

(** The rule for [≫=] that also carries a fact [J] about the state of the
    first run. *)
Lemma ends_alike_bind_inv {E A B} (J : File.t -> Prop) (R : A -> A -> Prop)
  (S : B -> B -> Prop) (m1 m2 : M E A) (k1 k2 : A -> M E B)
  (f1 f2 : File.t) :
  ends_alike R (m1 f1) (m2 f2) ->
  J (snd (m1 f1)) ->
  (forall a1 a2 g1 g2, R a1 a2 -> same_shape g1 g2 -> J g1 ->
                       ends_alike S (k1 a1 g1) (k2 a2 g2)) ->
  ends_alike S ((m1 ≫= k1) f1) ((m2 ≫= k2) f2).
Proof.
  unfold mbind, M_bind, bind. intros (Hs & Hr) HJ Hk.
  destruct (m1 f1) as [[a1 | x1] g1], (m2 f2) as [[a2 | x2] g2];
    cbn [fst snd] in *; try contradiction.
  - apply Hk; assumption.
  - split; assumption.
Qed.

Lemma head_of_OffsetToIndex (g f : File.t) :
  head_of g = head_of f -> File.OffsetToIndex g = File.OffsetToIndex f.
Proof. unfold head_of. intros [= _ H _]. exact H. Qed.

Lemma parse_at_state (input : list byte) (c n : Z) (f : File.t) :
  snd (parse_at input c n f) = f.
Proof. unfold parse_at. destruct (parse input c n); reflexivity. Qed.

Section MagicId.

(** Two buffers that differ at most in their first four bytes, with the
    same spare capacity. *)
Variables (id id' rest spare : list byte).
Hypothesis (Hid : length id = 4%nat) (Hid' : length id' = 4%nat).

Let input1 := id ++ rest.
Let input2 := id' ++ rest.

Lemma magic_len : len input1 = len input2.
Proof. unfold input1, input2, len. rewrite !length_app. lia. Qed.

Lemma magic_length : length input1 = length input2.
Proof. unfold input1, input2. rewrite !length_app. lia. Qed.

Lemma magic_slice (lo hi : Z) :
  4 <= lo -> slice input1 lo hi = slice input2 lo hi.
Proof.
  intros Hlo. unfold input1, input2.
  rewrite !slice_app_r by (unfold len; lia).
  unfold len. rewrite Hid, Hid'. reflexivity.
Qed.

Lemma magic_slice_spare (lo hi : Z) :
  4 <= lo -> slice (input1 ++ spare) lo hi = slice (input2 ++ spare) lo hi.
Proof.
  intros Hlo. unfold input1, input2. rewrite <- !app_assoc.
  rewrite (slice_app_r id), (slice_app_r id') by (unfold len; lia).
  unfold len. rewrite Hid, Hid'. reflexivity.
Qed.

Lemma magic_parse_at (c n : Z) (f1 f2 : File.t) :
  4 <= c -> same_shape f1 f2 ->
  ends_alike eq (parse_at input1 c n f1) (parse_at input2 c n f2).
Proof.
  intros Hc Hs. unfold parse_at, parse.
  rewrite magic_len, (magic_slice c (c + n) Hc).
  destruct (len input2 <? c + n); split; cbn; auto.
Qed.

Lemma magic_parse_at_any (c n : Z) (f1 f2 : File.t) :
  same_shape f1 f2 ->
  ends_alike (fun _ _ => True)
    (parse_at input1 c n f1) (parse_at input2 c n f2).
Proof.
  intros Hs. unfold parse_at, parse. rewrite magic_len.
  destruct (len input2 <? c + n); split; cbn; auto.
Qed.

Lemma magic_go_slice (lo hi : Z) (f1 f2 : File.t) :
  4 <= lo -> same_shape f1 f2 ->
  ends_alike (E := DecodeError) eq
    (go_slice input1 spare lo hi f1) (go_slice input2 spare lo hi f2).
Proof.
  intros Hlo Hs. unfold go_slice, slice_checked.
  rewrite magic_len, (magic_slice_spare lo hi Hlo).
  destruct (_ && _); split; cbn; auto.
Qed.

Lemma magic_go_slice_any (lo hi : Z) (f1 f2 : File.t) :
  same_shape f1 f2 ->
  ends_alike (E := DecodeError) (fun _ _ => True)
    (go_slice input1 spare lo hi f1) (go_slice input2 spare lo hi f2).
Proof.
  intros Hs. unfold go_slice, slice_checked. rewrite magic_len.
  destruct (_ && _); split; cbn; auto.
Qed.

Lemma magic_parse_signatures (fuel : nat) :
  forall i c f1 f2,
    4 <= c -> same_shape f1 f2 ->
    ends_alike (fun c1 c2 => c1 = c2 /\ c <= c1)
      (parse_signatures fuel input1 i c f1)
      (parse_signatures fuel input2 i c f2).
Proof.
  induction fuel as [| fuel IH]; intros i c f1 f2 Hc Hs;
    cbn [parse_signatures].
  { apply ends_alike_abort, Hs. }
  eapply ends_alike_bind; [apply ends_alike_get, Hs |].
  intros a1 a2 g1 g2 Ha Hg.
  assert (File.SignaturesHeader a1 = File.SignaturesHeader a2) as ->
    by apply Ha.
  destruct (i <? _); [| apply ends_alike_ret; auto with lia].
  eapply ends_alike_bind; [apply magic_parse_at; assumption |].
  intros bs ? h1 h2 <- Hh.
  pose proof (be_uint_slice_range bs 4 8 ltac:(lia)) as Hsize.
  eapply ends_alike_bind;
    [apply magic_parse_at;
     [unfold SignatureEntryHeaderLen; lia | assumption] |].
  intros data ? h3 h4 <- Hh'.
  eapply ends_alike_bind.
  { apply ends_alike_modify. unfold same_shape in *. cbn.
    destruct Hh' as (? & ? & ? & -> & ? & ? & ? & ?). auto 10. }
  intros _ _ h5 h6 _ Hh''.
  unfold SignatureEntryHeaderLen, int_of_uint32 in *.
  cbn [read_signatureEntryHeader signatureEntryHeader.Size] in *.
  eapply ends_alike_mono; [apply IH; [lia | assumption] |].
  cbn beta. intros a b (-> & Hab). split; [reflexivity | lia].
Qed.

Lemma magic_store_block (BlockID : Z) (Data : list byte) (f1 f2 : File.t) :
  same_shape f1 f2 ->
  ends_alike (fun _ _ => True)
    (store_block BlockID Data f1) (store_block BlockID Data f2).
Proof.
  intros Hs. unfold store_block.
  destruct (BlockID =? BlockIDProductInfo).
  - apply ends_alike_modify. unfold same_shape in *. cbn. tauto.
  - apply ends_alike_ret; auto.
Qed.

Lemma magic_parse_sections (fuel : nat) :
  forall i c f1 f2,
    4 <= c -> same_shape f1 f2 ->
    ends_alike (fun c1 c2 => c1 = c2 /\ c <= c1)
      (parse_sections fuel input1 i c f1)
      (parse_sections fuel input2 i c f2).
Proof.
  induction fuel as [| fuel IH]; intros i c f1 f2 Hc Hs;
    cbn [parse_sections].
  { apply ends_alike_abort, Hs. }
  eapply ends_alike_bind; [apply ends_alike_get, Hs |].
  intros a1 a2 g1 g2 Ha Hg.
  assert (File.AdditionalSectionsHeader a1
          = File.AdditionalSectionsHeader a2) as -> by apply Ha.
  destruct (i <? _); [| apply ends_alike_ret; auto with lia].
  eapply ends_alike_bind; [apply magic_parse_at; assumption |].
  intros bs ? h1 h2 <- Hh.
  pose proof (Z.mod_pos_bound
    (additionalSectionEntryHeader.BlockSize
       (read_additionalSectionEntryHeader bs)
     - AdditionalSectionsEntryHeaderLen) (2 ^ 32) ltac:(lia)) as Hsize.
  eapply ends_alike_bind;
    [apply magic_parse_at;
     [unfold AdditionalSectionsEntryHeaderLen; lia | assumption] |].
  intros data ? h3 h4 <- Hh'.
  eapply ends_alike_bind; [apply magic_store_block, Hh' |].
  intros _ _ h5 h6 _ Hh''.
  eapply ends_alike_bind.
  { apply ends_alike_modify. unfold same_shape in *. cbn.
    destruct Hh'' as (? & ? & ? & ? & ? & -> & ? & ?). auto 10. }
  intros _ _ h7 h8 _ Hh3.
  unfold AdditionalSectionsEntryHeaderLen, int_of_uint32, wrap32 in *.
  eapply ends_alike_mono; [apply IH; [lia | assumption] |].
  cbn beta. intros a b (-> & Hab). split; [reflexivity | lia].
Qed.

Lemma magic_parse_index (fuel : nat) :
  forall c f1 f2,
    4 <= c -> same_shape f1 f2 ->
    ends_alike eq (parse_index fuel input1 spare c f1)
                  (parse_index fuel input2 spare c f2).
Proof.
  induction fuel as [| fuel IH]; intros c f1 f2 Hc Hs; cbn [parse_index].
  { apply ends_alike_abort, Hs. }
  eapply ends_alike_bind; [apply ends_alike_get, Hs |].
  intros a1 a2 g1 g2 Ha Hg.
  assert (File.SignaturesHeader a1 = File.SignaturesHeader a2) as ->
    by apply Ha.
  destruct (_ <=? c); [apply ends_alike_ret; auto |].
  eapply ends_alike_bind; [apply magic_parse_at; assumption |].
  intros bs ? h1 h2 <- Hh. unfold IndexEntryHeaderLen.
  rewrite magic_len.
  eapply ends_alike_bind; [apply magic_go_slice; [lia | assumption] |].
  intros tail ? h3 h4 <- Hh'.
  pose proof (bytes_Index_range tail x00) as Hidx.
  pose proof (len_nonneg tail) as Htail.
  destruct (Z.ltb_spec (bytes_Index tail x00) 0);
    [apply ends_alike_abort; assumption |].
  eapply ends_alike_bind; [apply magic_go_slice; [lia | assumption] |].
  intros name ? h5 h6 <- Hh''.
  eapply ends_alike_bind.
  { apply ends_alike_modify. unfold same_shape in *. cbn.
    destruct Hh'' as (? & ? & ? & ? & ? & ? & -> & ?). auto 10. }
  intros _ _ h7 h8 _ Hh3.
  apply IH; [lia | assumption].
Qed.

Lemma magic_load_entry (e : IndexEntry.t) (f1 f2 : File.t) :
  same_shape f1 f2 ->
  ends_alike (fun _ _ => True)
    (load_entry input1 spare e f1) (load_entry input2 spare e f2).
Proof.
  intros Hs. unfold load_entry.
  eapply ends_alike_bind; [apply magic_go_slice_any, Hs |].
  intros d1 d2 g1 g2 _ Hg.
  eapply ends_alike_bind; [apply ends_alike_get, Hg |].
  intros a1 a2 h1 h2 Ha Hh.
  assert (dom (File.Content a1) = dom (File.Content a2)) as Hdom
    by apply Ha.
  destruct (File.Content a1 !! IndexEntry.FileName e) eqn:H1,
           (File.Content a2 !! IndexEntry.FileName e) eqn:H2.
  - apply ends_alike_abort, Hh.
  - apply not_elem_of_dom in H2. rewrite <- Hdom in H2.
    apply not_elem_of_dom in H2. congruence.
  - apply not_elem_of_dom in H1. rewrite Hdom in H1.
    apply not_elem_of_dom in H1. congruence.
  - apply ends_alike_modify. unfold same_shape in *. cbn.
    rewrite !dom_insert_L.
    destruct Hh as (? & ? & ? & ? & ? & ? & ? & ->). auto 10.
Qed.

Lemma magic_for_each_load_entry (index : list IndexEntry.t) :
  forall f1 f2,
    same_shape f1 f2 ->
    ends_alike (fun _ _ => True)
      (for_each index (load_entry input1 spare) f1)
      (for_each index (load_entry input2 spare) f2).
Proof.
  induction index as [| e index IH]; intros f1 f2 Hs; cbn [for_each].
  { apply ends_alike_ret; auto. }
  eapply ends_alike_bind; [apply magic_load_entry, Hs |].
  intros _ _ g1 g2 _ Hg. apply IH, Hg.
Qed.

Lemma magic_load_content (f1 f2 : File.t) :
  same_shape f1 f2 ->
  ends_alike (fun _ _ => True)
    (load_content input1 spare f1) (load_content input2 spare f2).
Proof.
  intros Hs. unfold load_content.
  eapply ends_alike_bind.
  { apply ends_alike_modify. unfold same_shape in *. cbn. tauto. }
  intros _ _ g1 g2 _ Hg.
  eapply ends_alike_bind; [apply ends_alike_get, Hg |].
  intros a1 a2 h1 h2 Ha Hh.
  assert (File.Index a1 = File.Index a2) as -> by apply Ha.
  apply magic_for_each_load_entry, Hh.
Qed.

Lemma magic_parse_structure (f1 f2 : File.t) :
  same_shape f1 f2 ->
  ends_alike (fun _ _ => True)
    (parse_structure input1 spare f1) (parse_structure input2 spare f2).
Proof.
  intros Hs. unfold parse_structure.
  rewrite magic_len, magic_length.
  destruct (len input2 <? _); [apply ends_alike_abort, Hs |].
  unfold MarIDLen, OffsetToIndexLen, SignaturesHeaderLen,
    AdditionalSectionsHeaderLen, IndexHeaderLen.
  set (J := fun g : File.t => 0 <= File.OffsetToIndex g).
  eapply ends_alike_bind; [apply magic_parse_at_any, Hs |].
  intros m1 m2 g1 g2 _ Hg.
  eapply ends_alike_bind.
  { apply ends_alike_modify. unfold same_shape in *. cbn. tauto. }
  intros _ _ g3 g4 _ Hg3.
  eapply ends_alike_bind; [apply magic_parse_at; [lia | exact Hg3] |].
  intros bs ? g5 g6 <- Hg5.
  eapply (ends_alike_bind_inv J).
  { apply ends_alike_modify. unfold same_shape in *. cbn. tauto. }
  { apply (be_uint_slice_range bs 0 4). lia. }
  intros _ _ g7 g8 _ Hg7 HJ7.
  eapply (ends_alike_bind_inv J);
    [apply magic_parse_at; [lia | exact Hg7]
    | rewrite parse_at_state; exact HJ7 |].
  intros bs' ? g9 g10 <- Hg9 HJ9.
  eapply (ends_alike_bind_inv J).
  { apply ends_alike_modify. unfold same_shape in *. cbn. tauto. }
  { exact HJ9. }
  intros _ _ g11 g12 _ Hg11 HJ11.
  eapply (ends_alike_bind_inv J);
    [apply magic_parse_signatures; [lia | exact Hg11] | |].
  { pose proof (parse_signatures_spec input1 (S (length input2)) 0
                  (0 + 4 + 4 + 12) g11 ltac:(lia)
                  ltac:(rewrite magic_len; unfold len; lia) ltac:(lia))
      as (Hh & _).
    unfold J. rewrite (head_of_OffsetToIndex _ _ Hh). exact HJ11. }
  intros c1 ? g13 g14 (<- & Hc1) Hg13 HJ13.
  eapply (ends_alike_bind_inv J);
    [apply magic_parse_at; [lia | exact Hg13]
    | rewrite parse_at_state; exact HJ13 |].
  intros bs2 ? g15 g16 <- Hg15 HJ15.
  eapply (ends_alike_bind_inv J).
  { apply ends_alike_modify. unfold same_shape in *. cbn. tauto. }
  { exact HJ15. }
  intros _ _ g17 g18 _ Hg17 HJ17.
  eapply (ends_alike_bind_inv J);
    [apply magic_parse_sections; [lia | exact Hg17] | |].
  { pose proof (parse_sections_spec input1 (S (length input2)) 0
                  (c1 + 4) g17 ltac:(lia)
                  ltac:(rewrite magic_len; unfold len; lia) ltac:(lia))
      as (Hh & _).
    unfold J. rewrite (head_of_OffsetToIndex _ _ Hh). exact HJ17. }
  intros c2 ? g19 g20 (<- & Hc2) Hg19 HJ19.
  eapply ends_alike_bind; [apply (ends_alike_get_inv J); assumption |].
  intros a1 a2 g21 g22 (Ha & HJa) Hg21.
  assert (File.OffsetToIndex a1 = File.OffsetToIndex a2) as Hoff
    by apply Ha.
  unfold J in HJa. rewrite Hoff in HJa. rewrite Hoff. clear Hoff.
  unfold int_of_uint32.
  eapply ends_alike_bind; [apply magic_parse_at_any, Hg21 |].
  intros h1 h2 g23 g24 _ Hg23.
  eapply ends_alike_bind.
  { apply ends_alike_modify. unfold same_shape in *. cbn. tauto. }
  intros _ _ g25 g26 _ Hg25.
  eapply ends_alike_mono; [apply magic_parse_index; [lia | exact Hg25] |].
  auto.
Qed.

Lemma magic_Unmarshal (f : File.t) :
  ends_alike (fun _ _ => True)
    (Unmarshal input1 spare f) (Unmarshal input2 spare f).
Proof.
  unfold Unmarshal.
  eapply ends_alike_bind;
    [apply magic_parse_structure, same_shape_refl |].
  intros _ _ g1 g2 _ Hg. apply magic_load_content, Hg.
Qed.

End MagicId.

(** C10: [Unmarshal] never looks at the four leading bytes.  For two
    buffers that differ at most in those bytes it ends the same way
    (success, the same error at the same position, or the same panic) and
    leaves [File]s that differ at most in the MAR ID, the index header
    and the content bytes; and whenever the buffer is not refused as too
    small, the MAR ID of the [File] is those four bytes as a string,
    whatever they are. *)
Theorem magic_id_not_validated (id id' rest spare : list byte)
  (f : File.t) :
  length id = 4%nat -> length id' = 4%nat ->
  fst (Unmarshal (id ++ rest) spare f) = fst (Unmarshal (id' ++ rest) spare f)
  /\ same_shape (snd (Unmarshal (id ++ rest) spare f))
                (snd (Unmarshal (id' ++ rest) spare f))
  /\ (fst (Unmarshal (id ++ rest) spare f) <> inr (Error ErrTooSmall) ->
      File.MarID (snd (Unmarshal (id ++ rest) spare f))
      = string_of_list_byte id).
Proof.
  intros Hid Hid'.
  destruct (magic_Unmarshal id id' rest spare Hid Hid' f) as (Hs & Hr).
  split; [| split; [exact Hs |]].
  - destruct (fst (Unmarshal (id ++ rest) spare f)) as [[] | x],
             (fst (Unmarshal (id' ++ rest) spare f)) as [[] | y];
      try contradiction; congruence.
  - intros Hne. pose proof (Unmarshal_spec (id ++ rest) spare f) as H.
    unfold wp in H. destruct H as [(He & _) | (_ & Hh & _)];
      [contradiction |].
    unfold head_of, head_from in Hh. injection Hh as -> _ _.
    rewrite slice_app_l by (unfold len; lia).
    rewrite slice_all by (unfold len; lia). reflexivity.
Qed.

Lemma magic_id_not_validated_witness :
  fst (Unmarshal (list_byte_of_string "MAR1"
                  ++ drop 4 duplicate_name_input) [] File.zero)
  = fst (Unmarshal (list_byte_of_string "ZIP!"
                    ++ drop 4 duplicate_name_input) [] File.zero)
  /\ File.MarID (snd (Unmarshal (list_byte_of_string "ZIP!"
                                 ++ drop 4 xz_magic_plus_one_input)
                                [] File.zero))
     = "ZIP!"%string.
Proof.
  split.
  - apply (magic_id_not_validated (list_byte_of_string "MAR1")
             (list_byte_of_string "ZIP!") (drop 4 duplicate_name_input)
             [] File.zero eq_refl eq_refl).
  - apply (magic_id_not_validated (list_byte_of_string "ZIP!")
             (list_byte_of_string "MAR1") (drop 4 xz_magic_plus_one_input)
             [] File.zero eq_refl eq_refl).
    vm_compute. discriminate.
Defined.

(** * Further properties of the codec *)

(** ** More on slices and big-endian integers *)

Lemma lookup_slice {A} (s : list A) (lo hi : Z) (j : nat) :
  0 <= lo ->
  slice s lo hi !! j
  = if decide (Z.of_nat j < hi - lo) then s !! (Z.to_nat lo + j)%nat
    else None.
Proof.
  intros Hlo. unfold slice. destruct (decide (Z.of_nat j < hi - lo)).
  - rewrite lookup_take_lt by lia. apply lookup_drop.
  - apply lookup_take_ge. lia.
Qed.

Lemma slice_slice {A} (s : list A) (a b lo hi : Z) :
  0 <= a -> 0 <= lo -> hi <= b - a ->
  slice (slice s a b) lo hi = slice s (a + lo) (a + hi).
Proof.
  intros Ha Hlo Hhi. apply list_eq. intros j.
  rewrite !lookup_slice by lia.
  destruct (decide (Z.of_nat j < hi - lo)),
           (decide (Z.of_nat j < a + hi - (a + lo))); try lia;
    [| reflexivity].
  destruct (decide (Z.of_nat (Z.to_nat lo + j) < b - a)); [| lia].
  f_equal. lia.
Qed.

Lemma slice_split {A} (s : list A) (lo mid hi : Z) :
  0 <= lo -> lo <= mid -> mid <= hi ->
  slice s lo mid ++ slice s mid hi = slice s lo hi.
Proof.
  intros Hlo Hmid Hhi. unfold slice.
  replace (Z.to_nat (hi - lo))
    with (Z.to_nat (mid - lo) + Z.to_nat (hi - mid))%nat by lia.
  rewrite <- take_take_drop. f_equal. rewrite drop_drop. f_equal. f_equal.
  lia.
Qed.

Lemma slice_empty {A} (s : list A) (lo : Z) : slice s lo lo = [].
Proof. unfold slice. rewrite Z.sub_diag. reflexivity. Qed.

Lemma byte_of_to_Z (b : byte) : byte_of_Z (byte_to_Z b) = b.
Proof.
  unfold byte_of_Z, byte_to_Z. pose proof (Byte.to_N_bounded b).
  rewrite Z.mod_small by lia. rewrite N2Z.id, Byte.of_to_N. reflexivity.
Qed.

Lemma be_uint_snoc (bs : list byte) (b : byte) :
  be_uint (bs ++ [b]) = be_uint bs * 256 + byte_to_Z b.
Proof. unfold be_uint. rewrite fold_left_app. reflexivity. Qed.

Lemma byte_of_Z_mod (z : Z) : byte_of_Z (z mod 256) = byte_of_Z z.
Proof. unfold byte_of_Z. rewrite Z.mod_mod by lia. reflexivity. Qed.

(** Writing an integer read from [n] bytes gives those bytes back. *)
Lemma put_be_be_uint (bs : list byte) :
  put_be (length bs) (be_uint bs) = bs.
Proof.
  induction bs as [| b bs IH] using rev_ind; [reflexivity |].
  rewrite length_app, Nat.add_comm. cbn [length Nat.add put_be].
  rewrite be_uint_snoc. pose proof (byte_to_Z_range b).
  replace ((be_uint bs * 256 + byte_to_Z b) / 256) with (be_uint bs)
    by (apply Z.div_unique with (r := byte_to_Z b); lia).
  rewrite IH. f_equal. f_equal.
  rewrite <- byte_of_Z_mod.
  replace ((be_uint bs * 256 + byte_to_Z b) mod 256) with (byte_to_Z b)
    by (apply Z.mod_unique with (q := be_uint bs); lia).
  apply byte_of_to_Z.
Qed.

Lemma length_put_be (n : nat) (z : Z) : length (put_be n z) = n.
Proof.
  revert z. induction n as [| n IH]; intros z; cbn [put_be]; [reflexivity |].
  rewrite length_app, IH. cbn. lia.
Qed.

Lemma byte_to_of_Z (z : Z) : byte_to_Z (byte_of_Z z) = z mod 256.
Proof.
  unfold byte_of_Z, byte_to_Z.
  pose proof (Z.mod_pos_bound z 256 ltac:(lia)) as Hz.
  destruct (Byte.of_N (Z.to_N (z mod 256))) as [b |] eqn:Hb.
  - apply Byte.to_of_N in Hb. rewrite Hb. lia.
  - pose proof (Byte.to_of_N_option_map (Z.to_N (z mod 256))) as H.
    rewrite Hb in H. cbn in H.
    destruct (N.leb_spec (Z.to_N (z mod 256)) 255); [discriminate | lia].
Qed.

(** Reading the [n] bytes written for an integer gives it back, on [n]
    bytes. *)
Lemma be_uint_put_be (n : nat) (z : Z) :
  be_uint (put_be n z) = z mod 256 ^ Z.of_nat n.
Proof.
  revert z. induction n as [| n IH]; intros z; cbn [put_be].
  { change (256 ^ Z.of_nat 0) with 1. rewrite Z.mod_1_r. reflexivity. }
  rewrite be_uint_snoc, IH, byte_to_of_Z.
  rewrite Nat2Z.inj_succ, Z.pow_succ_r by lia.
  pose proof (Z.pow_pos_nonneg 256 (Z.of_nat n) ltac:(lia) ltac:(lia)).
  rewrite Z.rem_mul_r by lia. lia.
Qed.

Lemma put_uint32_read (bs : list byte) (lo : Z) :
  0 <= lo -> lo + 4 <= len bs ->
  put_uint32 (be_uint (slice bs lo (lo + 4))) = slice bs lo (lo + 4).
Proof.
  intros Hlo Hhi. unfold put_uint32.
  replace 4%nat with (length (slice bs lo (lo + 4))).
  - apply put_be_be_uint.
  - pose proof (len_slice bs lo (lo + 4) Hlo ltac:(lia) Hhi) as H.
    unfold len in H. lia.
Qed.

Lemma put_uint64_read (bs : list byte) (lo : Z) :
  0 <= lo -> lo + 8 <= len bs ->
  put_uint64 (be_uint (slice bs lo (lo + 8))) = slice bs lo (lo + 8).
Proof.
  intros Hlo Hhi. unfold put_uint64.
  replace 8%nat with (length (slice bs lo (lo + 8))).
  - apply put_be_be_uint.
  - pose proof (len_slice bs lo (lo + 8) Hlo ltac:(lia) Hhi) as H.
    unfold len in H. lia.
Qed.

(** ** The scan for the zero byte *)

Lemma bytes_Index_found (s : list byte) (b : byte) :
  0 <= bytes_Index s b ->
  s !! Z.to_nat (bytes_Index s b) = Some b
  /\ b ∉ take (Z.to_nat (bytes_Index s b)) s.
Proof.
  induction s as [| c s IH]; cbn [bytes_Index]; [lia |].
  destruct (decide (c = b)) as [-> | Hne].
  { intros _. split; [reflexivity | apply not_elem_of_nil]. }
  destruct (Z.ltb_spec (bytes_Index s b) 0) as [Hneg | Hpos]; [lia |].
  intros _. destruct (IH Hpos) as (Hget & Hnot).
  replace (Z.to_nat (bytes_Index s b + 1))
    with (S (Z.to_nat (bytes_Index s b))) by lia.
  split; [exact Hget |]. cbn [take]. rewrite not_elem_of_cons.
  split; [congruence | exact Hnot].
Qed.

Lemma bytes_Index_missing (s : list byte) (b : byte) :
  bytes_Index s b < 0 <-> b ∉ s.
Proof.
  induction s as [| c s IH]; cbn [bytes_Index].
  { split; [intros _; apply not_elem_of_nil | lia]. }
  rewrite not_elem_of_cons.
  destruct (decide (c = b)) as [-> | Hne]; [split; [lia | tauto] |].
  destruct (Z.ltb_spec (bytes_Index s b) 0) as [Hneg | Hpos].
  - split; [intros _; split; [congruence | apply IH; lia] | lia].
  - split; [lia |]. intros (_ & Hnot). apply IH in Hnot. lia.
Qed.
(** ** What the loops of [Unmarshal] leave in the [File] *)

Lemma File_set_Signatures_same (f : File.t) :
  File.set_Signatures (File.Signatures f ++ []) f = f.
Proof. rewrite app_nil_r. destruct f. reflexivity. Qed.

(** The signature loop, when it ends normally: it has appended the
    announced number of signatures, each with as many data bytes as it
    declares and with the name of its algorithm, and the bytes it has
    walked over are those signatures, headers and data. *)
Lemma parse_signatures_success (input : list byte) (fuel : nat) :
  forall i c f,
    0 <= c <= len input ->
    0 <= i <= SignaturesHeader.NumSignatures (File.SignaturesHeader f) ->
    SignaturesHeader.NumSignatures (File.SignaturesHeader f) < 2 ^ 32 ->
    wp (parse_signatures fuel input i c)
       (fun r f' =>
          match r with
          | inl c' =>
              exists sigs,
                f' = File.set_Signatures (File.Signatures f ++ sigs) f
                /\ Forall signature_parsed sigs
                /\ i + Z.of_nat (length sigs)
                   = SignaturesHeader.NumSignatures (File.SignaturesHeader f)
                /\ c <= c' <= len input
                /\ slice input c c' = concat (map signature_bytes sigs)
          | inr _ => True
          end) f.
Proof.
  induction fuel as [| fuel IH]; intros i c f Hc Hi Hnum;
    cbn [parse_signatures].
  { wp_step. exact I. }
  wp_step. wp_step.
  destruct (Z.ltb_spec i
    (SignaturesHeader.NumSignatures (File.SignaturesHeader f)))
    as [Hlt | Hge].
  2: { wp_step. exists []. rewrite File_set_Signatures_same.
       cbn [length concat map]. rewrite slice_empty.
       repeat split; try constructor; lia. }
  wp_step. wp_step; [exact I |].
  unfold SignatureEntryHeaderLen in *.
  set (hdr := slice input c (c + 8)).
  assert (len hdr = 8) as Hhdr
    by (unfold hdr; rewrite len_slice by lia; lia).
  pose proof (be_uint_slice_range hdr 0 4 ltac:(lia)) as Halg.
  pose proof (be_uint_slice_range hdr 4 8 ltac:(lia)) as Hsize.
  change (256 ^ (4 - 0)) with (2 ^ 32) in Halg.
  change (256 ^ (8 - 4)) with (2 ^ 32) in Hsize.
  cbn [read_signatureEntryHeader signatureEntryHeader.Size
       signatureEntryHeader.AlgorithmID].
  unfold int_of_uint32.
  wp_step. wp_step; [exact I |].
  wp_step. wp_step.
  replace (wrap32 (i + 1)) with (i + 1)
    by (unfold wrap32; rewrite Z.mod_small; lia).
  set (size := be_uint (slice hdr 4 8)) in *.
  set (sig := Signature.mk _ _ _ _).
  eapply wp_mono;
    [apply IH; cbn [File.SignaturesHeader File.set_Signatures]; lia |].
  cbn beta. intros [c' |] f'; [| exact (fun H => H)].
  intros (sigs & -> & Hall & Hcount & Hc' & Hbytes).
  cbn [File.SignaturesHeader File.set_Signatures File.Signatures] in *.
  exists (sig :: sigs). split; [| split; [| split; [| split]]].
  - cbn [File.set_Signatures File.MarID File.OffsetToIndex
         File.ProductInformation File.SignaturesHeader
         File.AdditionalSectionsHeader File.AdditionalSections
         File.IndexHeader File.Index File.Content].
    rewrite <- app_assoc. reflexivity.
  - constructor; [| exact Hall].
    unfold signature_parsed, sig.
    cbn [Signature.AlgorithmID Signature.Size Signature.Data
         Signature.Algorithm].
    rewrite len_slice by lia. repeat split; lia.
  - cbn [length]. lia.
  - lia.
  - cbn [map concat]. rewrite <- Hbytes.
    rewrite <- (slice_split input c (c + 8 + size) c') by lia. f_equal.
    unfold signature_bytes, marshal_signature, sig.
    cbn [Signature.AlgorithmID Signature.Size Signature.Data].
    rewrite <- (slice_split input c (c + 8) (c + 8 + size)) by lia.
    f_equal.
    rewrite <- (slice_split input c (c + 4) (c + 8)) by lia.
    unfold size, hdr. rewrite !slice_slice by lia.
    replace (c + 0) with c by lia. replace (c + 4 + 4) with (c + 8) by lia.
    f_equal.
    + symmetry. apply (put_uint32_read input c); lia.
    + replace (c + 8) with (c + 4 + 4) by lia.
      symmetry. apply (put_uint32_read input (c + 4)); lia.
Qed.

Lemma File_set_sections_same (f : File.t) :
  File.set_ProductInformation (File.ProductInformation f)
    (File.set_AdditionalSections (File.AdditionalSections f ++ []) f) = f.
Proof. rewrite app_nil_r. destruct f. reflexivity. Qed.

(** The sections loop, when it ends normally: it has appended the
    announced number of sections, each with [BlockSize - 8] data bytes (on
    32 bits); the product information is that of the last product
    information block; and the bytes it has walked over are those
    sections, as [MarshalForSignature] writes them. *)
Lemma parse_sections_success (input : list byte) (fuel : nat) :
  forall i c f,
    0 <= c <= len input ->
    0 <= i <= AdditionalSectionsHeader.NumAdditionalSections
                (File.AdditionalSectionsHeader f) ->
    AdditionalSectionsHeader.NumAdditionalSections
      (File.AdditionalSectionsHeader f) < 2 ^ 32 ->
    wp (parse_sections fuel input i c)
       (fun r f' =>
          match r with
          | inl c' =>
              exists secs,
                f' = File.set_ProductInformation
                       (last_product_information secs
                          (File.ProductInformation f))
                       (File.set_AdditionalSections
                          (File.AdditionalSections f ++ secs) f)
                /\ Forall section_parsed secs
                /\ i + Z.of_nat (length secs)
                   = AdditionalSectionsHeader.NumAdditionalSections
                       (File.AdditionalSectionsHeader f)
                /\ c <= c' <= len input
                /\ slice input c c' = concat (map marshal_section secs)
          | inr _ => True
          end) f.
Proof.
  induction fuel as [| fuel IH]; intros i c f Hc Hi Hnum;
    cbn [parse_sections].
  { wp_step. exact I. }
  wp_step. wp_step.
  destruct (Z.ltb_spec i
    (AdditionalSectionsHeader.NumAdditionalSections
       (File.AdditionalSectionsHeader f))) as [Hlt | Hge].
  2: { wp_step. exists []. cbn [last_product_information fold_left].
       rewrite File_set_sections_same. cbn [length concat map].
       rewrite slice_empty. repeat split; try constructor; lia. }
  wp_step. wp_step; [exact I |].
  unfold AdditionalSectionsEntryHeaderLen in *.
  set (hdr := slice input c (c + 8)).
  assert (len hdr = 8) as Hhdr
    by (unfold hdr; rewrite len_slice by lia; lia).
  pose proof (be_uint_slice_range hdr 0 4 ltac:(lia)) as Hbs.
  pose proof (be_uint_slice_range hdr 4 8 ltac:(lia)) as Hid.
  change (256 ^ (4 - 0)) with (2 ^ 32) in Hbs.
  change (256 ^ (8 - 4)) with (2 ^ 32) in Hid.
  cbn [read_additionalSectionEntryHeader
       additionalSectionEntryHeader.BlockSize
       additionalSectionEntryHeader.BlockID].
  unfold int_of_uint32.
  set (size := wrap32 (be_uint (slice hdr 0 4) - 8)).
  assert (0 <= size < 2 ^ 32) as Hsize
    by (apply Z.mod_pos_bound; lia).
  wp_step. wp_step; [exact I |].
  set (sec := AdditionalSection.mk _ _ _).
  replace (wrap32 (i + 1)) with (i + 1)
    by (unfold wrap32; rewrite Z.mod_small; lia).
  assert (slice input c (c + 8 + size) = marshal_section sec) as Hsec.
  { unfold marshal_section, sec.
    cbn [AdditionalSection.BlockSize AdditionalSection.BlockID
         AdditionalSection.Data].
    rewrite <- (slice_split input c (c + 8) (c + 8 + size)) by lia.
    rewrite <- (slice_split input c (c + 4) (c + 8)) by lia.
    unfold hdr. rewrite !slice_slice by lia.
    replace (c + 0) with c by lia. replace (c + 4 + 4) with (c + 8) by lia.
    rewrite <- app_assoc. f_equal; [| f_equal].
    - symmetry. apply (put_uint32_read input c); lia.
    - replace (c + 8) with (c + 4 + 4) by lia.
      symmetry. apply (put_uint32_read input (c + 4)); lia. }
  assert (section_parsed sec) as Hparsed.
  { unfold section_parsed, sec.
    cbn [AdditionalSection.BlockSize AdditionalSection.BlockID
         AdditionalSection.Data].
    unfold AdditionalSectionsEntryHeaderLen. fold size.
    rewrite len_slice by lia. repeat split; lia. }
  wp_step. unfold store_block.
  destruct (be_uint (slice hdr 4 8) =? BlockIDProductInfo) eqn:Hpi.
  - wp_step. wp_step. wp_step.
    eapply wp_mono;
      [apply IH;
       cbn [File.AdditionalSectionsHeader File.set_AdditionalSections
            File.set_ProductInformation]; lia |].
    cbn beta. intros [c' |] f'; [| exact (fun H => H)].
    intros (secs & -> & Hall & Hcount & Hc' & Hbytes).
    exists (sec :: secs). split; [| split; [| split; [| split]]].
    + unfold last_product_information. cbn [fold_left].
      change (AdditionalSection.BlockID sec) with (be_uint (slice hdr 4 8)).
      change (AdditionalSection.Data sec)
        with (slice input (c + 8) (c + 8 + size)).
      rewrite Hpi. unfold product_information_of at 2.
      cbn [File.set_AdditionalSections File.set_ProductInformation
           File.MarID File.OffsetToIndex File.ProductInformation
           File.SignaturesHeader File.Signatures
           File.AdditionalSectionsHeader File.AdditionalSections
           File.IndexHeader File.Index File.Content].
      rewrite <- app_assoc. reflexivity.
    + constructor; assumption.
    + cbn [length]. cbn [File.AdditionalSectionsHeader
                         File.set_AdditionalSections
                         File.set_ProductInformation] in Hcount. lia.
    + lia.
    + cbn [map concat]. rewrite <- Hbytes, <- Hsec.
      symmetry. apply slice_split; lia.
  - wp_step. wp_step. wp_step.
    eapply wp_mono;
      [apply IH;
       cbn [File.AdditionalSectionsHeader File.set_AdditionalSections];
       lia |].
    cbn beta. intros [c' |] f'; [| exact (fun H => H)].
    intros (secs & -> & Hall & Hcount & Hc' & Hbytes).
    exists (sec :: secs). split; [| split; [| split; [| split]]].
    + unfold last_product_information. cbn [fold_left].
      change (AdditionalSection.BlockID sec) with (be_uint (slice hdr 4 8)).
      change (AdditionalSection.Data sec)
        with (slice input (c + 8) (c + 8 + size)).
      rewrite Hpi. unfold product_information_of at 2.
      cbn [File.set_AdditionalSections File.set_ProductInformation
           File.MarID File.OffsetToIndex File.ProductInformation
           File.SignaturesHeader File.Signatures
           File.AdditionalSectionsHeader File.AdditionalSections
           File.IndexHeader File.Index File.Content].
      rewrite <- app_assoc. reflexivity.
    + constructor; assumption.
    + cbn [length]. cbn [File.AdditionalSectionsHeader
                         File.set_AdditionalSections] in Hcount. lia.
    + lia.
    + cbn [map concat]. rewrite <- Hbytes, <- Hsec.
      symmetry. apply slice_split; lia.
Qed.

Lemma File_set_Index_same (f : File.t) :
  File.set_Index (File.Index f ++ []) f = f.
Proof. rewrite app_nil_r. destruct f. reflexivity. Qed.

Lemma slice_one {A} (s : list A) (lo : Z) (b : A) :
  0 <= lo -> s !! Z.to_nat lo = Some b -> slice s lo (lo + 1) = [b].
Proof.
  intros Hlo Hget. apply list_eq. intros j. rewrite lookup_slice by lia.
  destruct j as [| j].
  - destruct (decide _); [| lia]. rewrite Nat.add_0_r. exact Hget.
  - destruct (decide _); [lia | reflexivity].
Qed.

(** The index loop, when it ends normally: every entry it has appended
    has a name without a zero byte, the bytes it has walked over are those
    entries as [MarshalForSignature] writes them, and it has stopped
    inside the buffer, at or after [int(FileSize)]. *)
Lemma parse_index_success (input spare : list byte) (fuel : nat) :
  forall c f,
    0 <= c <= len input ->
    wp (parse_index fuel input spare c)
       (fun r f' =>
          match r with
          | inl _ =>
              exists entries c',
                f' = File.set_Index (File.Index f ++ entries) f
                /\ Forall index_entry_parsed entries
                /\ c <= c' <= len input
                /\ int_of_uint64
                     (SignaturesHeader.FileSize (File.SignaturesHeader f))
                   <= c'
                /\ slice input c c'
                   = concat (map marshal_index_entry entries)
          | inr _ => True
          end) f.
Proof.
  induction fuel as [| fuel IH]; intros c f Hc; cbn [parse_index].
  { wp_step. exact I. }
  wp_step. wp_step.
  destruct (Z.leb_spec
    (int_of_uint64 (SignaturesHeader.FileSize (File.SignaturesHeader f))) c)
    as [Hstop | Hgo].
  { wp_step. exists [], c. rewrite File_set_Index_same.
    cbn [concat map]. rewrite slice_empty.
    repeat split; try constructor; lia. }
  wp_step. wp_step; [exact I |].
  unfold IndexEntryHeaderLen in *.
  set (hdr := slice input c (c + 12)).
  assert (len hdr = 12) as Hhdr
    by (unfold hdr; rewrite len_slice by lia; lia).
  pose proof (be_uint_slice_range hdr 0 4 ltac:(lia)) as Hoff.
  pose proof (be_uint_slice_range hdr 4 8 ltac:(lia)) as Hsize.
  pose proof (be_uint_slice_range hdr 8 12 ltac:(lia)) as Hflags.
  change (256 ^ (4 - 0)) with (2 ^ 32) in Hoff.
  change (256 ^ (8 - 4)) with (2 ^ 32) in Hsize.
  change (256 ^ (12 - 8)) with (2 ^ 32) in Hflags.
  cbn [read_indexEntryHeader indexEntryHeader.OffsetToContent
       indexEntryHeader.Size indexEntryHeader.Flags].
  wp_step. apply wp_go_slice_len; [lia | lia | lia |].
  set (rest := slice input (c + 12) (len input)) in *.
  assert (len rest = len input - (c + 12)) as Hlen_rest
    by (unfold rest; rewrite len_slice by lia; lia).
  destruct (Z.ltb_spec (bytes_Index rest x00) 0) as [Hneg | Hpos];
    [wp_step; exact I |].
  set (k := bytes_Index rest x00) in *.
  destruct (bytes_Index_range rest x00) as [Hk | Hk]; [fold k in Hk; lia |].
  fold k in Hk.
  destruct (bytes_Index_found rest x00 Hpos) as (Hzero & Hname).
  fold k in Hzero, Hname.
  wp_step. apply wp_go_slice_len; [lia | lia | lia |].
  set (nm := slice input (c + 12) (c + 12 + k)) in *.
  assert (nm = take (Z.to_nat k) rest) as Hnm_rest.
  { unfold nm, rest, slice. rewrite take_take. f_equal. lia. }
  set (entry := IndexEntry.mk _ _ _ _).
  assert (slice input c (c + 12 + (k + 1)) = marshal_index_entry entry)
    as Hentry.
  { unfold marshal_index_entry, entry.
    cbn [IndexEntry.OffsetToContent IndexEntry.Size IndexEntry.Flags
         IndexEntry.FileName].
    rewrite list_byte_of_string_of_list_byte.
    rewrite <- (slice_split input c (c + 12) (c + 12 + (k + 1))) by lia.
    rewrite <- (slice_split input c (c + 4) (c + 12)) by lia.
    rewrite <- (slice_split input (c + 4) (c + 8) (c + 12)) by lia.
    rewrite <- (slice_split input (c + 12) (c + 12 + k) (c + 12 + (k + 1)))
      by lia.
    unfold hdr. rewrite !slice_slice by lia.
    replace (c + 0) with c by lia.
    rewrite <- !app_assoc. f_equal; [| f_equal; [| f_equal; [| f_equal]]].
    - symmetry. apply (put_uint32_read input c); lia.
    - replace (c + 8) with (c + 4 + 4) by lia.
      symmetry. apply (put_uint32_read input (c + 4)); lia.
    - replace (c + 12) with (c + 8 + 4) by lia.
      symmetry. apply (put_uint32_read input (c + 8)); lia.
    - replace (c + 12 + (k + 1)) with (c + 12 + k + 1) by lia.
      apply slice_one; [lia |].
      unfold rest in Hzero. rewrite lookup_slice in Hzero by lia.
      destruct (decide _) as [_ | Hno] in Hzero; [| lia].
      rewrite <- Hzero. f_equal. lia. }
  assert (index_entry_parsed entry) as Hparsed.
  { unfold index_entry_parsed, entry.
    cbn [IndexEntry.OffsetToContent IndexEntry.Size IndexEntry.Flags
         IndexEntry.FileName].
    rewrite list_byte_of_string_of_list_byte, Hnm_rest.
    repeat split; try lia. exact Hname. }
  wp_step. wp_step.
  eapply wp_mono; [apply IH; lia |].
  cbn beta. intros [[] |] f'; [| exact (fun H => H)].
  intros (entries & c' & -> & Hall & Hc' & Hend & Hbytes).
  exists (entry :: entries), c'.
  cbn [File.SignaturesHeader File.set_Index File.Index] in *.
  split; [| split; [| split; [| split]]].
  - cbn [File.set_Index File.MarID File.OffsetToIndex
         File.ProductInformation File.SignaturesHeader File.Signatures
         File.AdditionalSectionsHeader File.AdditionalSections
         File.IndexHeader File.Index File.Content].
    rewrite <- app_assoc. reflexivity.
  - constructor; assumption.
  - lia.
  - exact Hend.
  - cbn [map concat]. rewrite <- Hbytes, <- Hentry.
    symmetry. apply slice_split; lia.
Qed.

(** ** What a successful [Unmarshal] leaves in the [File] *)

Lemma parse_structure_success (input spare : list byte) (f : File.t) :
  wp (parse_structure input spare)
     (fun r f' =>
        r = inl tt ->
        File.Content f' = File.Content f
        /\ exists sigs secs entries c1 c2 c3,
             structure_parsed input f f' sigs secs entries c1 c2 c3) f.
Proof.
  unfold parse_structure, MarIDLen, OffsetToIndexLen, SignaturesHeaderLen,
    AdditionalSectionsHeaderLen, IndexHeaderLen.
  change (4 + 4 + 12 + 4 + 4) with 28.
  destruct (Z.ltb_spec (len input) 28) as [Hshort | Hlong];
    [wp_step; discriminate |].
  wp_step. wp_step; [lia |]. wp_step. wp_step.
  wp_step. wp_step; [lia |]. wp_step. wp_step.
  wp_step. wp_step; [lia |]. wp_step. wp_step.
  change (0 + 4 + 4 + 12) with 20. change (0 + 4 + 4) with 8.
  change (0 + 4) with 4.
  set (f0 := File.set_SignaturesHeader _ _).
  pose proof (be_uint_slice_range (slice input 8 20) 8 12 ltac:(lia))
    as Hnum.
  change (256 ^ (12 - 8)) with (2 ^ 32) in Hnum.
  pose proof (be_uint_slice_range (slice input 4 8) 0 4 ltac:(lia)) as Hoff.
  wp_step.
  eapply wp_mono;
    [apply (parse_signatures_success input (S (length input)) 0 20 f0);
     [lia | split; [lia | apply Hnum] | apply Hnum] |].
  cbn beta. intros [c1 |] f1; [| discriminate].
  intros (sigs & -> & Hsigs & Hcount & Hc1 & Hbytes1).
  wp_step. wp_step; [discriminate |]. wp_step. wp_step.
  set (f2 := File.set_AdditionalSectionsHeader _ _).
  pose proof (be_uint_slice_range (slice input c1 (c1 + 4)) 0 4 ltac:(lia))
    as Hnas.
  change (256 ^ (4 - 0)) with (2 ^ 32) in Hnas.
  wp_step.
  eapply wp_mono;
    [apply (parse_sections_success input (S (length input)) 0 (c1 + 4) f2);
     [lia | split; [lia | apply Hnas] | apply Hnas] |].
  cbn beta. intros [c2 |] f3; [| discriminate].
  intros (secs & -> & Hsecs & Hcount2 & Hc2 & Hbytes2).
  wp_step. wp_step. unfold int_of_uint32.
  change (File.OffsetToIndex _) with (read_uint32 (slice input 4 8)).
  set (off := read_uint32 (slice input 4 8)) in *.
  assert (0 <= off) as Hoff0 by apply Hoff.
  wp_step. wp_step; [discriminate |]. wp_step. wp_step.
  set (f4 := File.set_IndexHeader _ _).
  eapply wp_mono;
    [apply (parse_index_success input spare (S (length input)) (off + 4) f4);
     lia |].
  cbn beta. intros [[] |] f5; [| discriminate].
  intros (entries & c3 & -> & Hentries & Hc3 & Hend & Hbytes3) _.
  split; [reflexivity |].
  exists sigs, secs, entries, c1, c2, c3.
  unfold structure_parsed. subst f4 f2 f0.
  unfold head_of, head_from. file_norm.
  cbn [File.SignaturesHeader File.AdditionalSectionsHeader
       File.set_IndexHeader File.set_Index File.set_ProductInformation
       File.set_AdditionalSections File.set_AdditionalSectionsHeader
       File.set_Signatures File.set_SignaturesHeader] in Hcount, Hcount2,
    Hend.
  fold off.
  repeat split; try assumption; try lia; try reflexivity.
Qed.

Lemma File_set_Content_same (f : File.t) :
  File.set_Content (File.Content f) f = f.
Proof. destruct f. reflexivity. Qed.

(** The content loop, when it ends normally: it has only written the
    content map, which holds, for every name, the bytes of the first
    entry of that name; and the content of every entry was in range. *)
Lemma for_each_load_entry_content (input spare : list byte)
  (rest : list IndexEntry.t) :
  forall pre f,
    (forall n, File.Content f !! n
               = entry_of (input ++ spare) <$> first_named pre n) ->
    wp (for_each rest (load_entry input spare))
       (fun r f' =>
          r = inl tt ->
          f' = File.set_Content (File.Content f') f
          /\ (forall n, File.Content f' !! n
                        = entry_of (input ++ spare)
                            <$> first_named (pre ++ rest) n)
          /\ Forall (fun e =>
                       slice_checked input spare (IndexEntry.OffsetToContent e)
                         (wrap32 (IndexEntry.OffsetToContent e
                                  + IndexEntry.Size e)) <> None) rest) f.
Proof.
  induction rest as [| e rest IH]; intros pre f Hinv; cbn [for_each].
  { wp_step. intros _. rewrite File_set_Content_same, app_nil_r. auto. }
  wp_step. unfold load_entry.
  wp_step. apply wp_go_slice; intros Hslice; [discriminate |].
  wp_step. wp_step. fold (entry_of (input ++ spare) e).
  destruct (File.Content f !! IndexEntry.FileName e) as [old |] eqn:Hlook;
    [wp_step; discriminate |].
  assert (first_named pre (IndexEntry.FileName e) = None) as Hfresh.
  { rewrite Hinv in Hlook.
    destruct (first_named pre (IndexEntry.FileName e));
      [discriminate | reflexivity]. }
  wp_step.
  eapply wp_mono; [apply (IH (pre ++ [e])) |].
  - intros n. cbn [File.Content File.set_Content].
    rewrite first_named_app. cbn [first_named].
    destruct (decide (IndexEntry.FileName e = n)) as [<- | Hne].
    + rewrite lookup_insert_eq, Hfresh. reflexivity.
    + rewrite lookup_insert_ne by exact Hne. rewrite Hinv.
      destruct (first_named pre n); reflexivity.
  - cbn beta. intros r f' H Hr. destruct (H Hr) as (Hf' & Hmap & Hall).
    split; [| split].
    + rewrite Hf'. reflexivity.
    + intros n. rewrite Hmap, <- app_assoc. reflexivity.
    + constructor; [| exact Hall]. rewrite Hslice. discriminate.
Qed.

Lemma first_named_NoDup (index : list IndexEntry.t) (e : IndexEntry.t) :
  NoDup (IndexEntry.FileName <$> index) -> e ∈ index ->
  first_named index (IndexEntry.FileName e) = Some e.
Proof.
  induction index as [| x index IH]; intros Hnodup He.
  { apply elem_of_nil in He. destruct He. }
  cbn [fmap list_fmap] in Hnodup. apply NoDup_cons in Hnodup as (Hx & Hnodup).
  cbn [first_named]. apply elem_of_cons in He as [-> | He].
  - destruct (decide _); [reflexivity | congruence].
  - destruct (decide (IndexEntry.FileName x = IndexEntry.FileName e))
      as [Heq | Hne]; [| apply IH; assumption].
    exfalso. apply Hx. rewrite Heq. apply list_elem_of_fmap. eauto.
Qed.

(** A normal end of [Unmarshal]: the [File] is the one the part before
    the content loop has left, with a new content map. *)
Lemma Unmarshal_success (input spare : list byte) (f f' : File.t) :
  Unmarshal input spare f = (inl tt, f') ->
  exists f1,
    parse_structure input spare f = (inl tt, f1)
    /\ f' = File.set_Content (File.Content f') f1
    /\ NoDup (IndexEntry.FileName <$> File.Index f1)
    /\ (forall n, File.Content f' !! n
                  = entry_of (input ++ spare)
                      <$> first_named (File.Index f1) n)
    /\ Forall (fun e =>
                 slice_checked input spare (IndexEntry.OffsetToContent e)
                   (wrap32 (IndexEntry.OffsetToContent e
                            + IndexEntry.Size e)) <> None) (File.Index f1).
Proof.
  unfold Unmarshal, mbind, M_bind, bind.
  destruct (parse_structure input spare f) as [[[] | x] f1]; [| discriminate].
  intros Hrun. exists f1. split; [reflexivity |].
  unfold load_content, mbind, M_bind, bind, modify, get in Hrun.
  cbn [File.Index File.set_Content] in Hrun.
  pose proof (for_each_load_entry_content input spare (File.Index f1) []
                (File.set_Content ∅ f1)
                ltac:(intros n; cbn; apply lookup_empty)) as Hc.
  pose proof (for_each_load_entry_names input spare (File.Index f1) []
                (File.set_Content ∅ f1)
                ltac:(intros n; cbn; apply lookup_empty)) as Hn.
  unfold wp in Hc, Hn. rewrite Hrun in Hc, Hn. cbn [fst snd app] in Hc, Hn.
  destruct (Hc eq_refl) as (Hf' & Hmap & Hall). destruct Hn as (Hnodup & _).
  repeat split; assumption.
Qed.

(** * More properties of [Unmarshal] *)

(** ** How [Unmarshal] can end *)

(** X1: A buffer is refused as too small exactly when it has less than 28
    bytes, the five fixed headers; the caller's [File] is then untouched.
    The empty buffer is one of them. *)
Theorem Unmarshal_too_small_iff (input spare : list byte) (f : File.t) :
  (fst (Unmarshal input spare f) = inr (Error ErrTooSmall) <-> len input < 28)
  /\ (len input < 28 -> snd (Unmarshal input spare f) = f).
Proof.
  pose proof (Unmarshal_spec input spare f) as H. unfold wp in H.
  destruct H as [(Hr & Hf & Hlen) | (Hr & _ & Hlen)].
  - split; [split; auto | auto].
  - split; [split |]; [| lia | lia].
    intros Heq. rewrite Heq in Hr. destruct Hr as [[] | []].
Qed.

(** X2: [Unmarshal] ends on every buffer, whatever numbers of signatures or
    sections the buffer announces: normally, with one of its errors, or
    with the panic of a slice expression.  The bound of the model's loops,
    one more than the length of the buffer, is never reached. *)
Theorem Unmarshal_outcomes (input spare : list byte) (f : File.t) :
  match fst (Unmarshal input spare f) with
  | inl _ => True
  | inr (Error _) => True
  | inr (Panic p) => p = SliceBoundsOutOfRange
  | inr OutOfFuel => False
  end.
Proof.
  pose proof (Unmarshal_spec input spare f) as H. unfold wp in H.
  destruct H as [(-> & _) | ([Hr | Hr] & _)]; [exact I | |];
    destruct (fst (Unmarshal input spare f)) as [[] | [e | [ | ] | ]];
    try exact I; try reflexivity; try destruct e; try contradiction.
Qed.

Lemma load_content_keeps_index (input spare : list byte) (f : File.t) :
  wp (load_content input spare) (fun _ f' => File.Index f' = File.Index f) f.
Proof.
  unfold load_content. wp_step. wp_step. wp_step. wp_step.
  cbn [File.Index File.set_Content].
  change (File.Index f) with (File.Index (File.set_Content ∅ f)) at 2.
  generalize (File.set_Content ∅ f). generalize (File.Index f).
  intros index. induction index as [| e index IH]; intros g; cbn [for_each].
  { wp_step. reflexivity. }
  wp_step. unfold load_entry. wp_step. wp_step; [reflexivity |].
  wp_step. wp_step.
  destruct (File.Content g !! IndexEntry.FileName e);
    [wp_step; reflexivity |].
  wp_step. eapply wp_mono; [apply IH |]. cbn beta. intros _ f' ->.
  reflexivity.
Qed.

(** X3: [Unmarshal] panics only in the content loop, at an index entry whose
    content does not lie inside the buffer. *)
Theorem Unmarshal_panic_cause (input spare : list byte) (f f' : File.t)
  (p : PanicKind) :
  Unmarshal input spare f = (inr (Panic p), f') ->
  p = SliceBoundsOutOfRange
  /\ exists e, e ∈ File.Index f' /\ content_in_range input e = false.
Proof.
  intros Hrun.
  assert (Hout : p = SliceBoundsOutOfRange).
  { pose proof (Unmarshal_spec input spare f) as H. unfold wp in H.
    rewrite Hrun in H. cbn [fst snd] in H.
    destruct H as [(H & _) | ([Hr | Hr] & _)];
      [discriminate | contradiction |].
    destruct p; [reflexivity | contradiction]. }
  split; [exact Hout |].
  unfold Unmarshal, mbind, M_bind, bind in Hrun.
  pose proof (parse_structure_never_panics input spare f p) as Hnp.
  destruct (parse_structure input spare f) as [[[] | x] f1];
    [| injection Hrun as -> _; contradiction].
  pose proof (load_content_keeps_index input spare f1) as Hidx.
  unfold wp in Hidx. rewrite Hrun in Hidx. cbn [snd] in Hidx.
  unfold load_content, mbind, M_bind, bind, modify, get in Hrun.
  cbn [File.Index File.set_Content] in Hrun.
  pose proof (for_each_load_entry_names input spare (File.Index f1) []
                (File.set_Content ∅ f1)
                ltac:(intros n; cbn; apply lookup_empty)) as Hn.
  unfold wp in Hn. rewrite Hrun in Hn. cbn [fst snd] in Hn. subst p.
  rewrite Hidx. exact Hn.
Qed.

Lemma Unmarshal_panic_cause_witness :
  exists e,
    e ∈ File.Index (snd (decode out_of_range_content_input))
    /\ content_in_range out_of_range_content_input e = false.
Proof.
  apply (Unmarshal_panic_cause out_of_range_content_input [] File.zero
           (snd (decode out_of_range_content_input)) SliceBoundsOutOfRange).
  vm_compute. reflexivity.
Defined.

(** ** What a decoded archive holds *)

Lemma Unmarshal_structure (input spare : list byte) (f f' : File.t) :
  Unmarshal input spare f = (inl tt, f') ->
  exists sigs secs entries c1 c2 c3,
    structure_parsed input f f' sigs secs entries c1 c2 c3.
Proof.
  intros Hrun. destruct (Unmarshal_success input spare f f' Hrun)
    as (f1 & Hparse & Hf' & _).
  pose proof (parse_structure_success input spare f) as H. unfold wp in H.
  rewrite Hparse in H. cbn [fst snd] in H.
  destruct (H eq_refl) as (_ & sigs & secs & entries & c1 & c2 & c3 & Hs).
  exists sigs, secs, entries, c1, c2, c3. rewrite Hf'. exact Hs.
Qed.

(** X4: After a normal end, the signatures of the [File] are those it had
    before, followed by as many signatures as the signatures header
    announces; each of them has exactly the number of data bytes it
    declares, and the algorithm name of its algorithm id. *)
Theorem Unmarshal_signatures (input spare : list byte) (f f' : File.t) :
  Unmarshal input spare f = (inl tt, f') ->
  exists sigs,
    File.Signatures f' = File.Signatures f ++ sigs
    /\ Z.of_nat (length sigs)
       = SignaturesHeader.NumSignatures (File.SignaturesHeader f')
    /\ Forall (fun sig =>
                 len (Signature.Data sig) = Signature.Size sig
                 /\ Signature.Algorithm sig
                    = algorithm_name (Signature.AlgorithmID sig)) sigs.
Proof.
  intros Hrun. destruct (Unmarshal_structure input spare f f' Hrun)
    as (sigs & secs & entries & c1 & c2 & c3 & _ & _
        & (Hsigs & Hcount & Hall & _) & _).
  exists sigs. split; [exact Hsigs |]. split; [exact Hcount |].
  eapply Forall_impl; [exact Hall |]. intros sig (_ & _ & Hlen & Halg). auto.
Qed.

Lemma Unmarshal_signatures_witness :
  exists sigs,
    File.Signatures (snd (decode sample_input)) = sigs
    /\ Z.of_nat (length sigs) = 1.
Proof.
  destruct (Unmarshal_signatures sample_input [] File.zero
              (snd (decode sample_input)) ltac:(vm_compute; reflexivity))
    as (sigs & Hsigs & Hcount & _).
  exists sigs. split; [exact Hsigs |]. rewrite Hcount. vm_compute.
  reflexivity.
Defined.

(** X5: After a normal end, the additional sections of the [File] are those
    it had before, followed by as many sections as the additional sections
    header announces, each with [BlockSize - 8] data bytes (on 32 bits);
    and the product information is the one of the last of these sections
    with the product information block id, or the one the [File] had
    before if there is none. *)
Theorem Unmarshal_sections (input spare : list byte) (f f' : File.t) :
  Unmarshal input spare f = (inl tt, f') ->
  exists secs,
    File.AdditionalSections f' = File.AdditionalSections f ++ secs
    /\ Z.of_nat (length secs)
       = AdditionalSectionsHeader.NumAdditionalSections
           (File.AdditionalSectionsHeader f')
    /\ Forall (fun as_ =>
                 len (AdditionalSection.Data as_)
                 = wrap32 (AdditionalSection.BlockSize as_
                           - AdditionalSectionsEntryHeaderLen)) secs
    /\ File.ProductInformation f'
       = last_product_information secs (File.ProductInformation f).
Proof.
  intros Hrun. destruct (Unmarshal_structure input spare f f' Hrun)
    as (sigs & secs & entries & c1 & c2 & c3 & _ & _ & _
        & (_ & _ & Hsecs & Hcount & Hall & _ & _ & Hpi) & _).
  exists secs. split; [exact Hsecs |]. split; [exact Hcount |].
  split; [| exact Hpi].
  eapply Forall_impl; [exact Hall |]. intros as_ (_ & _ & Hlen). exact Hlen.
Qed.

Lemma Unmarshal_sections_witness :
  File.ProductInformation (snd (decode sample_input)) = "a b"%string.
Proof.
  destruct (Unmarshal_sections sample_input [] File.zero
              (snd (decode sample_input)) ltac:(vm_compute; reflexivity))
    as (secs & Hsecs & _ & _ & Hpi).
  rewrite Hpi. cbn [File.AdditionalSections File.zero app] in Hsecs.
  rewrite <- Hsecs. vm_compute. reflexivity.
Defined.

Lemma len_concat_elem {A} (g : A -> list byte) (l : list A) (x : A) :
  x ∈ l -> len (g x) <= len (concat (map g l)).
Proof.
  induction l as [| y l IH];
    [intros H; apply elem_of_nil in H; contradiction |].
  cbn [map concat]. rewrite len_app.
  pose proof (len_nonneg (g y)). pose proof (len_nonneg (concat (map g l))).
  intros [-> | Hin]%elem_of_cons; [lia | apply IH in Hin; lia].
Qed.

(** X6: After a normal end on a buffer of less than [2^32 - 8] bytes, every
    additional section appended records a block size of at least 8, the
    size of its own header, and holds as many data bytes as the block
    size leaves after the header. *)
Theorem Unmarshal_block_sizes (input spare : list byte) (f f' : File.t) :
  Unmarshal input spare f = (inl tt, f') ->
  len input < 2 ^ 32 - 8 ->
  exists secs,
    File.AdditionalSections f' = File.AdditionalSections f ++ secs
    /\ Forall (fun as_ =>
                 AdditionalSectionsEntryHeaderLen
                 <= AdditionalSection.BlockSize as_
                 /\ len (AdditionalSection.Data as_)
                    = AdditionalSection.BlockSize as_
                      - AdditionalSectionsEntryHeaderLen) secs.
Proof.
  intros Hrun Hsmall.
  destruct (Unmarshal_structure input spare f f' Hrun)
    as (sigs & secs & entries & c1 & c2 & c3 & _ & _ & (_ & _ & _ & Hc1 & _)
        & (_ & _ & Hsecs & _ & Hparsed & Hc2 & Hbytes & _) & _).
  exists secs. split; [exact Hsecs |].
  assert (Hlen : len (concat (map marshal_section secs)) = c2 - (c1 + 4))
    by (rewrite <- Hbytes; apply len_slice; lia).
  rewrite Forall_forall in Hparsed. apply Forall_forall. intros as_ Hin.
  destruct (Hparsed as_ Hin) as (Hsize & _ & Hdata).
  pose proof (len_concat_elem marshal_section secs as_ Hin) as Hle.
  unfold marshal_section in Hle at 1. rewrite !len_app in Hle.
  pose proof (len_nonneg (put_uint32 (AdditionalSection.BlockSize as_))).
  pose proof (len_nonneg (put_uint32 (AdditionalSection.BlockID as_))).
  unfold AdditionalSectionsEntryHeaderLen, wrap32 in *.
  destruct (Z_lt_ge_dec (AdditionalSection.BlockSize as_) 8) as [Hlt | Hge].
  - exfalso.
    assert (Hm : (AdditionalSection.BlockSize as_ - 8) mod 2 ^ 32
                 = AdditionalSection.BlockSize as_ - 8 + 2 ^ 32).
    { symmetry. apply (Z.mod_unique _ _ (-1)); lia. }
    lia.
  - rewrite Z.mod_small in Hdata by lia. lia.
Qed.

Lemma Unmarshal_block_sizes_witness :
  exists secs,
    File.AdditionalSections (snd (decode sample_input)) = secs
    /\ Forall (fun as_ =>
                 AdditionalSectionsEntryHeaderLen
                 <= AdditionalSection.BlockSize as_
                 /\ len (AdditionalSection.Data as_)
                    = AdditionalSection.BlockSize as_
                      - AdditionalSectionsEntryHeaderLen) secs.
Proof.
  apply (Unmarshal_block_sizes sample_input [] File.zero
           (snd (decode sample_input)));
    vm_compute; reflexivity.
Defined.

Lemma trim_left_nul_suffix (s : list byte) :
  exists k, trim_left_nul s = drop k s.
Proof.
  induction s as [| c s (k & IH)]; [exists O; reflexivity |].
  cbn [trim_left_nul]. destruct (decide (c = x00)).
  - exists (S k). exact IH.
  - exists O. reflexivity.
Qed.

Lemma trim_left_nul_id (s : list byte) :
  x00 ∉ s -> trim_left_nul s = s.
Proof.
  destruct s as [| c s]; [reflexivity |]. rewrite not_elem_of_cons.
  intros (Hc & _). cbn [trim_left_nul].
  destruct (decide (c = x00)); [congruence | reflexivity].
Qed.

(** X7: The product information string of a block never holds a zero byte,
    is never longer than the block, and is the block itself when the
    block holds no zero byte. *)
Theorem product_information_clean (Data : list byte) :
  (x00 ∉ list_byte_of_string (product_information_of Data))
  /\ len (list_byte_of_string (product_information_of Data)) <= len Data
  /\ (x00 ∉ Data ->
      list_byte_of_string (product_information_of Data) = Data).
Proof.
  unfold product_information_of.
  rewrite list_byte_of_string_of_list_byte. split; [| split].
  - unfold strings_Replace_nul_space. intros Hin.
    apply list_elem_of_In, in_map_iff in Hin as (c & Hc & _).
    destruct (decide (c = x00)); [discriminate | congruence].
  - unfold strings_Replace_nul_space, strings_Trim_nul, len.
    rewrite length_map, length_rev.
    destruct (trim_left_nul_suffix (rev (trim_left_nul Data))) as (k & ->).
    rewrite length_drop, length_rev.
    destruct (trim_left_nul_suffix Data) as (k' & ->).
    rewrite length_drop. lia.
  - intros Hno. unfold strings_Trim_nul.
    rewrite (trim_left_nul_id Data Hno).
    assert (Hrev : x00 ∉ rev Data).
    { intros Hin. apply Hno, list_elem_of_In, in_rev, list_elem_of_In.
      exact Hin. }
    rewrite (trim_left_nul_id (rev Data) Hrev), rev_involutive.
    unfold strings_Replace_nul_space.
    rewrite <- (map_id Data) at 2. apply map_ext_in. intros c Hc.
    destruct (decide (c = x00)) as [-> |]; [| reflexivity].
    apply list_elem_of_In in Hc. contradiction.
Qed.

(** X8: After a normal end, the index of the [File] is the one it had before,
    followed by entries whose names hold no zero byte. *)
Theorem Unmarshal_index_names (input spare : list byte) (f f' : File.t) :
  Unmarshal input spare f = (inl tt, f') ->
  exists entries,
    File.Index f' = File.Index f ++ entries
    /\ Forall (fun e => x00 ∉ list_byte_of_string (IndexEntry.FileName e))
              entries.
Proof.
  intros Hrun. destruct (Unmarshal_structure input spare f f' Hrun)
    as (sigs & secs & entries & c1 & c2 & c3 & _ & _ & _ & _
        & (_ & _ & Hidx & Hall & _)).
  exists entries. split; [exact Hidx |].
  eapply Forall_impl; [exact Hall |]. intros e (_ & _ & _ & Hname).
  exact Hname.
Qed.

Lemma Unmarshal_index_names_witness :
  exists entries,
    File.Index (snd (decode sample_input)) = entries
    /\ Forall (fun e => x00 ∉ list_byte_of_string (IndexEntry.FileName e))
              entries.
Proof.
  exact (Unmarshal_index_names sample_input [] File.zero
           (snd (decode sample_input)) ltac:(vm_compute; reflexivity)).
Defined.

Lemma head_from_offset_range (input : list byte) (f : File.t) :
  head_of f = head_from input -> 0 <= File.OffsetToIndex f < 2 ^ 32.
Proof.
  unfold head_of, head_from. intros [= _ -> _].
  apply (be_uint_slice_range (slice input 4 8) 0 4). lia.
Qed.

(** X9: After a normal end, the buffer holds the index header at the recorded
    offset to the index, and the recorded file size, as the [int] the
    index loop compares with, is not beyond the end of the buffer. *)
Theorem Unmarshal_recorded_sizes (input spare : list byte) (f f' : File.t) :
  Unmarshal input spare f = (inl tt, f') ->
  28 <= len input
  /\ 0 <= File.OffsetToIndex f'
  /\ File.OffsetToIndex f' + IndexHeaderLen <= len input
  /\ int_of_uint64 (SignaturesHeader.FileSize (File.SignaturesHeader f'))
     <= len input.
Proof.
  intros Hrun. destruct (Unmarshal_structure input spare f f' Hrun)
    as (sigs & secs & entries & c1 & c2 & c3 & Hlen & Hhead & _ & _
        & (Hoff & _ & _ & _ & Hc3 & Hend & _)).
  pose proof (head_from_offset_range input f' Hhead).
  unfold IndexHeaderLen. repeat split; lia.
Qed.

Lemma Unmarshal_recorded_sizes_witness :
  int_of_uint64
    (SignaturesHeader.FileSize
       (File.SignaturesHeader (snd (decode sample_input))))
  <= len sample_input.
Proof.
  apply (Unmarshal_recorded_sizes sample_input [] File.zero
           (snd (decode sample_input)) ltac:(vm_compute; reflexivity)).
Defined.

(** ** The content of a decoded archive *)

Lemma parsed_entry_in_range (input spare : list byte)
  (e : IndexEntry.t) :
  index_entry_parsed e ->
  slice_checked input spare (IndexEntry.OffsetToContent e)
    (wrap32 (IndexEntry.OffsetToContent e + IndexEntry.Size e)) <> None ->
  wrap32 (IndexEntry.OffsetToContent e + IndexEntry.Size e)
  = IndexEntry.OffsetToContent e + IndexEntry.Size e
  /\ IndexEntry.OffsetToContent e + IndexEntry.Size e
     <= len input + len spare.
Proof.
  intros (Hoff & Hsize & _) Hsl.
  destruct (slice_checked input spare (IndexEntry.OffsetToContent e)
              (wrap32 (IndexEntry.OffsetToContent e + IndexEntry.Size e)))
    as [bs |] eqn:Hbs; [clear Hsl | congruence].
  apply slice_checked_inv in Hbs as (_ & Hlo & Hhi & _).
  unfold wrap32 in *.
  destruct (Z_lt_ge_dec (IndexEntry.OffsetToContent e + IndexEntry.Size e)
              (2 ^ 32)) as [Hsmall | Hbig].
  - rewrite Z.mod_small in * by lia. lia.
  - exfalso.
    assert (Hm : (IndexEntry.OffsetToContent e + IndexEntry.Size e) mod 2 ^ 32
                 = IndexEntry.OffsetToContent e + IndexEntry.Size e - 2 ^ 32).
    { symmetry. apply (Z.mod_unique _ _ 1); lia. }
    lia.
Qed.

(** What the content loop has done when [Unmarshal] ends normally on a
    [File] that had no index: [input ++ spare] is the backing array of
    the buffer, which the slice expression of the loop reads. *)
Lemma Unmarshal_entries (input spare : list byte) (f f' : File.t) :
  Unmarshal input spare f = (inl tt, f') ->
  File.Index f = [] ->
  NoDup (IndexEntry.FileName <$> File.Index f')
  /\ (forall n, File.Content f' !! n
                = entry_of (input ++ spare)
                    <$> first_named (File.Index f') n)
  /\ (forall e, e ∈ File.Index f' ->
        index_entry_parsed e
        /\ wrap32 (IndexEntry.OffsetToContent e + IndexEntry.Size e)
           = IndexEntry.OffsetToContent e + IndexEntry.Size e
        /\ IndexEntry.OffsetToContent e + IndexEntry.Size e
           <= len input + len spare).
Proof.
  intros Hrun Hfresh.
  destruct (Unmarshal_structure input spare f f' Hrun)
    as (sigs & secs & entries & c1 & c2 & c3 & _ & _ & _ & _
        & (_ & _ & Hidx & Hall & _)).
  rewrite Hfresh in Hidx. cbn [app] in Hidx.
  destruct (Unmarshal_success input spare f f' Hrun)
    as (f1 & _ & Hf' & Hnodup & Hcontent & Hrange).
  assert (Hsame : File.Index f1 = File.Index f')
    by (rewrite Hf'; reflexivity).
  rewrite Hsame in Hnodup, Hcontent, Hrange.
  split; [exact Hnodup |]. split; [exact Hcontent |].
  intros e Hin. rewrite Hidx in Hin, Hrange.
  rewrite Forall_forall in Hall, Hrange.
  split; [exact (Hall e Hin) |].
  exact (parsed_entry_in_range input spare e (Hall e Hin) (Hrange e Hin)).
Qed.

(** X10: After a normal end on a [File] that had no index, the names of the
    index are pairwise distinct, the keys of the content map are the
    names of the index, and the entry of every name holds the result of
    the slice expression [input[off:off+size]] for the content offset
    and size of its index entry: that many bytes of the backing array of
    the buffer, which lie behind the length of the buffer when the entry
    reaches into its spare capacity.  The flag of the entry is the one
    the test on the XZ magic number gives. *)
Theorem Unmarshal_content (input spare : list byte) (f f' : File.t) :
  Unmarshal input spare f = (inl tt, f') ->
  File.Index f = [] ->
  NoDup (IndexEntry.FileName <$> File.Index f')
  /\ (forall n, is_Some (File.Content f' !! n)
                <-> n ∈ IndexEntry.FileName <$> File.Index f')
  /\ (forall e, e ∈ File.Index f' ->
        exists entry,
          File.Content f' !! IndexEntry.FileName e = Some entry
          /\ Entry.Data entry
             = slice (input ++ spare) (IndexEntry.OffsetToContent e)
                 (IndexEntry.OffsetToContent e + IndexEntry.Size e)
          /\ len (Entry.Data entry) = IndexEntry.Size e
          /\ Entry.IsCompressed entry = is_xz (Entry.Data entry)).
Proof.
  intros Hrun Hfresh.
  destruct (Unmarshal_entries input spare f f' Hrun Hfresh)
    as (Hnodup & Hcontent & Hentries).
  split; [exact Hnodup |]. split.
  - intros n. rewrite Hcontent.
    destruct (first_named (File.Index f') n) as [e |] eqn:He.
    + apply first_named_Some in He as (<- & Hin).
      split; [intros _ | intros _; eexists; reflexivity].
      apply list_elem_of_fmap. exists e. split; [reflexivity | exact Hin].
    + split; [intros (x & Hx); discriminate |].
      intros Hin. apply first_named_None in He. contradiction.
  - intros e Hin. exists (entry_of (input ++ spare) e).
    rewrite Hcontent, (first_named_NoDup _ e Hnodup Hin).
    split; [reflexivity |]. unfold entry_of.
    cbn [Entry.Data Entry.IsCompressed].
    destruct (Hentries e Hin) as ((Hoff & Hsize & _) & -> & Hend).
    split; [reflexivity |]. split; [| reflexivity].
    rewrite len_slice; [lia | lia | lia | rewrite len_app; exact Hend].
Qed.

Lemma Unmarshal_content_witness :
  NoDup (IndexEntry.FileName <$> File.Index (snd (decode sample_input)))
  /\ File.Content (snd (decode sample_input)) !! "f1"%string
     = Some (Entry.mk (list_byte_of_string "hello") false).
Proof.
  destruct (Unmarshal_content sample_input [] File.zero
              (snd (decode sample_input)) ltac:(vm_compute; reflexivity)
              ltac:(reflexivity)) as (Hnodup & _ & _).
  split; [exact Hnodup | vm_compute; reflexivity].
Defined.

(** X11: After a normal end on a [File] that had no index, the content of
    every index entry lies inside the capacity of the buffer,
    [len(input) + len(spare)], and before position [2^32]; on a buffer
    without spare capacity it lies inside the buffer. *)
Theorem Unmarshal_content_sizes (input spare : list byte) (f f' : File.t) :
  Unmarshal input spare f = (inl tt, f') ->
  File.Index f = [] ->
  forall e, e ∈ File.Index f' ->
    content_in_range (input ++ spare) e = true
    /\ (spare = [] -> content_in_range input e = true).
Proof.
  intros Hrun Hfresh e Hin.
  destruct (Unmarshal_entries input spare f f' Hrun Hfresh)
    as (Hnodup & Hcontent & Hentries).
  destruct (Hentries e Hin) as ((Hoff & Hsize & _) & Hwrap & Hend).
  assert (Hcap : content_in_range (input ++ spare) e = true).
  { unfold content_in_range.
    rewrite !andb_true_iff, !Z.leb_le, Z.ltb_lt, len_app.
    repeat split; try lia.
    rewrite <- Hwrap. unfold wrap32. apply Z.mod_pos_bound. lia. }
  split; [exact Hcap |]. intros ->. rewrite app_nil_r in Hcap. exact Hcap.
Qed.

Lemma Unmarshal_content_sizes_witness :
  content_in_range sample_input (IndexEntry.mk 48 5 420 "f1") = true.
Proof.
  apply (Unmarshal_content_sizes sample_input [] File.zero
           (snd (decode sample_input)) ltac:(vm_compute; reflexivity)
           ltac:(reflexivity));
    [vm_compute; left | reflexivity].
Defined.

(** ** What a decoded archive says about the buffer *)

Lemma put_uint32_field (input : list byte) (a b lo : Z) :
  0 <= a -> 0 <= lo -> lo + 4 <= b - a -> b <= len input ->
  put_uint32 (be_uint (slice (slice input a b) lo (lo + 4)))
  = slice input (a + lo) (a + lo + 4).
Proof.
  intros Ha Hlo Hhi Hb. rewrite slice_slice by lia.
  replace (a + (lo + 4)) with (a + lo + 4) by lia.
  apply put_uint32_read; lia.
Qed.

Lemma put_uint64_field (input : list byte) (a b lo : Z) :
  0 <= a -> 0 <= lo -> lo + 8 <= b - a -> b <= len input ->
  put_uint64 (be_uint (slice (slice input a b) lo (lo + 8)))
  = slice input (a + lo) (a + lo + 8).
Proof.
  intros Ha Hlo Hhi Hb. rewrite slice_slice by lia.
  replace (a + (lo + 8)) with (a + lo + 8) by lia.
  apply put_uint64_read; lia.
Qed.

Lemma slice_to_len {A} (s l : list A) (lo hi : Z) :
  0 <= lo -> lo <= hi -> hi <= len s ->
  slice s lo hi = l ->
  lo + len l <= len s /\ slice s lo (lo + len l) = l.
Proof.
  intros Hlo Hle Hhi Heq.
  assert (Hlen : len l = hi - lo) by (rewrite <- Heq; apply len_slice; lia).
  rewrite Hlen. replace (lo + (hi - lo)) with hi by lia.
  split; [lia | exact Heq].
Qed.

Lemma structure_parsed_index_bytes (input : list byte) (f f' : File.t)
  (sigs : list Signature.t) (secs : list AdditionalSection.t)
  (entries : list IndexEntry.t) (c1 c2 c3 : Z) :
  structure_parsed input f f' sigs secs entries c1 c2 c3 ->
  File.Index f = [] ->
  0 <= File.OffsetToIndex f' < 2 ^ 32
  /\ File.OffsetToIndex f' + 4 <= c3 <= len input
  /\ slice input (File.OffsetToIndex f') c3 = index_bytes f'.
Proof.
  intros (_ & Hhead & _ & _ & (Hoff & Hhdr & Hidx & _ & Hc3 & _ & Hbytes))
    Hfresh.
  pose proof (head_from_offset_range input f' Hhead) as Hoff0.
  rewrite Hfresh in Hidx. cbn [app] in Hidx.
  split; [exact Hoff0 |]. split; [exact Hc3 |].
  unfold index_bytes. rewrite Hhdr, Hidx, <- Hbytes.
  unfold read_IndexHeader. cbn [IndexHeader.Size].
  pose proof (put_uint32_field input (File.OffsetToIndex f')
                (File.OffsetToIndex f' + 4) 0) as Hput.
  rewrite Z.add_0_r in Hput. change (0 + 4) with 4 in Hput.
  rewrite Hput by lia. symmetry. apply slice_split; lia.
Qed.

Lemma structure_parsed_head_bytes (input : list byte) (f f' : File.t)
  (sigs : list Signature.t) (secs : list AdditionalSection.t)
  (entries : list IndexEntry.t) (c1 c2 c3 : Z) :
  structure_parsed input f f' sigs secs entries c1 c2 c3 ->
  File.Signatures f = [] ->
  File.AdditionalSections f = [] ->
  24 <= c2 <= len input /\ slice input 0 c2 = head_bytes f'.
Proof.
  intros (Hlen & Hhead & (Hsigs & _ & _ & Hc1 & Hsigbytes)
          & (Hc1' & Hash & Hsecs & _ & _ & Hc2 & Hsecbytes & _) & _)
    Hsig0 Hsec0.
  rewrite Hsig0 in Hsigs. rewrite Hsec0 in Hsecs. cbn [app] in Hsigs, Hsecs.
  unfold head_of, head_from in Hhead. injection Hhead as Hid Hoff Hsh.
  split; [lia |].
  unfold head_bytes. rewrite Hid, Hoff, Hsh, Hsigs, Hsecs, Hash.
  rewrite <- Hsigbytes, <- Hsecbytes.
  rewrite list_byte_of_string_of_list_byte.
  unfold read_uint32, read_SignaturesHeader, read_AdditionalSectionsHeader.
  cbn [SignaturesHeader.FileSize SignaturesHeader.NumSignatures
       AdditionalSectionsHeader.NumAdditionalSections].
  pose proof (put_uint32_field input 4 8 0) as H1.
  pose proof (put_uint64_field input 8 20 0) as H2.
  pose proof (put_uint32_field input 8 20 8) as H3.
  pose proof (put_uint32_field input c1 (c1 + 4) 0) as H4.
  rewrite Z.add_0_r in H4.
  change (0 + 4) with 4 in *. change (0 + 8) with 8 in *.
  change (4 + 0) with 4 in *. change (8 + 0) with 8 in *.
  change (4 + 4) with 8 in *. change (8 + 4) with 12 in *.
  change (8 + 8) with 16 in *. change (16 + 4) with 20 in *.
  rewrite H1, H2, H3, H4 by lia.
  rewrite (slice_split input 8 16 20) by lia.
  rewrite (slice_split input c1 (c1 + 4) c2) by lia.
  rewrite (slice_split input 20 c1 c2) by lia.
  rewrite (slice_split input 8 20 c2) by lia.
  rewrite (slice_split input 4 8 c2) by lia.
  symmetry. apply slice_split; lia.
Qed.

(** X12: After a normal end on a [File] that had no index, the buffer holds,
    from the recorded offset to the index on, the bytes
    [MarshalForSignature] stages for the index of the [File]: the index
    header and every entry with its zero-terminated name. *)
Theorem Unmarshal_index_bytes (input spare : list byte) (f f' : File.t) :
  Unmarshal input spare f = (inl tt, f') ->
  File.Index f = [] ->
  File.OffsetToIndex f' + len (index_bytes f') <= len input
  /\ slice input (File.OffsetToIndex f')
       (File.OffsetToIndex f' + len (index_bytes f'))
     = index_bytes f'.
Proof.
  intros Hrun Hfresh.
  destruct (Unmarshal_structure input spare f f' Hrun)
    as (sigs & secs & entries & c1 & c2 & c3 & Hs).
  destruct (structure_parsed_index_bytes _ _ _ _ _ _ _ _ _ Hs Hfresh)
    as (Hoff & Hc3 & Hbytes).
  apply slice_to_len with (hi := c3); [lia | lia | lia | exact Hbytes].
Qed.

Lemma Unmarshal_index_bytes_witness :
  slice sample_input 56 90 = index_bytes (snd (decode sample_input)).
Proof.
  exact (proj2 (Unmarshal_index_bytes sample_input [] File.zero
                  (snd (decode sample_input))
                  ltac:(vm_compute; reflexivity) ltac:(reflexivity))).
Defined.

(** X13: After a normal end on a [File] that had no signatures and no
    additional sections, the buffer begins with the bytes of the
    [File]'s head: MAR ID, offset to the index, signatures header, every
    signature with its data, additional sections header, every
    additional section. *)
Theorem Unmarshal_head_bytes (input spare : list byte) (f f' : File.t) :
  Unmarshal input spare f = (inl tt, f') ->
  File.Signatures f = [] ->
  File.AdditionalSections f = [] ->
  len (head_bytes f') <= len input
  /\ slice input 0 (len (head_bytes f')) = head_bytes f'.
Proof.
  intros Hrun Hsig0 Hsec0.
  destruct (Unmarshal_structure input spare f f' Hrun)
    as (sigs & secs & entries & c1 & c2 & c3 & Hs).
  destruct (structure_parsed_head_bytes _ _ _ _ _ _ _ _ _ Hs Hsig0 Hsec0)
    as (Hc2 & Hbytes).
  change (len (head_bytes f')) with (0 + len (head_bytes f')).
  apply slice_to_len with (hi := c2); [lia | lia | lia | exact Hbytes].
Qed.

Lemma Unmarshal_head_bytes_witness :
  slice sample_input 0 48 = head_bytes (snd (decode sample_input)).
Proof.
  exact (proj2 (Unmarshal_head_bytes sample_input [] File.zero
                  (snd (decode sample_input))
                  ltac:(vm_compute; reflexivity) ltac:(reflexivity)
                  ltac:(reflexivity))).
Defined.


(** ** The errors of the index *)

Lemma parse_signatures_errors (input : list byte) (fuel : nat) :
  forall i c f,
    wp (parse_signatures fuel input i c)
       (fun r f' =>
          File.Index f' = File.Index f
          /\ File.Content f' = File.Content f
          /\ match r with
             | inr (Error e) => exists p, e = ErrParsingFailed p RefusingToRead
             | _ => True
             end) f.
Proof.
  induction fuel as [| fuel IH]; intros i c f; cbn [parse_signatures].
  { wp_step. auto. }
  wp_step. wp_step. wp_step; [| wp_step; auto].
  wp_step. wp_step; [eauto |].
  wp_step. wp_step; [eauto |].
  wp_step. wp_step.
  eapply wp_mono; [apply IH |]. cbn beta. intros r f' Hpost. exact Hpost.
Qed.

Lemma parse_sections_errors (input : list byte) (fuel : nat) :
  forall i c f,
    wp (parse_sections fuel input i c)
       (fun r f' =>
          File.Index f' = File.Index f
          /\ File.Content f' = File.Content f
          /\ match r with
             | inr (Error e) => exists p, e = ErrParsingFailed p RefusingToRead
             | _ => True
             end) f.
Proof.
  induction fuel as [| fuel IH]; intros i c f; cbn [parse_sections].
  { wp_step. auto. }
  wp_step. wp_step. wp_step; [| wp_step; auto].
  wp_step. wp_step; [eauto |].
  wp_step. wp_step; [eauto |].
  wp_step. apply store_block_spec.
  intros f' (_ & _ & _ & _ & _ & Hidx & Hcontent).
  wp_step. wp_step.
  eapply wp_mono; [apply IH |]. cbn beta.
  intros r f'' (Hi & Hc & Hr). cbn in Hi, Hc.
  split; [congruence |]. split; [congruence | exact Hr].
Qed.

(** The index loop fails on a name only where, 12 bytes after the start
    of an entry inside the buffer, no zero byte follows. *)
Lemma parse_index_errors (input spare : list byte) (fuel : nat) :
  forall c f,
    0 <= c ->
    wp (parse_index fuel input spare c)
       (fun r f' =>
          File.SignaturesHeader f' = File.SignaturesHeader f
          /\ File.OffsetToIndex f' = File.OffsetToIndex f
          /\ File.Content f' = File.Content f
          /\ match r with
             | inr (Error ErrMissingNull) =>
                 exists c',
                   c <= c' /\ c' + IndexEntryHeaderLen <= len input
                   /\ c' < int_of_uint64
                             (SignaturesHeader.FileSize
                                (File.SignaturesHeader f'))
                   /\ x00 ∉ slice input (c' + IndexEntryHeaderLen)
                              (len input)
             | inr (Error (ErrParsingFailed p e)) => e = RefusingToRead
             | inr (Error _) => False
             | _ => True
             end) f.
Proof.
  induction fuel as [| fuel IH]; intros c f Hc; cbn [parse_index].
  { wp_step. auto. }
  wp_step. wp_step.
  destruct (Z.leb_spec
              (int_of_uint64
                 (SignaturesHeader.FileSize (File.SignaturesHeader f))) c)
    as [Hend | Hmore]; [wp_step; auto |].
  wp_step. wp_step; [auto |].
  wp_step. apply wp_go_slice_len;
    [unfold IndexEntryHeaderLen in *; lia ..|].
  pose proof (bytes_Index_range
                (slice input (c + IndexEntryHeaderLen) (len input)) x00)
    as Hidx.
  destruct (Z.ltb_spec
              (bytes_Index
                 (slice input (c + IndexEntryHeaderLen) (len input)) x00) 0)
    as [Hneg | Hpos].
  { wp_step. split; [reflexivity |]. split; [reflexivity |].
    split; [reflexivity |]. exists c.
    split; [lia |]. split; [lia |]. split; [exact Hmore |].
    apply bytes_Index_missing. exact Hneg. }
  assert (len (slice input (c + IndexEntryHeaderLen) (len input))
          = len input - (c + IndexEntryHeaderLen)) as Hlen_rest
    by (apply len_slice; unfold IndexEntryHeaderLen in *; lia).
  wp_step. apply wp_go_slice_len;
    [unfold IndexEntryHeaderLen in *; lia ..|].
  wp_step. wp_step.
  eapply wp_mono; [apply IH; unfold IndexEntryHeaderLen in *; lia |]. cbn beta.
  intros r f' (Hsh & Hoff & Hcont & Hr). cbn in Hsh, Hoff, Hcont.
  split; [exact Hsh |]. split; [exact Hoff |]. split; [exact Hcont |].
  destruct r as [| [[| p e | | n] | |]]; try exact Hr.
  destruct Hr as (c' & Hle & Hr). exists c'.
  split; [unfold IndexEntryHeaderLen in *; lia | exact Hr].
Qed.

Lemma wp_conj {E A} (m : M E A) (Q Q' : A + Abort E -> File.t -> Prop) f :
  wp m Q f -> wp m Q' f -> wp m (fun r f' => Q r f' /\ Q' r f') f.
Proof. unfold wp. auto. Qed.

Lemma parse_structure_errors (input spare : list byte) (f : File.t) :
  wp (parse_structure input spare)
     (fun r f' =>
        File.Content f' = File.Content f
        /\ match r with
           | inr (Error ErrMissingNull) =>
               exists c,
                 File.OffsetToIndex f' + IndexHeaderLen <= c
                 /\ c + IndexEntryHeaderLen <= len input
                 /\ c < int_of_uint64
                          (SignaturesHeader.FileSize
                             (File.SignaturesHeader f'))
                 /\ x00 ∉ slice input (c + IndexEntryHeaderLen) (len input)
           | _ => True
           end
        /\ (28 <= len input ->
            len input < read_uint32 (slice input 4 8) + IndexHeaderLen ->
            File.Index f' = File.Index f
            /\ exists p, r = inr (Error (ErrParsingFailed p RefusingToRead))))
     f.
Proof.
  unfold parse_structure, MarIDLen, OffsetToIndexLen, SignaturesHeaderLen,
    AdditionalSectionsHeaderLen, IndexHeaderLen.
  change (4 + 4 + 12 + 4 + 4) with 28.
  destruct (Z.ltb_spec (len input) 28) as [Hshort | Hlong].
  { wp_step. split; [reflexivity |]. split; [exact I | lia]. }
  wp_step. wp_step; [lia |]. wp_step. wp_step.
  wp_step. wp_step; [lia |]. wp_step. wp_step.
  wp_step. wp_step; [lia |]. wp_step. wp_step.
  wp_step.
  eapply wp_mono;
    [apply wp_conj;
       [apply parse_signatures_spec; [lia | unfold len; lia | lia]
       | apply parse_signatures_errors] |].
  cbn beta. intros r1 f1 ((Hh1 & Hr1 & Hc1) & Hi1 & Hcont1 & He1).
  assert (head_of f1 = head_from input) as Hhead1 by exact Hh1.
  clear Hh1. cbn in Hi1, Hcont1.
  destruct r1 as [c1 | x].
  2:{ split; [exact Hcont1 |].
      destruct x as [e | p |]; [| contradiction | contradiction].
      destruct He1 as (p & ->). split; [exact I |]. intros _ _.
      split; [exact Hi1 | eauto]. }
  wp_step. wp_step.
  { split; [exact Hcont1 |]. split; [exact I |]. intros _ _.
    split; [exact Hi1 | eauto]. }
  wp_step. wp_step. wp_step.
  eapply wp_mono;
    [apply wp_conj;
       [apply parse_sections_spec; [lia | unfold len; lia | lia]
       | apply parse_sections_errors] |].
  cbn beta. intros r2 f2 ((Hh2 & Hr2 & Hc2) & Hi2 & Hcont2 & He2).
  assert (head_of f2 = head_from input) as Hhead
    by (rewrite Hh2; exact Hhead1).
  clear Hh2. cbn in Hi2, Hcont2. rewrite Hi1 in Hi2. rewrite Hcont1 in Hcont2.
  destruct r2 as [c2 | x].
  2:{ split; [exact Hcont2 |].
      destruct x as [e | p |]; [| contradiction | contradiction].
      destruct He2 as (p & ->). split; [exact I |]. intros _ _.
      split; [exact Hi2 | eauto]. }
  pose proof (head_from_offset_range input f2 Hhead) as Hoff.
  assert (Hoffeq : File.OffsetToIndex f2 = read_uint32 (slice input 4 8)).
  { unfold head_of, head_from in Hhead. congruence. }
  wp_step. wp_step. unfold int_of_uint32.
  wp_step. wp_step.
  { split; [exact Hcont2 |]. split; [exact I |]. intros _ _.
    split; [exact Hi2 | eauto]. }
  wp_step. wp_step.
  eapply wp_mono; [apply parse_index_errors; lia |].
  cbn beta. intros r f3 (Hsh3 & Hoff3 & Hcont3 & Hr3).
  cbn in Hoff3, Hcont3. split; [congruence |]. split.
  - destruct r as [| [[| p e | | n] | |]]; try exact I.
    destruct Hr3 as (c & Hle & Hr3). exists c. rewrite Hoff3.
    split; [exact Hle | exact Hr3].
  - intros _ Hbeyond. lia.
Qed.

(** X14: When [Unmarshal] reports that the zero byte of a name is missing,
    there is an index entry header inside the buffer, at or after the
    position behind the index header and before the recorded file size,
    behind which the buffer holds no zero byte; the content map of the
    [File] is as it was. *)
Theorem Unmarshal_missing_null_cause (input spare : list byte) (f f' : File.t) :
  Unmarshal input spare f = (inr (Error ErrMissingNull), f') ->
  File.Content f' = File.Content f
  /\ exists c,
       File.OffsetToIndex f' + IndexHeaderLen <= c
       /\ c + IndexEntryHeaderLen <= len input
       /\ c < int_of_uint64
                (SignaturesHeader.FileSize (File.SignaturesHeader f'))
       /\ x00 ∉ slice input (c + IndexEntryHeaderLen) (len input).
Proof.
  intros Hrun. unfold Unmarshal, mbind, M_bind, bind in Hrun.
  pose proof (parse_structure_errors input spare f) as Hs. unfold wp in Hs.
  destruct (parse_structure input spare f) as [[[] | x] f1].
  - pose proof (load_content_spec input spare f1) as Hl. unfold wp in Hl.
    rewrite Hrun in Hl. cbn [fst] in Hl. destruct Hl as (Hl & _).
    contradiction.
  - injection Hrun as -> ->. cbn [fst snd] in Hs.
    destruct Hs as (Hcont & Hc & _). split; [exact Hcont | exact Hc].
Qed.

Lemma Unmarshal_missing_null_cause_witness :
  exists c,
    File.OffsetToIndex (snd (decode unterminated_name_input))
    + IndexHeaderLen <= c
    /\ c + IndexEntryHeaderLen <= len unterminated_name_input
    /\ c < int_of_uint64
             (SignaturesHeader.FileSize
                (File.SignaturesHeader
                   (snd (decode unterminated_name_input))))
    /\ x00 ∉ slice unterminated_name_input (c + IndexEntryHeaderLen)
               (len unterminated_name_input).
Proof.
  apply (Unmarshal_missing_null_cause unterminated_name_input [] File.zero
           (snd (decode unterminated_name_input))).
  vm_compute. reflexivity.
Defined.

(** X15: A buffer of at least 28 bytes whose offset to the index leaves no
    room for the index header is refused by the bounded read: [Unmarshal]
    ends with the error of [parse], without a panic, and leaves the index
    and the content map of the [File] as they were. *)
Theorem Unmarshal_index_beyond_buffer (input spare : list byte) (f : File.t) :
  28 <= len input ->
  len input < read_uint32 (slice input 4 8) + IndexHeaderLen ->
  File.Index (snd (Unmarshal input spare f)) = File.Index f
  /\ File.Content (snd (Unmarshal input spare f)) = File.Content f
  /\ exists p,
       fst (Unmarshal input spare f)
       = inr (Error (ErrParsingFailed p RefusingToRead)).
Proof.
  intros Hlen Hbeyond. unfold Unmarshal, mbind, M_bind, bind.
  pose proof (parse_structure_errors input spare f) as Hs. unfold wp in Hs.
  destruct Hs as (Hcont & _ & Hs).
  destruct (Hs Hlen Hbeyond) as (Hidx & p & Hr).
  destruct (parse_structure input spare f) as [r f1]. cbn [fst snd] in *.
  subst r. cbn [fst snd]. split; [exact Hidx |]. split; [exact Hcont |].
  exists p. reflexivity.
Qed.

Lemma Unmarshal_index_beyond_buffer_witness :
  exists p,
    fst (decode index_beyond_input)
    = inr (Error (ErrParsingFailed p RefusingToRead)).
Proof.
  apply (Unmarshal_index_beyond_buffer index_beyond_input [] File.zero);
    vm_compute; [discriminate | reflexivity].
Defined.


(** * More properties of [MarshalForSignature] *)

(** ** The staged index and its size check *)

Lemma marshal_entries_idxBuf (sigDataSize : Z) (index : list IndexEntry.t) :
  forall idxBuf output f,
    wp (marshal_entries index sigDataSize idxBuf output)
       (fun r _ =>
          match r with
          | inl (idxBuf', _) =>
              idxBuf' = idxBuf ++ concat (map marshal_index_entry index)
          | inr x => x = Panic SliceBoundsOutOfRange
          end) f.
Proof.
  induction index as [| idx index IH]; intros idxBuf output f;
    cbn [marshal_entries].
  { wp_step. cbn [map concat]. rewrite app_nil_r. reflexivity. }
  wp_step. wp_step. wp_step.
  apply wp_go_copy; [reflexivity |]. intros output' _.
  eapply wp_mono; [apply IH |]. cbn beta.
  intros [[idxBuf' output''] | x] _ Hr; [| exact Hr].
  rewrite Hr. cbn [map concat]. rewrite <- app_assoc. reflexivity.
Qed.

(** X16: [MarshalForSignature] returns bytes only when the staged index, the
    index header and every entry with its zero-terminated name, has on
    32 bits the size the index header records plus the 4 bytes of the
    header itself.  Otherwise, unless a copy panicked before, it returns
    its error, which names the staged size and, as the expected size,
    the recorded size without the 4 bytes of the header. *)
Theorem MarshalForSignature_index_size (file : File.t) :
  match signable_bytes file with
  | inl _ =>
      wrap32 (len (index_bytes file))
      = wrap32 (IndexHeader.Size (File.IndexHeader file) + IndexHeaderLen)
  | inr (Error (ErrIndexSize got expected)) =>
      got = len (index_bytes file)
      /\ expected = IndexHeader.Size (File.IndexHeader file)
      /\ wrap32 got <> wrap32 (expected + IndexHeaderLen)
  | inr (Panic _) => True
  | inr OutOfFuel => False
  end.
Proof.
  change (wp MarshalForSignature
            (fun r _ =>
               match r with
               | inl _ =>
                   wrap32 (len (index_bytes file))
                   = wrap32 (IndexHeader.Size (File.IndexHeader file)
                             + IndexHeaderLen)
               | inr (Error (ErrIndexSize got expected)) =>
                   got = len (index_bytes file)
                   /\ expected = IndexHeader.Size (File.IndexHeader file)
                   /\ wrap32 got <> wrap32 (expected + IndexHeaderLen)
               | inr (Panic _) => True
               | inr OutOfFuel => False
               end) file).
  unfold MarshalForSignature.
  wp_step. wp_step. wp_step.
  apply wp_make_bytes; [exact (fun _ => I) |]. intros _.
  wp_step. wp_step. wp_step.
  apply wp_go_copy; [exact (fun _ => I) |]. intros output1 _.
  wp_step. wp_step. wp_step.
  eapply wp_mono;
    [apply wp_conj;
       [apply marshal_entries_idxBuf | apply marshal_entries_keeps_file] |].
  cbn beta. intros [[idxBuf output2] | x] f' (Hr & ->);
    [| rewrite Hr; exact I].
  fold (index_bytes file) in Hr. subst idxBuf.
  wp_step. wp_step.
  destruct (decide _) as [Heq | Hne].
  - wp_step. apply wp_go_copy; [exact (fun _ => I) |]. intros output3 _.
    wp_step. exact Heq.
  - wp_step. split; [reflexivity |]. split; [reflexivity | exact Hne].
Qed.

(** ** What the output holds *)

Lemma lookup_copy_into {A} (dst : list A) (lo hi : Z) (src dst' : list A)
  (i : nat) :
  copy_into dst lo hi src = Some dst' ->
  dst' !! i
  = if decide (Z.to_nat lo <= i < Z.to_nat lo
                                  + Z.to_nat (Z.min (hi - lo) (len src)))%nat
    then src !! (i - Z.to_nat lo)%nat
    else dst !! i.
Proof.
  unfold copy_into.
  destruct (Z.leb_spec hi (len dst)) as [Hhi |]; [| discriminate].
  destruct (Z.leb_spec lo hi) as [Hle |]; [| discriminate].
  destruct (Z.leb_spec 0 lo) as [Hlo |]; [| discriminate].
  cbn [andb]. intros [= <-]. pose proof (len_nonneg src) as Hsrc.
  set (n := Z.min (hi - lo) (len src)).
  assert (Hn : 0 <= n <= len src /\ lo + n <= len dst) by lia.
  unfold len in *.
  destruct (decide (i < Z.to_nat lo)%nat) as [Hbefore | Hfrom].
  { rewrite lookup_app_l by (rewrite length_take; lia).
    rewrite lookup_take_lt by lia.
    destruct (decide _) as [Hin |]; [lia | reflexivity]. }
  rewrite lookup_app_r by (rewrite length_take; lia).
  rewrite length_take.
  replace (Z.to_nat lo `min` length dst)%nat with (Z.to_nat lo) by lia.
  destruct (decide (i - Z.to_nat lo < Z.to_nat n)%nat) as [Hin | Hafter].
  { rewrite lookup_app_l by (rewrite length_take; lia).
    rewrite lookup_take_lt by lia.
    destruct (decide _) as [| Hout]; [reflexivity | lia]. }
  rewrite lookup_app_r by (rewrite length_take; lia).
  rewrite length_take, lookup_drop.
  destruct (decide _) as [Hin |]; [lia |]. f_equal. lia.
Qed.

Lemma copy_into_zero_or_same (dst : list byte) (lo hi : Z)
  (src dst' ref : list byte) :
  copy_into dst lo hi src = Some dst' ->
  zero_or_same dst ref ->
  (forall (j : nat) b, src !! j = Some b ->
                       ref !! (Z.to_nat lo + j)%nat = Some b) ->
  zero_or_same dst' ref.
Proof.
  intros Hcopy Hdst Hsrc i b. rewrite (lookup_copy_into _ _ _ _ _ i Hcopy).
  destruct (decide _) as [Hin | Hout]; [| apply Hdst].
  intros Hb. right. apply Hsrc in Hb.
  replace (Z.to_nat lo + (i - Z.to_nat lo))%nat with i in Hb by lia.
  exact Hb.
Qed.

Lemma marshal_entries_invariant (Inv : list byte -> Prop) (sigDataSize : Z)
  (index : list IndexEntry.t) :
  forall idxBuf output f,
    Inv output ->
    (forall e out out',
       e ∈ index -> Inv out ->
       copy_into out
         (wrap32 (IndexEntry.OffsetToContent e - sigDataSize))
         (wrap32 (IndexEntry.OffsetToContent e + IndexEntry.Size e
                  - sigDataSize))
         (content_data (File.Content f) (IndexEntry.FileName e))
       = Some out' ->
       Inv out') ->
    wp (marshal_entries index sigDataSize idxBuf output)
       (fun r _ => match r with
                   | inl (_, output') => Inv output'
                   | inr _ => True
                   end) f.
Proof.
  induction index as [| idx index IH]; intros idxBuf output f Hinit Hstep;
    cbn [marshal_entries].
  { wp_step. exact Hinit. }
  wp_step. wp_step. wp_step.
  apply wp_go_copy; [exact (fun _ => I) |]. intros output' Hcopy.
  apply IH.
  - apply (Hstep idx output output'); [left | exact Hinit | exact Hcopy].
  - intros e out out' Hin. apply Hstep. right. exact Hin.
Qed.

Lemma zero_or_same_replicate (n : nat) (ref : list byte) :
  zero_or_same (replicate n x00) ref.
Proof.
  intros i b Hb. apply lookup_replicate in Hb as (-> & _). left. reflexivity.
Qed.

(** The bytes [MarshalForSignature] returns are zero wherever they are
    not the bytes of a buffer that holds the staged head, the content of
    every index entry and the staged index at the positions they are
    copied to. *)
Lemma MarshalForSignature_zero_or_same (file : File.t)
  (out ref : list byte) :
  signable_bytes file = inl out ->
  (forall (j : nat) b, marshal_head file !! j = Some b -> ref !! j = Some b) ->
  (forall e, e ∈ File.Index file ->
     forall (j : nat) b,
       content_data (File.Content file) (IndexEntry.FileName e) !! j = Some b ->
       ref !! (Z.to_nat (wrap32 (IndexEntry.OffsetToContent e
                                 - sigDataSize_of (File.Signatures file)))
               + j)%nat = Some b) ->
  (forall (j : nat) b,
     index_bytes file !! j = Some b ->
     ref !! (Z.to_nat (wrap32 (File.OffsetToIndex file
                               - sigDataSize_of (File.Signatures file)))
             + j)%nat = Some b) ->
  zero_or_same out ref.
Proof.
  intros Hout Hhead Hcontent Hindex.
  enough (wp MarshalForSignature
            (fun r _ => forall o, r = inl o -> zero_or_same o ref) file)
    as H by (exact (H out Hout)).
  unfold MarshalForSignature.
  wp_step. wp_step. wp_step.
  apply wp_make_bytes; [discriminate |]. intros _.
  wp_step. wp_step. wp_step.
  apply wp_go_copy; [discriminate |]. intros output1 Hcopy1.
  assert (Hz1 : zero_or_same output1 ref).
  { eapply copy_into_zero_or_same;
      [exact Hcopy1 | apply zero_or_same_replicate |].
    intros j b Hb. cbn. apply Hhead. exact Hb. }
  wp_step. wp_step. wp_step.
  eapply wp_mono;
    [apply wp_conj;
       [apply wp_conj;
          [apply (marshal_entries_invariant (fun o => zero_or_same o ref))
          | apply marshal_entries_idxBuf]
       | apply marshal_entries_keeps_file] |].
  - exact Hz1.
  - intros e o o' Hin Hz Hcopy.
    eapply copy_into_zero_or_same; [exact Hcopy | exact Hz |].
    apply Hcontent. exact Hin.
  - cbn beta. intros [[idxBuf output2] | x] f' ((Hz2 & Hidx) & ->);
      [| discriminate].
    fold (index_bytes file) in Hidx. subst idxBuf.
    wp_step. wp_step.
    destruct (decide _); [| wp_step; discriminate].
    wp_step. apply wp_go_copy; [discriminate |]. intros output3 Hcopy3.
    wp_step. intros o [= <-].
    eapply copy_into_zero_or_same; [exact Hcopy3 | exact Hz2 | exact Hindex].
Qed.

(** ** Decoding, then encoding for signature *)

(** What a decoded archive says about the buffer, in the form the
    copies of [MarshalForSignature] need it. *)
Lemma decode_layout (input : list byte) (A : File.t) :
  decode input = (inl tt, A) ->
  Forall signature_parsed (File.Signatures A)
  /\ (len (head_bytes A) <= len input
      /\ slice input 0 (len (head_bytes A)) = head_bytes A)
  /\ (0 <= File.OffsetToIndex A < 2 ^ 32
      /\ slice input (File.OffsetToIndex A)
           (File.OffsetToIndex A + len (index_bytes A))
         = index_bytes A)
  /\ (forall e, e ∈ File.Index A ->
        0 <= IndexEntry.OffsetToContent e < 2 ^ 32
        /\ content_data (File.Content A) (IndexEntry.FileName e)
           = slice input (IndexEntry.OffsetToContent e)
               (IndexEntry.OffsetToContent e + IndexEntry.Size e)).
Proof.
  unfold decode. intros Hrun.
  destruct (Unmarshal_structure input [] File.zero A Hrun)
    as (sigs & secs & entries & c1 & c2 & c3 & Hs).
  destruct (structure_parsed_head_bytes _ _ _ _ _ _ _ _ _ Hs
              ltac:(reflexivity) ltac:(reflexivity)) as (Hc2 & Hhead).
  destruct (structure_parsed_index_bytes _ _ _ _ _ _ _ _ _ Hs
              ltac:(reflexivity)) as (Hoff & Hc3 & Hindex).
  destruct (Unmarshal_entries input [] File.zero A Hrun ltac:(reflexivity))
    as (Hnodup & Hcontent & Hentries).
  rewrite app_nil_r in Hcontent.
  destruct Hs as (_ & _ & (Hsigs & _ & Hparsed & _) & _).
  cbn [File.Signatures File.zero app] in Hsigs.
  split; [rewrite Hsigs; exact Hparsed |]. split; [| split].
  - change (len (head_bytes A)) with (0 + len (head_bytes A)).
    apply slice_to_len with (hi := c2); [lia | lia | lia | exact Hhead].
  - split; [exact Hoff |].
    apply slice_to_len with (hi := c3); [lia | lia | lia | exact Hindex].
  - intros e Hin. destruct (Hentries e Hin) as ((Hrange & _) & Hwrap & _).
    split; [exact Hrange |]. unfold content_data.
    rewrite Hcontent, (first_named_NoDup _ e Hnodup Hin).
    cbn [fmap option_fmap option_map]. unfold entry_of. cbn [Entry.Data].
    rewrite Hwrap. reflexivity.
Qed.

Lemma lookup_slice_Some {A} (s : list A) (lo hi : Z) (j : nat) (b : A) :
  0 <= lo -> slice s lo hi !! j = Some b ->
  s !! (Z.to_nat lo + j)%nat = Some b.
Proof.
  intros Hlo. rewrite lookup_slice by exact Hlo.
  destruct (decide _); [exact (fun H => H) | discriminate].
Qed.

Lemma marshal_head_unsigned (file : File.t) :
  File.Signatures file = [] -> marshal_head file = head_bytes file.
Proof. unfold marshal_head, head_bytes. intros ->. reflexivity. Qed.

(** X17: The signable bytes of a decoded archive without signatures are,
    wherever they are not zero, the bytes of the buffer the archive was
    decoded from, at the same positions. *)
Theorem signable_bytes_unsigned (input : list byte) (A : File.t)
  (out : list byte) :
  decode input = (inl tt, A) ->
  File.Signatures A = [] ->
  signable_bytes A = inl out ->
  zero_or_same out input.
Proof.
  intros Hdec Hnosig Hout.
  destruct (decode_layout input A Hdec)
    as (_ & (_ & Hhead) & (Hoff & Hindex) & Hentries).
  assert (Hs : sigDataSize_of (File.Signatures A) = 0)
    by (rewrite Hnosig; reflexivity).
  apply (MarshalForSignature_zero_or_same A out input Hout).
  - rewrite (marshal_head_unsigned A Hnosig), <- Hhead. intros j b Hb.
    apply lookup_slice_Some in Hb; [exact Hb | lia].
  - intros e Hin j b. destruct (Hentries e Hin) as (Hrange & ->).
    rewrite Hs, Z.sub_0_r. unfold wrap32. rewrite Z.mod_small by lia.
    apply lookup_slice_Some. lia.
  - rewrite Hs, Z.sub_0_r. unfold wrap32. rewrite Z.mod_small by lia.
    rewrite <- Hindex. intros j b. apply lookup_slice_Some. lia.
Qed.

Lemma signable_bytes_unsigned_witness :
  zero_or_same unsigned_sample_input unsigned_sample_input.
Proof.
  apply (signable_bytes_unsigned unsigned_sample_input
           (snd (decode unsigned_sample_input)));
    vm_compute; reflexivity.
Defined.

Lemma len_concat_signature_bytes (sigs : list Signature.t) :
  Forall signature_parsed sigs ->
  len (concat (map signature_bytes sigs))
  = len (concat (map marshal_signature sigs)) + sum_sizes sigs.
Proof.
  induction 1 as [| sig sigs (_ & _ & Hdata & _) _ IH]; [reflexivity |].
  cbn [map concat]. rewrite sum_sizes_cons, !len_app, IH.
  unfold signature_bytes. rewrite len_app. lia.
Qed.

Lemma len_head_bytes (file : File.t) :
  Forall signature_parsed (File.Signatures file) ->
  len (head_bytes file)
  = len (marshal_head file) + sum_sizes (File.Signatures file).
Proof.
  intros Hsigs. unfold head_bytes, marshal_head.
  rewrite !len_app, (len_concat_signature_bytes _ Hsigs). lia.
Qed.

Lemma signature_parsed_sizes (sigs : list Signature.t) :
  Forall signature_parsed sigs ->
  Forall (fun sig => 0 <= Signature.Size sig) sigs.
Proof.
  intros Hall. eapply Forall_impl; [exact Hall |].
  intros sig (_ & Hsize & _). lia.
Qed.

Lemma lookup_stripped (head input : list byte) (H s p : Z) (j : nat)
  (b : byte) :
  H = len head + s -> 0 <= s -> H <= p ->
  input !! (Z.to_nat p + j)%nat = Some b ->
  (head ++ drop (Z.to_nat H) input) !! (Z.to_nat (p - s) + j)%nat = Some b.
Proof.
  intros HH Hs Hp Hb. pose proof (len_nonneg head) as Hh. unfold len in *.
  rewrite lookup_app_r by lia. rewrite lookup_drop. rewrite <- Hb.
  f_equal. lia.
Qed.

(** X18: The signable bytes of an archive decoded from a buffer of less than
    4 GiB, whose file contents and index lie behind its additional
    sections, are, wherever they are not zero, the bytes of the buffer
    with the data of the signatures cut out: the staged head, then the
    buffer from the end of the additional sections on. *)
Theorem signable_bytes_signed (input : list byte) (A : File.t)
  (out : list byte) :
  decode input = (inl tt, A) ->
  len input < 2 ^ 32 ->
  (forall e, e ∈ File.Index A ->
             len (head_bytes A) <= IndexEntry.OffsetToContent e) ->
  len (head_bytes A) <= File.OffsetToIndex A ->
  signable_bytes A = inl out ->
  zero_or_same out
    (marshal_head A ++ drop (Z.to_nat (len (head_bytes A))) input).
Proof.
  intros Hdec Hsmall Hfiles Hidx Hout.
  destruct (decode_layout input A Hdec)
    as (Hsigs & (Hlen & _) & (Hoff & Hindex) & Hentries).
  pose proof (len_head_bytes A Hsigs) as HH.
  pose proof (signature_parsed_sizes _ Hsigs) as Hpos.
  pose proof (sum_sizes_nonneg _ Hpos) as Hnn.
  pose proof (len_nonneg (marshal_head A)) as Hh.
  assert (Hs : sigDataSize_of (File.Signatures A)
               = sum_sizes (File.Signatures A))
    by (apply sigDataSize_of_no_wrap; [exact Hpos | lia]).
  apply (MarshalForSignature_zero_or_same A out _ Hout).
  - intros j b Hb. apply lookup_app_l_Some. exact Hb.
  - intros e Hin j b. destruct (Hentries e Hin) as (Hrange & ->).
    pose proof (Hfiles e Hin) as Hbehind.
    rewrite Hs. unfold wrap32. rewrite Z.mod_small by lia.
    intros Hb. apply lookup_slice_Some in Hb; [| lia].
    apply (lookup_stripped _ _ _ _ _ _ _ HH Hnn Hbehind Hb).
  - rewrite Hs. unfold wrap32. rewrite Z.mod_small by lia.
    rewrite <- Hindex. intros j b Hb.
    apply lookup_slice_Some in Hb; [| lia].
    apply (lookup_stripped _ _ _ _ _ _ _ HH Hnn Hidx Hb).
Qed.

Lemma signable_bytes_signed_witness :
  zero_or_same (take 28 sample_input ++ drop 31 sample_input)
    (marshal_head (snd (decode sample_input))
     ++ drop (Z.to_nat (len (head_bytes (snd (decode sample_input)))))
          sample_input).
Proof.
  apply (signable_bytes_signed sample_input (snd (decode sample_input))).
  - vm_compute. reflexivity.
  - vm_compute. reflexivity.
  - intros e He. vm_compute in He.
    apply elem_of_cons in He as [-> | He];
      [vm_compute; discriminate |].
    apply elem_of_cons in He as [-> | He];
      [vm_compute; discriminate |].
    apply elem_of_nil in He. contradiction.
  - vm_compute. discriminate.
  - vm_compute. reflexivity.
Defined.

(** ** Where the index goes, and what the signatures contribute *)

Lemma sigDataSize_of_range (sigs : list Signature.t) :
  0 <= sigDataSize_of sigs < 2 ^ 32.
Proof.
  unfold sigDataSize_of.
  enough (forall acc, 0 <= acc < 2 ^ 32 ->
            0 <= fold_left (fun a sig => wrap32 (a + Signature.Size sig))
                   sigs acc < 2 ^ 32) as H by (apply H; lia).
  induction sigs as [| sig sigs IH]; intros acc Hacc; [exact Hacc |].
  cbn [fold_left]. apply IH. unfold wrap32. apply Z.mod_pos_bound. lia.
Qed.

(** X19: When [MarshalForSignature] returns bytes for a [File] whose
    signatures' sizes do not exceed the offset to the index and whose
    staged index ends before position [2^32], the returned bytes hold
    the whole staged index at the offset to the index less the
    signatures' sizes. *)
Theorem MarshalForSignature_index_placed (file : File.t) (out : list byte) :
  signable_bytes file = inl out ->
  sigDataSize_of (File.Signatures file) <= File.OffsetToIndex file ->
  File.OffsetToIndex file + len (index_bytes file) < 2 ^ 32 ->
  slice out
    (File.OffsetToIndex file - sigDataSize_of (File.Signatures file))
    (File.OffsetToIndex file - sigDataSize_of (File.Signatures file)
     + len (index_bytes file))
  = index_bytes file.
Proof.
  intros Hout Hle Hend.
  pose proof (sigDataSize_of_range (File.Signatures file)) as Hs.
  pose proof (len_nonneg (index_bytes file)) as Hlen.
  set (s := sigDataSize_of (File.Signatures file)) in *.
  set (idx := index_bytes file) in *.
  enough (wp MarshalForSignature
            (fun r _ =>
               forall o, r = inl o ->
                 slice o (File.OffsetToIndex file - s)
                   (File.OffsetToIndex file - s + len idx) = idx) file)
    as H by (exact (H out Hout)).
  unfold MarshalForSignature. fold s.
  wp_step. wp_step. wp_step.
  apply wp_make_bytes; [discriminate |]. intros _.
  wp_step. wp_step. wp_step.
  apply wp_go_copy; [discriminate |]. intros output1 _.
  wp_step. wp_step. wp_step.
  eapply wp_mono;
    [apply wp_conj;
       [apply marshal_entries_idxBuf | apply marshal_entries_keeps_file] |].
  cbn beta. intros [[idxBuf output2] | x] f' (Hidx & ->); [| discriminate].
  fold (index_bytes file) in Hidx. fold idx in Hidx. subst idxBuf.
  wp_step. wp_step.
  destruct (decide _); [| wp_step; discriminate].
  wp_step. apply wp_go_copy; [discriminate |]. intros output3 Hcopy.
  wp_step. intros o [= <-].
  assert (Hlo : wrap32 (File.OffsetToIndex file - s)
                = File.OffsetToIndex file - s)
    by (unfold wrap32; apply Z.mod_small; lia).
  assert (Hhi : wrap32 (File.OffsetToIndex file + wrap32 (len idx) - s)
                = File.OffsetToIndex file - s + len idx).
  { unfold wrap32. rewrite (Z.mod_small (len idx)) by lia.
    rewrite Z.mod_small by lia. lia. }
  fold s in Hcopy. rewrite Hlo, Hhi in Hcopy.
  apply list_eq. intros j. rewrite lookup_slice by lia.
  rewrite (lookup_copy_into _ _ _ _ _ _ Hcopy).
  replace (File.OffsetToIndex file - s + len idx
           - (File.OffsetToIndex file - s)) with (len idx) by lia.
  rewrite Z.min_id. unfold len in *.
  destruct (decide (Z.of_nat j < Z.of_nat (length idx))) as [Hin | Hout'].
  - destruct (decide _) as [_ | Hno]; [f_equal; lia | lia].
  - symmetry. apply lookup_ge_None. lia.
Qed.

Lemma MarshalForSignature_index_placed_witness :
  slice (take 28 sample_input ++ drop 31 sample_input) (56 - 3)
    (56 - 3 + 34)
  = index_bytes (snd (decode sample_input)).
Proof.
  apply (MarshalForSignature_index_placed (snd (decode sample_input)));
    vm_compute; [reflexivity | discriminate | reflexivity].
Defined.

Lemma marshal_entries_content (sigDataSize : Z) (index : list IndexEntry.t) :
  forall idxBuf output f1 f2,
    File.Content f1 = File.Content f2 ->
    fst (marshal_entries index sigDataSize idxBuf output f1)
    = fst (marshal_entries index sigDataSize idxBuf output f2).
Proof.
  induction index as [| idx index IH]; intros idxBuf output f1 f2 Hc;
    cbn [marshal_entries]; [reflexivity |].
  unfold mbind, M_bind, bind, get, go_copy. rewrite Hc.
  destruct (copy_into _ _ _ _) as [output' |]; [| reflexivity].
  cbn [ret]. apply IH. exact Hc.
Qed.

Lemma go_copy_eq {E} (dst : list byte) (lo hi : Z) (src : list byte)
  (f : File.t) :
  go_copy (E := E) dst lo hi src f
  = match copy_into dst lo hi src with
    | Some dst' => (inl dst', f)
    | None => (inr (Panic SliceBoundsOutOfRange), f)
    end.
Proof. unfold go_copy. destruct (copy_into dst lo hi src); reflexivity. Qed.

Lemma sigDataSize_of_sizes (sigs sigs' : list Signature.t) :
  Forall2 (fun sig sig' =>
             Signature.AlgorithmID sig = Signature.AlgorithmID sig'
             /\ Signature.Size sig = Signature.Size sig') sigs sigs' ->
  sigDataSize_of sigs = sigDataSize_of sigs'
  /\ map marshal_signature sigs = map marshal_signature sigs'.
Proof.
  unfold sigDataSize_of. generalize 0.
  intros acc Hall. revert acc.
  induction Hall as [| sig sig' sigs sigs' (Hid & Hsize) _ IH]; intros acc;
    [split; reflexivity |].
  cbn [fold_left map]. rewrite Hsize.
  destruct (IH (wrap32 (acc + Signature.Size sig'))) as (-> & ->).
  split; [reflexivity |]. unfold marshal_signature. rewrite Hid, Hsize.
  reflexivity.
Qed.

(** X20: The bytes [MarshalForSignature] returns depend on the signatures of
    the [File] through their algorithm ids and sizes only: signatures
    with other data, or other algorithm names, give the same bytes, the
    same error or the same panic. *)
Theorem signable_bytes_ignores_signature_data (file : File.t)
  (sigs : list Signature.t) :
  Forall2 (fun sig sig' =>
             Signature.AlgorithmID sig = Signature.AlgorithmID sig'
             /\ Signature.Size sig = Signature.Size sig')
          sigs (File.Signatures file) ->
  signable_bytes (File.set_Signatures sigs file) = signable_bytes file.
Proof.
  intros Hall. destruct (sigDataSize_of_sizes _ _ Hall) as (Hsize & Hhdr).
  assert (Hhead : marshal_head (File.set_Signatures sigs file)
                  = marshal_head file).
  { unfold marshal_head. file_norm. rewrite Hhdr. reflexivity. }
  pose proof (marshal_entries_keeps_file) as Hkeep. unfold wp in Hkeep.
  set (file' := File.set_Signatures sigs file) in *.
  assert (Hsh : File.SignaturesHeader file' = File.SignaturesHeader file)
    by reflexivity.
  assert (Hih : File.IndexHeader file' = File.IndexHeader file)
    by reflexivity.
  assert (Hidx : File.Index file' = File.Index file) by reflexivity.
  assert (Hoff : File.OffsetToIndex file' = File.OffsetToIndex file)
    by reflexivity.
  assert (Hcontent : File.Content file' = File.Content file) by reflexivity.
  assert (Hsigs : File.Signatures file' = sigs) by reflexivity.
  clearbody file'.
  unfold signable_bytes, MarshalForSignature, mbind, M_bind, bind, get.
  cbv beta iota. rewrite Hsigs, Hsh, Hsize.
  unfold make_bytes. destruct (_ || _); [reflexivity |].
  cbv beta iota delta [ret]. rewrite Hhead.
  rewrite !go_copy_eq.
  destruct (copy_into _ 0 _ _) as [output1 |]; [| reflexivity].
  cbv beta iota delta [ret]. rewrite Hih, Hidx.
  pose proof (marshal_entries_content
                (sigDataSize_of (File.Signatures file)) (File.Index file)
                (put_uint32 (IndexHeader.Size (File.IndexHeader file)))
                output1 file' file Hcontent) as Hsame.
  pose proof (Hkeep (sigDataSize_of (File.Signatures file))
                (File.Index file)
                (put_uint32 (IndexHeader.Size (File.IndexHeader file)))
                output1 file') as Hk1.
  pose proof (Hkeep (sigDataSize_of (File.Signatures file))
                (File.Index file)
                (put_uint32 (IndexHeader.Size (File.IndexHeader file)))
                output1 file) as Hk2.
  destruct (marshal_entries _ _ _ _ file') as [r1 g1].
  destruct (marshal_entries _ _ _ _ file) as [r2 g2].
  cbn [fst snd] in Hsame, Hk1, Hk2. subst r2 g1 g2.
  destruct r1 as [[idxBuf output2] | x]; [| reflexivity].
  rewrite Hih, Hoff.
  destruct (decide _); [| reflexivity].
  rewrite !go_copy_eq. destruct (copy_into _ _ _ _); reflexivity.
Qed.

Lemma signable_bytes_ignores_signature_data_witness :
  signable_bytes
    (File.set_Signatures [Signature.mk 2 3 "other" []]
       (snd (decode sample_input)))
  = signable_bytes (snd (decode sample_input)).
Proof.
  apply (signable_bytes_ignores_signature_data (snd (decode sample_input))).
  vm_compute. repeat constructor.
Defined.

(** ** The size of the output *)

(** X21: A [File] whose recorded size, a 64-bit number, is less than the
    32-bit sum of its signatures' sizes makes [MarshalForSignature]
    panic: the 64-bit difference wraps around to more than Go's largest
    [int], and [make] refuses that length. *)
Theorem MarshalForSignature_size_underflow (file : File.t) :
  0 <= SignaturesHeader.FileSize (File.SignaturesHeader file) ->
  SignaturesHeader.FileSize (File.SignaturesHeader file)
  < sigDataSize_of (File.Signatures file) ->
  signable_bytes file = inr (Panic MakeSliceLenOutOfRange).
Proof.
  intros Hpos Hless.
  pose proof (sigDataSize_of_range (File.Signatures file)) as Hs.
  unfold signable_bytes, MarshalForSignature, mbind, M_bind, bind, get.
  cbv beta iota. unfold make_bytes.
  assert (Hwrap : wrap64 (SignaturesHeader.FileSize
                            (File.SignaturesHeader file)
                          - sigDataSize_of (File.Signatures file))
                  = SignaturesHeader.FileSize (File.SignaturesHeader file)
                    - sigDataSize_of (File.Signatures file) + 2 ^ 64).
  { unfold wrap64. symmetry. apply (Z.mod_unique _ _ (-1)); lia. }
  rewrite Hwrap.
  destruct (Z.ltb_spec
              (SignaturesHeader.FileSize (File.SignaturesHeader file)
               - sigDataSize_of (File.Signatures file) + 2 ^ 64) 0);
    [reflexivity |].
  destruct (Z.ltb_spec MaxInt
              (SignaturesHeader.FileSize (File.SignaturesHeader file)
               - sigDataSize_of (File.Signatures file) + 2 ^ 64))
    as [| Hno]; [reflexivity |].
  unfold MaxInt in Hno. lia.
Qed.

Lemma MarshalForSignature_size_underflow_witness :
  fst (decode zero_file_size_input) = inl tt
  /\ signable_bytes (snd (decode zero_file_size_input))
     = inr (Panic MakeSliceLenOutOfRange).
Proof.
  split; [vm_compute; reflexivity |].
  apply (MarshalForSignature_size_underflow
           (snd (decode zero_file_size_input)));
    vm_compute; [discriminate | reflexivity].
Defined.

